(** * JobLens V3 workflow: a shallow embedding of [agents/v3_graph.py]

  The development follows the layout of the Python module: string
  primitives of the Python runtime, the rate-limited gateway, the
  tolerant text parsers, the discovery loop (phase 1) and the
  enrichment passes (phases 2 and 3).

  External collaborators (the generation service, the scraper and the
  [json] library) are not part of the repository.  Their answers are
  passed to the node functions as explicit arguments, so every theorem
  quantifies over all possible answers. *)

From Stdlib Require Import ZArith Lia Bool Ascii.
From Stdlib Require DecimalString.
From stdpp Require Import base option list gmap strings.

Set Warnings "-register-all".

Local Open Scope Z_scope.

(** ** Python string primitives *)

Module PyStr.

Definition LF : ascii := Ascii.ascii_of_nat 10.
Definition nl : string := String LF "".

(** [str.isspace] on the ASCII range: TAB..CR, FS..US and SPACE. *)
Definition isspace (c : ascii) : bool :=
  let n := Ascii.nat_of_ascii c in
  ((9 <=? n)%nat && (n <=? 13)%nat) || ((28 <=? n)%nat && (n <=? 32)%nat).

Definition len (s : string) : Z := Z.of_nat (String.length s).

(** [bool(s)] for a string. *)
Definition nonempty (s : string) : bool :=
  match s with "" => false | _ => true end.

Fixpoint lstrip (s : string) : string :=
  match s with
  | String c s' => if isspace c then lstrip s' else s
  | "" => ""
  end.

Fixpoint rstrip (s : string) : string :=
  match s with
  | String c s' =>
      let r := rstrip s' in
      if isspace c && negb (nonempty r) then "" else String c r
  | "" => ""
  end.

Definition strip (s : string) : string := rstrip (lstrip s).

Definition startswith (p s : string) : bool := String.prefix p s.

Fixpoint str_drop (n : nat) (s : string) : string :=
  match n, s with
  | S n', String _ s' => str_drop n' s'
  | _, _ => s
  end.

Fixpoint str_take (n : nat) (s : string) : string :=
  match n, s with
  | S n', String c s' => String c (str_take n' s')
  | _, _ => ""
  end.

(** Normalisation of one slice bound, as CPython's [PySlice_AdjustIndices]
    does for step 1. *)
Definition clamp_index (l i : Z) : Z :=
  if i <? 0 then Z.max (i + l) 0 else Z.min i l.

(** [s[a:b]] *)
Definition slice (s : string) (a b : Z) : string :=
  let a' := clamp_index (len s) a in
  let b' := clamp_index (len s) b in
  str_take (Z.to_nat (b' - a')) (str_drop (Z.to_nat a') s).

(** [s[a:]] *)
Definition slice_from (s : string) (a : Z) : string :=
  str_drop (Z.to_nat (clamp_index (len s) a)) s.

(** [s[:b]] *)
Definition slice_to (s : string) (b : Z) : string :=
  str_take (Z.to_nat (clamp_index (len s) b)) s.

Fixpoint find_at (sub s : string) (i : Z) : Z :=
  if startswith sub s then i
  else match s with
       | "" => -1
       | String _ s' => find_at sub s' (i + 1)
       end.

(** [s.find(sub)]: lowest index of [sub] in [s], [-1] when absent. *)
Definition find (sub s : string) : Z := find_at sub s 0.

(** [s.find(sub, start)] *)
Definition find_from (sub s : string) (start : Z) : Z :=
  let start := if start <? 0 then Z.max (start + len s) 0 else start in
  if len s <? start then -1
  else find_at sub (str_drop (Z.to_nat start) s) start.

Fixpoint rfind_at (sub s : string) (i : Z) : Z :=
  match s with
  | "" => if startswith sub "" then i else -1
  | String _ s' =>
      let r := rfind_at sub s' (i + 1) in
      if r =? -1 then (if startswith sub s then i else -1) else r
  end.

(** [s.rfind(sub)]: highest index of [sub] in [s], [-1] when absent. *)
Definition rfind (sub s : string) : Z := rfind_at sub s 0.

(** [sub in s] *)
Definition contains (sub s : string) : bool := negb (find sub s =? -1).

Definition upper_char (c : ascii) : ascii :=
  let n := Ascii.nat_of_ascii c in
  if (97 <=? n)%nat && (n <=? 122)%nat then Ascii.ascii_of_nat (n - 32) else c.

Definition lower_char (c : ascii) : ascii :=
  let n := Ascii.nat_of_ascii c in
  if (65 <=? n)%nat && (n <=? 90)%nat then Ascii.ascii_of_nat (n + 32) else c.

Fixpoint upper (s : string) : string :=
  match s with
  | "" => ""
  | String c s' => String (upper_char c) (upper s')
  end.

Fixpoint lower (s : string) : string :=
  match s with
  | "" => ""
  | String c s' => String (lower_char c) (lower s')
  end.

(** [s.split(sep, 1)[1]]: what follows the first occurrence of [sep];
    [None] stands for the [IndexError] raised when [sep] does not occur. *)
Fixpoint after_first (sep s : string) : option string :=
  if startswith sep s then Some (str_drop (String.length sep) s)
  else match s with
       | "" => None
       | String _ s' => after_first sep s'
       end.

(** [s.split(sep)] for a non-empty separator: [skip] counts the characters
    of a separator still to be consumed, [cur] is the piece being read. *)
Fixpoint split_go (sep s : string) (skip : nat) (cur : string) : list string :=
  match s with
  | "" => [cur]
  | String c s' =>
      match skip with
      | S k => split_go sep s' k cur
      | O =>
          if startswith sep s
          then cur :: split_go sep s' (String.length sep - 1) ""
          else split_go sep s' O (cur +:+ String c "")
      end
  end.

Definition split (sep s : string) : list string := split_go sep s O "".

(** [sep.join(l)] *)
Fixpoint join (sep : string) (l : list string) : string :=
  match l with
  | [] => ""
  | [x] => x
  | x :: l' => x +:+ sep +:+ join sep l'
  end.

(** [str(n)] for a natural number. *)
Definition of_nat (n : nat) : string :=
  DecimalString.NilZero.string_of_uint (Nat.to_uint n).

(** [x in l] for a list of strings. *)
Definition mem (x : string) (l : list string) : bool :=
  bool_decide (x ∈ l).

End PyStr.

(** ** Configuration ([config.py]) *)

Module Config.

Definition PRIMARY_MODEL : string := "gemini-2.0-flash".
Definition FALLBACK_MODEL : string := "gemini-2.0-flash-lite".

Definition get_model_name (use_fallback : bool) : string :=
  if use_fallback then FALLBACK_MODEL else PRIMARY_MODEL.

End Config.

(** ** The rate-limited gateway *)

Module Gateway.

Definition COOLDOWN_SECONDS : Z := 4.

(** What one [client.models.generate_content] call does: it returns a
    response whose [text] may be [None], or it raises an exception [e],
    of which the gateway only looks at [str(e)]. *)
Inductive reply : Type :=
| Text (text : option string)
| Raise (str_e : string).

(** The generation service, seen from the gateway: the reply to the call of
    a given attempt with a given model. *)
Definition service : Type := string -> Z -> reply.

(** [r.text or ""] *)
Definition text_or_empty (t : option string) : string :=
  match t with
  | Some s => s
  | None => ""
  end.

(** The [except] branch: how long the gateway sleeps before the next turn
    of the loop. *)
Definition pause_after (str_e : string) (attempt max_attempts : Z) : Z :=
  if PyStr.contains "429" str_e && (attempt <? max_attempts - 1)
  then COOLDOWN_SECONDS * 2 ^ attempt
  else COOLDOWN_SECONDS.

(** The body of [for attempt in range(max_attempts)], with [todo] turns
    left.  The result pairs the returned string with the pauses taken in
    the [except] branch.  The cooldown wait before a call reads the wall
    clock and does not influence the returned value; it is left out. *)
Fixpoint attempts (svc : service) (max_attempts : Z) (todo : nat) (attempt : Z)
  : string * list Z :=
  match todo with
  | O => ("", [])
  | S todo' =>
      match svc (Config.get_model_name (2 <=? attempt)) attempt with
      | Text t => (text_or_empty t, [])
      | Raise e =>
          let r := attempts svc max_attempts todo' (attempt + 1) in
          (r.1, pause_after e attempt max_attempts :: r.2)
      end
  end.

Definition _rate_limited_gemini (svc : service) (max_attempts : Z) : string * list Z :=
  attempts svc max_attempts (Z.to_nat max_attempts) 0.

(** The call made at attempt [k] raises. *)
Definition raises (svc : service) (k : Z) : Prop :=
  exists e, svc (Config.get_model_name (2 <=? k)) k = Raise e.

(** A service that fails once with a server error and then answers. *)
Definition flaky : service :=
  fun _ attempt =>
    if attempt =? 0 then Raise "500 INTERNAL" else Text (Some "[]").

(** A service that is down. *)
Definition down : service := fun _ _ => Raise "503 UNAVAILABLE".

End Gateway.

(** ** Python values *)

Module Py.

(** A float is a ratio of integers, an infinity or a NaN: enough to say
    what [bool(x)] and [int(x)] do. *)
Inductive float : Type :=
| Ffin (num : Z) (den : positive)
| Finf (negative : bool)
| Fnan.

(** The values [json.loads] builds, and the values found in the
    arguments of a function call. *)
Inductive value : Type :=
| VNone
| VBool (b : bool)
| VInt (z : Z)
| VFloat (f : float)
| VStr (s : string)
| VList (l : list value)
| VDict (items : list (string * value)).

Definition dict : Type := list (string * value).

(** [d.get(key)] *)
Fixpoint get (d : dict) (key : string) : option value :=
  match d with
  | [] => None
  | (k, v) :: d' => if String.eqb k key then Some v else get d' key
  end.

(** [key in d] *)
Definition has_key (d : dict) (key : string) : bool :=
  match get d key with Some _ => true | None => false end.

(** [bool(x)] *)
Definition truthy (x : value) : bool :=
  match x with
  | VNone => false
  | VBool b => b
  | VInt z => negb (z =? 0)
  | VFloat (Ffin n _) => negb (n =? 0)
  | VFloat _ => true
  | VStr s => PyStr.nonempty s
  | VList l => match l with [] => false | _ => true end
  | VDict d => match d with [] => false | _ => true end
  end.

(** [d.get(key) or default] *)
Definition get_or (d : dict) (key : string) (default : value) : value :=
  match get d key with
  | Some v => if truthy v then v else default
  | None => default
  end.

(** [d.get(key, default)] *)
Definition get_default (d : dict) (key : string) (default : value) : value :=
  match get d key with
  | Some v => v
  | None => default
  end.

(** The outcome of [int(x)]: a value, a [TypeError] or [ValueError]
    (the callers that catch one catch both), or an [OverflowError]. *)
Inductive int_result : Type :=
| IntVal (z : Z)
| IntError
| IntOverflow.

Definition digit_of (c : ascii) : option Z :=
  let n := Ascii.nat_of_ascii c in
  if (48 <=? n)%nat && (n <=? 57)%nat then Some (Z.of_nat (n - 48)) else None.

(** Decimal digits, single underscores allowed between two digits. *)
Fixpoint digits (s : string) (acc : Z) (after_digit : bool) : option Z :=
  match s with
  | "" => if after_digit then Some acc else None
  | String c s' =>
      match digit_of c with
      | Some d => digits s' (acc * 10 + d) true
      | None =>
          if Ascii.eqb c "_" && after_digit then digits s' acc false else None
      end
  end.

(** [int(s)] for a string *)
Definition int_of_str (s : string) : option Z :=
  match PyStr.strip s with
  | String "+" r => digits r 0 false
  | String "-" r => Z.opp <$> digits r 0 false
  | t => digits t 0 false
  end.

(** [int(x)] *)
Definition int (x : value) : int_result :=
  match x with
  | VBool b => IntVal (if b then 1 else 0)
  | VInt z => IntVal z
  | VFloat (Ffin n d) => IntVal (Z.quot n (Z.pos d))
  | VFloat (Finf _) => IntOverflow
  | VFloat Fnan => IntError
  | VStr s => match int_of_str s with Some z => IntVal z | None => IntError end
  | VNone | VList _ | VDict _ => IntError
  end.

(** [x[i] = v] on a list; [None] is the [IndexError]. *)
Definition set_item {A} (l : list A) (i : Z) (v : A) : option (list A) :=
  let n := Z.of_nat (length l) in
  let i' := if i <? 0 then i + n else i in
  if (0 <=? i') && (i' <? n) then Some (<[Z.to_nat i' := v]> l) else None.

(** [l[a:]] on a list *)
Definition list_from {A} (l : list A) (a : Z) : list A :=
  drop (Z.to_nat (PyStr.clamp_index (Z.of_nat (length l)) a)) l.

(** [l[:b]] on a list, for [b >= 0] *)
Definition list_to {A} (l : list A) (b : nat) : list A := take b l.

(** The part of the Python runtime the workflow calls and the repository
    does not contain.  [json_loads] answers [None] for a
    [JSONDecodeError]; [repr_of] is [str(x)] for floats and containers. *)
Class Runtime : Type := {
  json_loads : string -> option value;
  json_dumps : value -> string;
  repr_of : value -> string;
}.

(** [str(x)] *)
Definition str `{Runtime} (x : value) : string :=
  match x with
  | VStr s => s
  | VNone => "None"
  | VBool b => if b then "True" else "False"
  | VInt z =>
      if z <? 0 then "-" +:+ PyStr.of_nat (Z.to_nat (- z))
      else PyStr.of_nat (Z.to_nat z)
  | _ => repr_of x
  end.

End Py.

(** ** The tolerant text parsers *)

Module Parser.
Import PyStr.

Definition FENCE : string := "```".

(** The common prologue of [_extract_json_array] and
    [_extract_json_string_array]: strip, drop a leading fence and its
    [json] tag.  [split] cannot fail here, since the text starts with the
    fence. *)
Definition strip_fence (text : string) : string :=
  let t := strip text in
  if startswith FENCE t then
    let t := match after_first FENCE t with Some r => r | None => t end in
    if startswith "json" t then slice_from t 4 else t
  else t.

Definition DQUOTE : ascii := Ascii.ascii_of_nat 34.

Definition is_quote (c : ascii) : bool :=
  Ascii.eqb c DQUOTE || Ascii.eqb c "'".

(** The bracket-matching loop of [_extract_json_array], run over the
    characters from index [i] on: the value of [end] when the loop is left,
    [-1] if it never breaks.  [in_string] is [None] for Python's [False]
    and otherwise the opening quote. *)
Fixpoint match_bracket (s : string) (i depth : Z) (in_string : option ascii)
  (escape : bool) : Z :=
  match s with
  | "" => -1
  | String c s' =>
      if escape then match_bracket s' (i + 1) depth in_string false
      else if Ascii.eqb c "\" && bool_decide (is_Some in_string)
      then match_bracket s' (i + 1) depth in_string true
      else match in_string with
           | Some q =>
               if Ascii.eqb c q
               then match_bracket s' (i + 1) depth None false
               else match_bracket s' (i + 1) depth in_string false
           | None =>
               if is_quote c
               then match_bracket s' (i + 1) depth (Some c) false
               else if Ascii.eqb c "["
               then match_bracket s' (i + 1) (depth + 1) None false
               else if Ascii.eqb c "]"
               then if depth - 1 =? 0 then i + 1
                    else match_bracket s' (i + 1) (depth - 1) None false
               else match_bracket s' (i + 1) depth None false
           end
  end.

(** After a closing brace: the number of characters of a match of
    [\s*\n\s*\{], if there is one. *)
Fixpoint gap_then_brace (s : string) (seen_newline : bool) (n : nat) : option nat :=
  match s with
  | "" => None
  | String c s' =>
      if Ascii.eqb c "{" then (if seen_newline then Some (S n) else None)
      else if isspace c
      then gap_then_brace s' (seen_newline || Ascii.eqb c LF) (S n)
      else None
  end.

(** [re.sub(r"\}\s*\n\s*\{", "},{", raw)]; [skip] counts the characters of
    a match still to be passed over. *)
Fixpoint insert_commas (s : string) (skip : nat) : string :=
  match s with
  | "" => ""
  | String c s' =>
      match skip with
      | S k => insert_commas s' k
      | O =>
          if Ascii.eqb c "}" then
            match gap_then_brace s' false O with
            | Some n => "},{" +:+ insert_commas s' n
            | None => String c (insert_commas s' O)
            end
          else String c (insert_commas s' O)
      end
  end.

(** [[x for x in parsed if isinstance(x, dict)]] *)
Fixpoint only_dicts (l : list Py.value) : list Py.dict :=
  match l with
  | [] => []
  | Py.VDict d :: l' => d :: only_dicts l'
  | _ :: l' => only_dicts l'
  end.

(** The slice [t[start:end]] that [_extract_json_array] hands to
    [json.loads], [None] when the function returns early. *)
Definition bracket_span (t : string) : option string :=
  let start := find "[" t in
  if start =? -1 then None
  else
    let end_ := match_bracket (slice_from t start) start 0 None false in
    let end_ := if end_ <=? start then rfind "]" t + 1 else end_ in
    if end_ <=? start then None
    else Some (slice t start end_).

Definition _extract_json_array `{Py.Runtime} (text : string) : list Py.dict :=
  match bracket_span (strip_fence text) with
  | None => []
  | Some raw =>
      match Py.json_loads (insert_commas raw O) with
      | Some (Py.VList parsed) => only_dicts parsed
      | _ => []
      end
  end.

(** [[str(x).strip() for x in parsed if x]] *)
Definition stripped_strs `{Py.Runtime} (parsed : list Py.value) : list string :=
  (fun x => strip (Py.str x)) <$> filter (fun x => Py.truthy x = true) parsed.

Definition _extract_json_string_array `{Py.Runtime} (text : string) : list string :=
  let t := strip_fence text in
  let start := find "[" t in
  let end_ := rfind "]" t + 1 in
  if (start =? -1) || (end_ <=? start) then []
  else
    match Py.json_loads (slice t start end_) with
    | Some (Py.VList parsed) => take 5 (stripped_strs parsed)
    | _ => []
    end.

(** *** [_split_batch_suggestions] *)

(** [any(parts)] *)
Definition any_part (parts : list string) : bool := existsb nonempty parts.

(** [[f"{prefix}{i+1}" for i in range(count)]] *)
Definition numbered (prefix : string) (count : Z) : list string :=
  (fun i => prefix +:+ of_nat (S i)) <$> seq 0 (Z.to_nat count).

(** The loop of the inner function [try_markers], at index [i], with
    [markers[i:]] still to be visited.  [None] is an [IndexError]. *)
Fixpoint try_markers_from (text tu : string) (markers : list string) (i : Z)
  (parts : list string) : option (list string) :=
  match markers with
  | [] => Some parts
  | marker :: rest =>
      let start := find (upper marker) tu in
      if start =? -1 then try_markers_from text tu rest (i + 1) parts
      else
        let start := start + len marker in
        let end_ :=
          match rest with
          | next :: _ =>
              let e := find (upper next) tu in
              if e =? -1 then len text else e
          | [] => len text
          end in
        let chunk := strip (slice text start end_) in
        if 20 <? len chunk
        then parts' ← Py.set_item parts i chunk;
             try_markers_from text tu rest (i + 1) parts'
        else try_markers_from text tu rest (i + 1) parts
  end.

Definition try_markers (text tu : string) (markers parts : list string)
  : option (list string) :=
  try_markers_from text tu markers 0 parts.

Definition lenient_patterns (n : nat) : list string :=
  [ "JOB " +:+ of_nat n +:+ ":";
    "JOB " +:+ of_nat n +:+ nl;
    "JOB " +:+ of_nat n +:+ " ";
    "**JOB " +:+ of_nat n +:+ "**";
    "**Job " +:+ of_nat n +:+ "**";
    "Job " +:+ of_nat n +:+ ":";
    "Job " +:+ of_nat n +:+ nl ].

(** The first pattern found in [tu], with the index where it was found. *)
Fixpoint first_pattern (tu : string) (patterns : list string) : option (string * Z) :=
  match patterns with
  | [] => None
  | pat :: rest =>
      let start := find (upper pat) tu in
      if start =? -1 then first_pattern tu rest else Some (pat, start)
  end.

(** The inner loop [for j in range(i + 1, count)]: where the chunk ends. *)
Fixpoint next_header (tu : string) (start : Z) (js : list nat) (end_ : Z) : Z :=
  match js with
  | [] => end_
  | j :: js' =>
      let pos := find_from (upper ("JOB " +:+ of_nat (S j))) tu start in
      if pos =? -1 then next_header tu start js' end_ else pos
  end.

(** The lenient loop [for i in range(count)], over the indices [is]. *)
Fixpoint lenient (text tu : string) (count : nat) (indices : list nat)
  (parts : list string) : option (list string) :=
  match indices with
  | [] => Some parts
  | i :: rest =>
      match first_pattern tu (lenient_patterns (S i)) with
      | Some (pat, start) =>
          let start := start + len pat in
          let end_ := next_header tu start (seq (S i) (count - S i)) (len text) in
          let chunk := strip (slice text start end_) in
          if 20 <? len chunk
          then parts' ← Py.set_item parts (Z.of_nat i) chunk;
               lenient text tu count rest parts'
          else lenient text tu count rest parts
      | None => lenient text tu count rest parts
      end
  end.

(** [for i in range(min(count, len(chunks)))] of the paragraph fallback. *)
Fixpoint assign_chunks (chunks : list string) (indices : list nat)
  (parts : list string) : option (list string) :=
  match indices with
  | [] => Some parts
  | i :: rest =>
      chunk ← chunks !! i;
      if 20 <? len chunk
      then parts' ← Py.set_item parts (Z.of_nat i) chunk;
           assign_chunks chunks rest parts'
      else assign_chunks chunks rest parts
  end.

Definition paragraphs (stripped : string) : list string :=
  filter (fun c => nonempty c = true) (strip <$> split (nl +:+ nl) stripped).

(** The part after the marker strategies. *)
Definition fallback (text : string) (count : Z) (parts : list string)
  : option (list string) :=
  let stripped := strip text in
  if negb (nonempty stripped) then Some parts
  else if count =? 1 then Py.set_item parts 0 stripped
  else
    let chunks := paragraphs stripped in
    match chunks with
    | [] => Py.set_item parts 0 stripped
    | _ =>
        let n := Z.to_nat (Z.min count (Z.of_nat (length chunks))) in
        parts' ← assign_chunks chunks (seq 0 n) parts;
        if count <? Z.of_nat (length chunks)
        then Py.set_item parts' (count - 1)
               (join (nl +:+ nl) (Py.list_from chunks (count - 1)))
        else Some parts'
    end.

(** [None] stands for the [IndexError] of an assignment out of range. *)
Definition _split_batch_suggestions (text : string) (count : Z)
  : option (list string) :=
  let blank := replicate (Z.to_nat count) "" in
  let tu := upper text in
  parts ← try_markers text tu (numbered "## JOB " count) blank;
  if any_part parts then Some parts
  else
    parts ← try_markers text tu (numbered "### JOB " count) blank;
    if any_part parts then Some parts
    else
      parts ← lenient text tu (Z.to_nat count) (seq 0 (Z.to_nat count)) blank;
      if any_part parts then Some parts
      else fallback text count parts.

(** The [json] fence put around a text. *)
Definition fenced (t : string) : string :=
  FENCE +:+ "json" +:+ nl +:+ t +:+ nl +:+ FENCE.

End Parser.

(** ** The workflow state ([agents/state.py]) *)

Module V3.
Import PyStr.

Definition V3_SCORE_THRESHOLD : Z := 85.
Definition V3_TARGET_QUALIFYING_JOBS : Z := 10.
Definition V3_PHASE1_MAX_ROUNDS : Z := 15.
Definition BATCH_SIZE : nat := 3.
Definition RELEVANCE_BATCH_SIZE : nat := 6.

(** One dictionary built by [_scrape_linkedin_tool]: the nine keys of a
    scraped listing. *)
Record Listing : Type := MkListing {
  title : string;
  company : string;
  location : string;
  description : string;
  salary : string;
  url : string;
  source : string;
  posted_at : option string;
  posted_display : option string;
}.

(** A job dictionary: the listing and the keys the nodes add later.  A key
    that is absent from the dictionary is [None] here. *)
Record Job : Type := MkJob {
  listing : Listing;
  score : option Z;
  resume_suggestions : option string;
  project_suggestions : option string;
  future_score : option Z;
  improvement_potential : option Z;
  brief_relevance_summary : option string;
}.

(** An entry of [phase1_tried_pairs]:
    [{title, page, jobs_returned}], then [qualifying_added]. *)
Record Attempt : Type := MkAttempt {
  attempt_title : string;
  attempt_page : Z;
  jobs_returned : Z;
  qualifying_added : option Z;
}.

(** [{name, args: {job_title, page}}] *)
Record ToolCall : Type := MkToolCall {
  name : string;
  job_title : string;
  page : Z;
}.

(** [V3State].  The logging callback [_log] and the counter [phase2_rounds],
    which no node reads or writes, are left out. *)
Record State : Type := MkState {
  resume : string;
  cover_letter : string;
  job_type : string;
  suggested_titles : list string;
  qualifying_jobs : list Job;
  seen_urls : list string;
  current_batch : list Job;
  phase1_last_tool_call : option ToolCall;
  last_scrape_result_count : Z;
  last_qualifying_added_count : Z;
  last_tried_title : string;
  last_tried_page : Z;
  phase1_tried_pairs : list Attempt;
  phase1_rounds : Z;
  _log_phase : Z;
}.

Definition set_score (v : option Z) (j : Job) : Job :=
  {| listing := listing j; score := v; resume_suggestions := resume_suggestions j; project_suggestions := project_suggestions j; future_score := future_score j; improvement_potential := improvement_potential j; brief_relevance_summary := brief_relevance_summary j |}.
Definition set_resume_suggestions (v : option string) (j : Job) : Job :=
  {| listing := listing j; score := score j; resume_suggestions := v; project_suggestions := project_suggestions j; future_score := future_score j; improvement_potential := improvement_potential j; brief_relevance_summary := brief_relevance_summary j |}.
Definition set_project_suggestions (v : option string) (j : Job) : Job :=
  {| listing := listing j; score := score j; resume_suggestions := resume_suggestions j; project_suggestions := v; future_score := future_score j; improvement_potential := improvement_potential j; brief_relevance_summary := brief_relevance_summary j |}.
Definition set_future_score (v : option Z) (j : Job) : Job :=
  {| listing := listing j; score := score j; resume_suggestions := resume_suggestions j; project_suggestions := project_suggestions j; future_score := v; improvement_potential := improvement_potential j; brief_relevance_summary := brief_relevance_summary j |}.
Definition set_improvement_potential (v : option Z) (j : Job) : Job :=
  {| listing := listing j; score := score j; resume_suggestions := resume_suggestions j; project_suggestions := project_suggestions j; future_score := future_score j; improvement_potential := v; brief_relevance_summary := brief_relevance_summary j |}.
Definition set_brief_relevance_summary (v : option string) (j : Job) : Job :=
  {| listing := listing j; score := score j; resume_suggestions := resume_suggestions j; project_suggestions := project_suggestions j; future_score := future_score j; improvement_potential := improvement_potential j; brief_relevance_summary := v |}.

Definition set_qualifying_added (v : option Z) (p : Attempt) : Attempt :=
  {| attempt_title := attempt_title p; attempt_page := attempt_page p; jobs_returned := jobs_returned p; qualifying_added := v |}.

Definition set_suggested_titles (v : list string) (st : State) : State :=
  {| resume := resume st; cover_letter := cover_letter st; job_type := job_type st; suggested_titles := v; qualifying_jobs := qualifying_jobs st; seen_urls := seen_urls st; current_batch := current_batch st; phase1_last_tool_call := phase1_last_tool_call st; last_scrape_result_count := last_scrape_result_count st; last_qualifying_added_count := last_qualifying_added_count st; last_tried_title := last_tried_title st; last_tried_page := last_tried_page st; phase1_tried_pairs := phase1_tried_pairs st; phase1_rounds := phase1_rounds st; _log_phase := _log_phase st |}.
Definition set_qualifying_jobs (v : list Job) (st : State) : State :=
  {| resume := resume st; cover_letter := cover_letter st; job_type := job_type st; suggested_titles := suggested_titles st; qualifying_jobs := v; seen_urls := seen_urls st; current_batch := current_batch st; phase1_last_tool_call := phase1_last_tool_call st; last_scrape_result_count := last_scrape_result_count st; last_qualifying_added_count := last_qualifying_added_count st; last_tried_title := last_tried_title st; last_tried_page := last_tried_page st; phase1_tried_pairs := phase1_tried_pairs st; phase1_rounds := phase1_rounds st; _log_phase := _log_phase st |}.
Definition set_seen_urls (v : list string) (st : State) : State :=
  {| resume := resume st; cover_letter := cover_letter st; job_type := job_type st; suggested_titles := suggested_titles st; qualifying_jobs := qualifying_jobs st; seen_urls := v; current_batch := current_batch st; phase1_last_tool_call := phase1_last_tool_call st; last_scrape_result_count := last_scrape_result_count st; last_qualifying_added_count := last_qualifying_added_count st; last_tried_title := last_tried_title st; last_tried_page := last_tried_page st; phase1_tried_pairs := phase1_tried_pairs st; phase1_rounds := phase1_rounds st; _log_phase := _log_phase st |}.
Definition set_current_batch (v : list Job) (st : State) : State :=
  {| resume := resume st; cover_letter := cover_letter st; job_type := job_type st; suggested_titles := suggested_titles st; qualifying_jobs := qualifying_jobs st; seen_urls := seen_urls st; current_batch := v; phase1_last_tool_call := phase1_last_tool_call st; last_scrape_result_count := last_scrape_result_count st; last_qualifying_added_count := last_qualifying_added_count st; last_tried_title := last_tried_title st; last_tried_page := last_tried_page st; phase1_tried_pairs := phase1_tried_pairs st; phase1_rounds := phase1_rounds st; _log_phase := _log_phase st |}.
Definition set_phase1_last_tool_call (v : option ToolCall) (st : State) : State :=
  {| resume := resume st; cover_letter := cover_letter st; job_type := job_type st; suggested_titles := suggested_titles st; qualifying_jobs := qualifying_jobs st; seen_urls := seen_urls st; current_batch := current_batch st; phase1_last_tool_call := v; last_scrape_result_count := last_scrape_result_count st; last_qualifying_added_count := last_qualifying_added_count st; last_tried_title := last_tried_title st; last_tried_page := last_tried_page st; phase1_tried_pairs := phase1_tried_pairs st; phase1_rounds := phase1_rounds st; _log_phase := _log_phase st |}.
Definition set_last_scrape_result_count (v : Z) (st : State) : State :=
  {| resume := resume st; cover_letter := cover_letter st; job_type := job_type st; suggested_titles := suggested_titles st; qualifying_jobs := qualifying_jobs st; seen_urls := seen_urls st; current_batch := current_batch st; phase1_last_tool_call := phase1_last_tool_call st; last_scrape_result_count := v; last_qualifying_added_count := last_qualifying_added_count st; last_tried_title := last_tried_title st; last_tried_page := last_tried_page st; phase1_tried_pairs := phase1_tried_pairs st; phase1_rounds := phase1_rounds st; _log_phase := _log_phase st |}.
Definition set_last_qualifying_added_count (v : Z) (st : State) : State :=
  {| resume := resume st; cover_letter := cover_letter st; job_type := job_type st; suggested_titles := suggested_titles st; qualifying_jobs := qualifying_jobs st; seen_urls := seen_urls st; current_batch := current_batch st; phase1_last_tool_call := phase1_last_tool_call st; last_scrape_result_count := last_scrape_result_count st; last_qualifying_added_count := v; last_tried_title := last_tried_title st; last_tried_page := last_tried_page st; phase1_tried_pairs := phase1_tried_pairs st; phase1_rounds := phase1_rounds st; _log_phase := _log_phase st |}.
Definition set_last_tried_title (v : string) (st : State) : State :=
  {| resume := resume st; cover_letter := cover_letter st; job_type := job_type st; suggested_titles := suggested_titles st; qualifying_jobs := qualifying_jobs st; seen_urls := seen_urls st; current_batch := current_batch st; phase1_last_tool_call := phase1_last_tool_call st; last_scrape_result_count := last_scrape_result_count st; last_qualifying_added_count := last_qualifying_added_count st; last_tried_title := v; last_tried_page := last_tried_page st; phase1_tried_pairs := phase1_tried_pairs st; phase1_rounds := phase1_rounds st; _log_phase := _log_phase st |}.
Definition set_last_tried_page (v : Z) (st : State) : State :=
  {| resume := resume st; cover_letter := cover_letter st; job_type := job_type st; suggested_titles := suggested_titles st; qualifying_jobs := qualifying_jobs st; seen_urls := seen_urls st; current_batch := current_batch st; phase1_last_tool_call := phase1_last_tool_call st; last_scrape_result_count := last_scrape_result_count st; last_qualifying_added_count := last_qualifying_added_count st; last_tried_title := last_tried_title st; last_tried_page := v; phase1_tried_pairs := phase1_tried_pairs st; phase1_rounds := phase1_rounds st; _log_phase := _log_phase st |}.
Definition set_phase1_tried_pairs (v : list Attempt) (st : State) : State :=
  {| resume := resume st; cover_letter := cover_letter st; job_type := job_type st; suggested_titles := suggested_titles st; qualifying_jobs := qualifying_jobs st; seen_urls := seen_urls st; current_batch := current_batch st; phase1_last_tool_call := phase1_last_tool_call st; last_scrape_result_count := last_scrape_result_count st; last_qualifying_added_count := last_qualifying_added_count st; last_tried_title := last_tried_title st; last_tried_page := last_tried_page st; phase1_tried_pairs := v; phase1_rounds := phase1_rounds st; _log_phase := _log_phase st |}.
Definition set_phase1_rounds (v : Z) (st : State) : State :=
  {| resume := resume st; cover_letter := cover_letter st; job_type := job_type st; suggested_titles := suggested_titles st; qualifying_jobs := qualifying_jobs st; seen_urls := seen_urls st; current_batch := current_batch st; phase1_last_tool_call := phase1_last_tool_call st; last_scrape_result_count := last_scrape_result_count st; last_qualifying_added_count := last_qualifying_added_count st; last_tried_title := last_tried_title st; last_tried_page := last_tried_page st; phase1_tried_pairs := phase1_tried_pairs st; phase1_rounds := v; _log_phase := _log_phase st |}.
Definition set_log_phase (v : Z) (st : State) : State :=
  {| resume := resume st; cover_letter := cover_letter st; job_type := job_type st; suggested_titles := suggested_titles st; qualifying_jobs := qualifying_jobs st; seen_urls := seen_urls st; current_batch := current_batch st; phase1_last_tool_call := phase1_last_tool_call st; last_scrape_result_count := last_scrape_result_count st; last_qualifying_added_count := last_qualifying_added_count st; last_tried_title := last_tried_title st; last_tried_page := last_tried_page st; phase1_tried_pairs := phase1_tried_pairs st; phase1_rounds := phase1_rounds st; _log_phase := v |}.

(** A freshly scraped job. *)
Definition new_job (l : Listing) : Job :=
  {| listing := l; score := None; resume_suggestions := None;
     project_suggestions := None; future_score := None;
     improvement_potential := None; brief_relevance_summary := None |}.

(** [initial_state] of [api.py]. *)
Definition initial_state (resume_text cover_letter_text jt : string) : State :=
  {| resume := resume_text; cover_letter := cover_letter_text; job_type := jt;
     suggested_titles := []; qualifying_jobs := []; seen_urls := [];
     current_batch := []; phase1_last_tool_call := None;
     last_scrape_result_count := 0; last_qualifying_added_count := 0;
     last_tried_title := ""; last_tried_page := -1;
     phase1_tried_pairs := []; phase1_rounds := 0; _log_phase := 0 |}.

(** *** Phase 1: the titles *)

Definition max_titles (jt : string) : nat :=
  if String.eqb jt "full_time" then 3%nat
  else if String.eqb jt "internship" then 3%nat
  else 4%nat.

Definition default_titles (jt : string) : list string :=
  if String.eqb jt "full_time" then ["Software Engineer"]
  else ["Software Engineer Intern"].

(** The loop over [arr] in [decide_titles_node]: the [title] of each
    mapping, else its [name]. *)
Fixpoint titles_of_dicts `{Py.Runtime} (arr : list Py.dict) : list string :=
  match arr with
  | [] => []
  | x :: arr' =>
      match Py.get x "title", Py.get x "name" with
      | Some v, _ => strip (Py.str v) :: titles_of_dicts arr'
      | None, Some v => strip (Py.str v) :: titles_of_dicts arr'
      | None, None => titles_of_dicts arr'
      end
  end.

(** The last resort of [decide_titles_node]: [json.loads] on the span from
    the first opening to the last closing bracket of the whole text. *)
Definition titles_of_span `{Py.Runtime} (text : string) (cap : nat) : list string :=
  match Py.json_loads (slice text (find "[" text) (rfind "]" text + 1)) with
  | Some (Py.VList parsed) => take cap (Parser.stripped_strs parsed)
  | _ => []
  end.

Definition is_nil {A} (l : list A) : bool :=
  match l with [] => true | _ => false end.

(** [(state.get("job_type") or "full_time").strip().lower()] *)
Definition normal_job_type (st : State) : string :=
  lower (strip (if nonempty (job_type st) then job_type st else "full_time")).

(** [text] is what [_rate_limited_gemini(prompt)] returned. *)
Definition titles_for `{Py.Runtime} (jt text : string) : list string :=
  let titles := Parser._extract_json_string_array text in
  let titles :=
    if is_nil titles && nonempty (strip text) then
      let titles := titles_of_dicts (Parser._extract_json_array text) in
      if is_nil titles && contains "[" text
      then titles_of_span text (max_titles jt)
      else titles
    else titles in
  let titles := if is_nil titles then default_titles jt else titles in
  take (max_titles jt) (filter (fun t => nonempty t = true) titles).

Definition decide_titles_node `{Py.Runtime} (st : State) (text : string) : State :=
  set_suggested_titles (titles_for (normal_job_type st) text) st.

(** *** Phase 1: the discovery loop *)

Definition _tried_pairs_set (tried_pairs : list Attempt) : gset (string * Z) :=
  foldl (fun out p =>
           let t := strip (attempt_title p) in
           if nonempty t then out ∪ {[ (t, attempt_page p) ]} else out)
        ∅ tried_pairs.

(** [for page in range(max_page_per_title + 1)] *)
Fixpoint first_untried_page (tried : gset (string * Z)) (t : string)
  (pages : list nat) : option (string * Z) :=
  match pages with
  | [] => None
  | pg :: pages' =>
      if bool_decide ((t, Z.of_nat pg) ∈ tried)
      then first_untried_page tried t pages'
      else Some (t, Z.of_nat pg)
  end.

(** [for title in titles] *)
Fixpoint first_untried (tried : gset (string * Z)) (titles : list string)
  (pages : list nat) : option (string * Z) :=
  match titles with
  | [] => None
  | t :: titles' =>
      let t := strip t in
      if nonempty t then
        match first_untried_page tried t pages with
        | Some found => Some found
        | None => first_untried tried titles' pages
        end
      else first_untried tried titles' pages
  end.

Definition _get_next_title_page (suggested : list string)
  (tried_pairs : list Attempt) (max_page_per_title : Z) : option (string * Z) :=
  let tried := _tried_pairs_set tried_pairs in
  let titles := if is_nil suggested then ["Software Engineer"] else suggested in
  first_untried tried titles (seq 0 (Z.to_nat (max_page_per_title + 1))).

(** What the tool-calling request of [phase1_agent_node] comes back with:
    the call raised, the response holds no function call, or it holds one
    with a name and arguments (either may be [None]). *)
Inductive agent_reply : Type :=
| CallFailed
| NoFunctionCall
| FunctionCall (fc_name : option string) (fc_args : option Py.dict).

(** The arguments of a function call as a plain dictionary; the generation
    service hands them over as a dictionary or not at all. *)
Definition _normalize_function_call_args (fc_args : option Py.dict) : Py.dict :=
  default [] fc_args.

(** [int(args.get("page", 0))] under [except (TypeError, ValueError)];
    [None] is the exception that is not caught. *)
Definition page_of (args : Py.dict) : option Z :=
  match Py.int (Py.get_default args "page" (Py.VInt 0)) with
  | Py.IntVal z => Some z
  | Py.IntError => Some 0
  | Py.IntOverflow => None
  end.

(** The pair the agent reads off the arguments, before the safety net. *)
Definition requested_pair `{Py.Runtime} (suggested : list string)
  (args : Py.dict) : option (string * Z) :=
  let first_title := match suggested with t :: _ => t | [] => "Software Engineer" end in
  let raw_title := Py.get_or args "job_title" (Py.VStr first_title) in
  let title := if Py.truthy raw_title then strip (Py.str raw_title) else first_title in
  let title := if negb (is_nil suggested) && negb (mem title suggested)
               then first_title else title in
  pg ← page_of args;
  Some (title, pg).

(** The value of [phase1_last_tool_call] in the update the node returns;
    the outer [None] is an exception that leaves the node. *)
Definition agent_tool_call `{Py.Runtime} (st : State) (reply : agent_reply)
  : option (option ToolCall) :=
  let suggested := suggested_titles st in
  let n := Z.of_nat (length (qualifying_jobs st)) in
  let tried_pairs := phase1_tried_pairs st in
  let tried_set := _tried_pairs_set tried_pairs in
  if V3_TARGET_QUALIFYING_JOBS <=? n then Some None
  else
    match _get_next_title_page suggested tried_pairs 5 with
    | None => Some None
    | Some next_pair =>
        match reply with
        | FunctionCall (Some fname) fc_args =>
            if String.eqb fname "scrape_linkedin" then
              let args := _normalize_function_call_args fc_args in
              asked ← requested_pair suggested args;
              let chosen := if bool_decide (asked ∈ tried_set) then next_pair else asked in
              Some (Some {| name := "scrape_linkedin";
                            job_title := chosen.1; page := chosen.2 |})
            else Some None
        | _ => Some None
        end
    end.

Definition phase1_agent_node `{Py.Runtime} (st : State) (reply : agent_reply)
  : option State :=
  call ← agent_tool_call st reply;
  Some (set_phase1_last_tool_call call st).

(** The loop of [phase1_tool_node] over the scraped batch: the grown list of
    seen URLs and the fresh jobs. *)
Fixpoint dedup (batch : list Job) (seen : list string) (fresh : list Job)
  : list string * list Job :=
  match batch with
  | [] => (seen, fresh)
  | j :: batch' =>
      let u := url (listing j) in
      if nonempty u && negb (mem u seen)
      then dedup batch' (seen ++ [u]) (fresh ++ [j])
      else dedup batch' seen fresh
  end.

(** [scrape title page] is what [_scrape_linkedin_tool(title, page)]
    returns. *)
Definition phase1_tool_node (st : State) (scrape : string -> Z -> list Listing)
  : State :=
  let quiet :=
    set_current_batch []
      (set_phase1_last_tool_call None
         (set_phase1_tried_pairs (phase1_tried_pairs st) st)) in
  match phase1_last_tool_call st with
  | None => quiet
  | Some tool =>
      if negb (String.eqb (name tool) "scrape_linkedin") then quiet
      else
        let suggested := suggested_titles st in
        let title := strip (job_title tool) in
        let title :=
          if negb (nonempty title)
             || (negb (is_nil suggested) && negb (mem title suggested))
          then match suggested with t :: _ => t | [] => "Software Engineer" end
          else title in
        let pg := page tool in
        let batch := new_job <$> scrape title pg in
        let '(seen, fresh) := dedup batch (seen_urls st) [] in
        let entry := {| attempt_title := title; attempt_page := pg;
                        jobs_returned := Z.of_nat (length fresh);
                        qualifying_added := None |} in
        set_current_batch fresh
          (set_seen_urls seen
             (set_phase1_last_tool_call None
                (set_last_tried_title title
                   (set_last_tried_page pg
                      (set_phase1_tried_pairs (phase1_tried_pairs st ++ [entry]) st)))))
  end.

(** The loop of [score_batch_node] over the parsed array.  The right-hand
    side [int(sc)] is evaluated before the subscript [int(idx)]; a
    [ValueError] or [TypeError] of either skips the item, an
    [OverflowError] leaves the node ([None]). *)
Fixpoint score_map_of (items : list Py.dict) (score_map : gmap Z Z)
  : option (gmap Z Z) :=
  match items with
  | [] => Some score_map
  | s :: rest =>
      let sc := Py.get_default s "score" (Py.VInt 0) in
      match Py.get s "idx" with
      | None | Some Py.VNone => score_map_of rest score_map
      | Some idx =>
          match Py.int sc with
          | Py.IntOverflow => None
          | Py.IntError => score_map_of rest score_map
          | Py.IntVal v =>
              match Py.int idx with
              | Py.IntOverflow => None
              | Py.IntError => score_map_of rest score_map
              | Py.IntVal k =>
                  score_map_of rest (<[k := Z.max 0 (Z.min 100 v)]> score_map)
              end
          end
      end
  end.

(** [score_map.get(i, 70)] *)
Definition score_at (score_map : gmap Z Z) (i : Z) : Z :=
  default 70 (score_map !! i).

(** [for i, j in enumerate(batch)]: the qualifying jobs grow by the scored
    jobs that reach the threshold; the second component is [added]. *)
Fixpoint collect (score_map : gmap Z Z) (batch : list Job) (i : Z)
  (qualifying : list Job) (added : Z) : list Job * Z :=
  match batch with
  | [] => (qualifying, added)
  | j :: batch' =>
      let sc := score_at score_map i in
      let j := set_score (Some sc) j in
      if V3_SCORE_THRESHOLD <=? sc
      then collect score_map batch' (i + 1) (qualifying ++ [j]) (added + 1)
      else collect score_map batch' (i + 1) qualifying added
  end.

(** [tried_pairs[-1]["qualifying_added"] = added] *)
Fixpoint annotate_last (tried_pairs : list Attempt) (added : Z) : list Attempt :=
  match tried_pairs with
  | [] => []
  | [p] => [set_qualifying_added (Some added) p]
  | p :: rest => p :: annotate_last rest added
  end.

(** [text] is what [_rate_limited_gemini(prompt)] returned. *)
Definition score_batch_node `{Py.Runtime} (st : State) (text : string)
  : option State :=
  let batch := current_batch st in
  let tried_pairs := phase1_tried_pairs st in
  if is_nil batch then
    Some (set_current_batch []
            (set_last_scrape_result_count 0
               (set_last_qualifying_added_count 0
                  (set_phase1_tried_pairs tried_pairs st))))
  else
    score_map ←
      (if nonempty (strip text)
       then score_map_of (Parser._extract_json_array text) ∅
       else Some ∅);
    let '(qualifying, added) := collect score_map batch 0 (qualifying_jobs st) 0 in
    let rounds := phase1_rounds st + 1 in
    Some (set_qualifying_jobs qualifying
            (set_current_batch []
               (set_last_scrape_result_count (Z.of_nat (length batch))
                  (set_last_qualifying_added_count added
                     (set_phase1_rounds rounds
                        (set_phase1_tried_pairs (annotate_last tried_pairs added) st)))))).

(** The nodes of the graph. *)
Inductive node : Type :=
| decide_titles
| phase1_agent
| phase1_tools
| score_batch
| resume_modifier_agent
| project_proposer
| future_scores
| relevance_summary
| END.

Definition phase1_route (st : State) : node :=
  if V3_TARGET_QUALIFYING_JOBS <=? Z.of_nat (length (qualifying_jobs st))
  then resume_modifier_agent
  else if V3_PHASE1_MAX_ROUNDS <=? phase1_rounds st
  then resume_modifier_agent
  else match phase1_last_tool_call st with
       | Some _ => phase1_tools
       | None => phase1_agent
       end.

(** *** Phases 2 and 3: the enrichment passes *)

(** [for batch_start in range(0, len(jobs), size)]: [f k batch] treats
    batch number [k]; the jobs are updated in place, so the result is the
    list of the treated batches in order. *)
Fixpoint run_batches (size : nat) (f : nat -> list Job -> option (list Job))
  (fuel k : nat) (jobs : list Job) : option (list Job) :=
  match fuel, jobs with
  | S fuel', _ :: _ =>
      done ← f k (take size jobs);
      rest ← run_batches size f fuel' (S k) (drop size jobs);
      Some (done ++ rest)
  | _, _ => Some jobs
  end.

Definition NO_SUGGESTIONS : string := "No suggestions generated.".

(** [(parts[i] if i < len(parts) and parts[i] else "").strip() or "No ..."] *)
Definition suggestion_at (parts : list string) (i : nat) : string :=
  let s := strip (default "" (parts !! i)) in
  if nonempty s then s else NO_SUGGESTIONS.

Definition suggest_batch (text : string) (batch : list Job) : option (list Job) :=
  if negb (nonempty (strip text))
  then Some (set_resume_suggestions (Some NO_SUGGESTIONS) <$> batch)
  else
    parts ← Parser._split_batch_suggestions text (Z.of_nat (length batch));
    Some (imap (fun i j => set_resume_suggestions (Some (suggestion_at parts i)) j) batch).

(** [answer k] is what the gateway returned for batch number [k]. *)
Definition resume_modifier_agent_node (st : State) (answer : nat -> string)
  : option State :=
  let jobs := qualifying_jobs st in
  jobs' ← run_batches BATCH_SIZE (fun k => suggest_batch (answer k)) (length jobs) 0 jobs;
  Some (set_qualifying_jobs jobs' (set_log_phase 1 st)).

(** [j.setdefault("project_suggestions", ...)] *)
Definition default_projects (j : Job) : Job :=
  match project_suggestions j with
  | Some _ => j
  | None => set_project_suggestions (Some "No project suggestions generated.") j
  end.

(** [json.dumps(projects) if isinstance(projects, list) else str(projects)] *)
Definition render_projects `{Py.Runtime} (projects : Py.value) : string :=
  match projects with
  | Py.VList _ => Py.json_dumps projects
  | _ => Py.str projects
  end.

(** The loop over the items of one batch.  A [ValueError] or [TypeError] is
    caught outside the loop, which ends it; an [OverflowError] is not. *)
Fixpoint propose_items `{Py.Runtime} (items : list Py.dict) (batch : list Job)
  : option (list Job) :=
  match items with
  | [] => Some batch
  | item :: rest =>
      let projects := Py.get_default item "projects" (Py.VList []) in
      match Py.get item "idx" with
      | None | Some Py.VNone => propose_items rest batch
      | Some idx =>
          match Py.int idx with
          | Py.IntOverflow => None
          | Py.IntError => Some batch
          | Py.IntVal k =>
              if (0 <=? k) && (k <? Z.of_nat (length batch))
              then propose_items rest
                     (alter (set_project_suggestions (Some (render_projects projects)))
                            (Z.to_nat k) batch)
              else propose_items rest batch
          end
      end
  end.

Definition propose_batch `{Py.Runtime} (text : string) (batch : list Job)
  : option (list Job) :=
  if nonempty (strip text)
  then propose_items (Parser._extract_json_array text) batch
  else Some batch.

Definition project_proposer_node `{Py.Runtime} (st : State) (answer : nat -> string)
  : option State :=
  let jobs := default_projects <$> qualifying_jobs st in
  jobs' ← run_batches BATCH_SIZE (fun k => propose_batch (answer k)) (length jobs) 0 jobs;
  Some (set_qualifying_jobs jobs' (set_log_phase 2 st)).

(** The two [setdefault] calls of [future_scores_node]. *)
Definition default_future (j : Job) : Job :=
  let cur := default 50 (score j) in
  let j := match future_score j with
           | Some _ => j
           | None => set_future_score (Some (Z.min 100 (cur + 10))) j
           end in
  match improvement_potential j with
  | Some _ => j
  | None => set_improvement_potential (Some (default 0 (future_score j) - cur)) j
  end.

Definition set_future (fs : Z) (j : Job) : Job :=
  let j := set_future_score (Some (Z.max 0 (Z.min 100 fs))) j in
  set_improvement_potential
    (Some (default 0 (future_score j) - default 50 (score j))) j.

(** No exception is caught in this loop. *)
Fixpoint future_items (items : list Py.dict) (jobs : list Job) : option (list Job) :=
  match items with
  | [] => Some jobs
  | item :: rest =>
      let fs := Py.get_default item "future_score" (Py.VInt 0) in
      match Py.get item "idx" with
      | None | Some Py.VNone => future_items rest jobs
      | Some idx =>
          match Py.int idx with
          | Py.IntVal k =>
              if (0 <=? k) && (k <? Z.of_nat (length jobs))
              then match Py.int fs with
                   | Py.IntVal v => future_items rest (alter (set_future v) (Z.to_nat k) jobs)
                   | _ => None
                   end
              else future_items rest jobs
          | _ => None
          end
      end
  end.

Definition future_scores_node `{Py.Runtime} (st : State) (text : string)
  : option State :=
  let jobs := default_future <$> qualifying_jobs st in
  jobs' ← (if nonempty (strip text)
           then future_items (Parser._extract_json_array text) jobs
           else Some jobs);
  Some (set_qualifying_jobs jobs' st).

(** [(item.get(key) or "").strip()]: a value that is true and not a string
    has no [strip], which raises. *)
Definition stripped_field (item : Py.dict) (key : string) : option string :=
  match Py.get_or item key (Py.VStr "") with
  | Py.VStr s => Some (strip s)
  | _ => None
  end.

(** The value assigned to [brief_relevance_summary]. *)
Definition summary_of (working not_working : string) : string :=
  let parts := (if nonempty working then ["**What is working:** " +:+ working] else [])
               ++ (if nonempty not_working
                   then ["**What is not working:** " +:+ not_working] else []) in
  if is_nil parts then "" else join (nl +:+ nl) parts.

Fixpoint summary_items (items : list Py.dict) (batch : list Job) : option (list Job) :=
  match items with
  | [] => Some batch
  | item :: rest =>
      working ← stripped_field item "working";
      not_working ← stripped_field item "not_working";
      match Py.get item "idx" with
      | None | Some Py.VNone => summary_items rest batch
      | Some idx =>
          match Py.int idx with
          | Py.IntVal k =>
              if (0 <=? k) && (k <? Z.of_nat (length batch))
              then summary_items rest
                     (alter (set_brief_relevance_summary
                               (Some (summary_of working not_working)))
                            (Z.to_nat k) batch)
              else summary_items rest batch
          | _ => None
          end
      end
  end.

Definition summary_batch `{Py.Runtime} (text : string) (batch : list Job)
  : option (list Job) :=
  if negb (nonempty (strip text)) then Some batch
  else summary_items (Parser._extract_json_array text) batch.

Definition relevance_summary_node `{Py.Runtime} (st : State) (answer : nat -> string)
  : option State :=
  let jobs := qualifying_jobs st in
  jobs' ← run_batches RELEVANCE_BATCH_SIZE (fun k => summary_batch (answer k))
             (length jobs) 0 jobs;
  Some (set_qualifying_jobs jobs' st).

(** *** The graph ([build_v3_workflow]) *)

(** One node visit.  The answers of the generation service and of the
    scraper are arbitrary, and a node that raises has no successor. *)
Inductive step `{Py.Runtime} : node * State -> node * State -> Prop :=
| step_decide_titles st text :
    step (decide_titles, st) (phase1_agent, decide_titles_node st text)
| step_phase1_agent st reply st' :
    phase1_agent_node st reply = Some st' ->
    step (phase1_agent, st) (phase1_route st', st')
| step_phase1_tools st scrape :
    step (phase1_tools, st) (score_batch, phase1_tool_node st scrape)
| step_score_batch st text st' :
    score_batch_node st text = Some st' ->
    step (score_batch, st) (phase1_agent, st')
| step_resume_modifier st answer st' :
    resume_modifier_agent_node st answer = Some st' ->
    step (resume_modifier_agent, st) (project_proposer, st')
| step_project_proposer st answer st' :
    project_proposer_node st answer = Some st' ->
    step (project_proposer, st) (future_scores, st')
| step_future_scores st text st' :
    future_scores_node st text = Some st' ->
    step (future_scores, st) (relevance_summary, st')
| step_relevance_summary st answer st' :
    relevance_summary_node st answer = Some st' ->
    step (relevance_summary, st) (END, st').

(** The configurations a run can be in. *)
Definition reachable `{Py.Runtime} (c : node * State) : Prop :=
  exists resume_text cover_letter_text jt,
    rtc step (decide_titles, initial_state resume_text cover_letter_text jt) c.

(** What the outside world answers during one node visit. *)
Inductive answer : Type :=
| Generated (text : string)
| Decided (reply : agent_reply)
| Scraped (scrape : string -> Z -> list Listing)
| GeneratedPerBatch (texts : nat -> string).

(** One node visit as a function of the answer; [None] when the node
    raises, when the answer is not of the kind the node asks for, or at
    [END]. *)
Definition advance `{Py.Runtime} (c : node * State) (a : answer)
  : option (node * State) :=
  match c.1, a with
  | decide_titles, Generated text => Some (phase1_agent, decide_titles_node c.2 text)
  | phase1_agent, Decided reply =>
      st' ← phase1_agent_node c.2 reply; Some (phase1_route st', st')
  | phase1_tools, Scraped scrape => Some (score_batch, phase1_tool_node c.2 scrape)
  | score_batch, Generated text =>
      st' ← score_batch_node c.2 text; Some (phase1_agent, st')
  | resume_modifier_agent, GeneratedPerBatch texts =>
      st' ← resume_modifier_agent_node c.2 texts; Some (project_proposer, st')
  | project_proposer, GeneratedPerBatch texts =>
      st' ← project_proposer_node c.2 texts; Some (future_scores, st')
  | future_scores, Generated text =>
      st' ← future_scores_node c.2 text; Some (relevance_summary, st')
  | relevance_summary, GeneratedPerBatch texts =>
      st' ← relevance_summary_node c.2 texts; Some (END, st')
  | _, _ => None
  end.

(** A run of the graph along a list of answers. *)
Fixpoint run `{Py.Runtime} (answers : list answer) (c : node * State)
  : option (node * State) :=
  match answers with
  | [] => Some c
  | a :: answers' => c' ← advance c a; run answers' c'
  end.

End V3.

(** ** Definitions used to state the properties *)

Module Spec.
Import PyStr.

(** Every character of [s] satisfies [P]. *)
Fixpoint all_chars (P : ascii -> bool) (s : string) : bool :=
  match s with
  | "" => true
  | String c s' => P c && all_chars P s'
  end.

(** Offset of the first occurrence of the character [c]. *)
Fixpoint index_char (c : ascii) (s : string) : option nat :=
  match s with
  | "" => None
  | String a s' => if Ascii.eqb c a then Some O else S <$> index_char c s'
  end.

(** Offset of the last occurrence of the character [c]. *)
Fixpoint rindex_char (c : ascii) (s : string) : option nat :=
  match s with
  | "" => None
  | String a s' =>
      match rindex_char c s' with
      | Some n => Some (S n)
      | None => if Ascii.eqb c a then Some O else None
      end
  end.

(** [Parser.match_bracket] as an offset: how many characters precede the
    closing bracket on which the loop breaks. *)
Fixpoint bracket_offset (s : string) (depth : Z) (in_string : option ascii)
  (escape : bool) : option nat :=
  match s with
  | "" => None
  | String c s' =>
      if escape then S <$> bracket_offset s' depth in_string false
      else if Ascii.eqb c "\" && bool_decide (is_Some in_string)
      then S <$> bracket_offset s' depth in_string true
      else match in_string with
           | Some q =>
               if Ascii.eqb c q
               then S <$> bracket_offset s' depth None false
               else S <$> bracket_offset s' depth in_string false
           | None =>
               if Parser.is_quote c
               then S <$> bracket_offset s' depth (Some c) false
               else if Ascii.eqb c "["
               then S <$> bracket_offset s' (depth + 1) None false
               else if Ascii.eqb c "]"
               then if depth - 1 =? 0 then Some O
                    else S <$> bracket_offset s' (depth - 1) None false
               else S <$> bracket_offset s' depth None false
           end
  end.

(** The canonical order of the discovery loop: the titles in list order,
    stripped, the empty ones skipped, and for each the pages in ascending
    order. *)
Definition canonical_pairs (titles : list string) (max_page : nat)
  : list (string * Z) :=
  t ← titles;
  if nonempty (strip t)
  then (fun pg => (strip t, Z.of_nat pg)) <$> seq 0 (S max_page)
  else [].

(** The first pair of the canonical order that was not tried. *)
Definition first_canonical_untried (tried : gset (string * Z))
  (titles : list string) (max_page : nat) : option (string * Z) :=
  head (filter (fun pr => pr ∉ tried) (canonical_pairs titles max_page)).

(** [suggested_titles or ["Software Engineer"]] *)
Definition search_titles (suggested : list string) : list string :=
  if V3.is_nil suggested then ["Software Engineer"] else suggested.

(** A title names an internship. *)
Definition mentions_intern (t : string) : bool := contains "intern" (lower t).

(** The [(title, page)] pairs of the attempt log, in order. *)
Definition logged_pairs (st : V3.State) : list (string * Z) :=
  (fun p => (V3.attempt_title p, V3.attempt_page p)) <$> V3.phase1_tried_pairs st.

(** A job that carries a score at or above the threshold. *)
Definition qualifies (j : V3.Job) : Prop :=
  exists sc, V3.score j = Some sc /\ V3.V3_SCORE_THRESHOLD <= sc.

(** The batch as [score_batch_node] scores it: item [k] carries
    [score_map.get(i + k, 70)]. *)
Definition scored (score_map : gmap Z Z) (i : Z) (batch : list V3.Job)
  : list V3.Job :=
  imap (fun k j => V3.set_score (Some (V3.score_at score_map (i + Z.of_nat k))) j)
       batch.

(** [j["score"] >= V3_SCORE_THRESHOLD] *)
Definition reaches_threshold (j : V3.Job) : bool :=
  match V3.score j with
  | Some sc => V3.V3_SCORE_THRESHOLD <=? sc
  | None => false
  end.

(** A response item that enters the score map at index [i]. *)
Definition scores_index (s : Py.dict) (i : Z) : Prop :=
  exists idx v, Py.get s "idx" = Some idx /\ idx <> Py.VNone
                /\ Py.int idx = Py.IntVal i
                /\ Py.int (Py.get_default s "score" (Py.VInt 0)) = Py.IntVal v.

(** The summary of the first qualifying job of the state a node returned,
    [None] when the node raised or no job qualifies. *)
Definition brief_relevance_summary_of_first (r : option V3.State)
  : option (option string) :=
  st ← r; j ← head (V3.qualifying_jobs st); Some (V3.brief_relevance_summary j).

(** An index, or [-1]. *)
Definition index_or_minus1 (base : Z) (o : option nat) : Z :=
  match o with
  | Some n => base + Z.of_nat n
  | None => -1
  end.


(** A character other than [c]. *)
Definition not_char (c : ascii) : ascii -> bool := fun a => negb (Ascii.eqb a c).

(** A character that is no square bracket. *)
Definition no_brackets (a : ascii) : bool :=
  negb (Ascii.eqb a "[") && negb (Ascii.eqb a "]").

(** [Parser.bracket_span] in terms of offsets: where the span that starts
    at offset [n] ends. *)
Definition span_end (t : string) (n : nat) : nat :=
  match bracket_offset (str_drop n t) 0 None false with
  | Some m => n + m + 1
  | None => match rindex_char "]" t with Some k => k + 1 | None => 0 end
  end.

Definition span_nat (t : string) : option string :=
  match index_char "[" t with
  | None => None
  | Some n =>
      if (span_end t n <=? n)%nat then None
      else Some (str_take (span_end t n - n) (str_drop n t))
  end.

(** A title as [decide_titles_node] leaves it: stripped and not empty. *)
Definition clean (t : string) : Prop := strip t = t /\ nonempty t = true.

(** The first character of a string, if any, is no whitespace. *)
Definition starts_clean (s : string) : bool :=
  match s with
  | "" => true
  | String c _ => negb (isspace c)
  end.

(** What the discovery loop maintains once a list [titles] of clean titles
    is suggested: the logged pairs are distinct, their titles are clean, and
    a pending call to the scraper names a suggested title and a pair that is
    not in the log. *)
Definition log_invariant (titles : list string) (c : V3.node * V3.State) : Prop :=
  c.1 <> V3.decide_titles
  /\ V3.suggested_titles c.2 = titles
  /\ NoDup (logged_pairs c.2)
  /\ Forall clean (V3.attempt_title <$> V3.phase1_tried_pairs c.2)
  /\ (forall tool,
        V3.phase1_last_tool_call c.2 = Some tool ->
        V3.name tool = "scrape_linkedin" ->
        V3.job_title tool ∈ titles
        /\ (V3.job_title tool, V3.page tool) ∉ logged_pairs c.2).

(** The enrichment nodes of the graph. *)
Definition enriches (n : V3.node) : Prop :=
  n = V3.resume_modifier_agent \/ n = V3.project_proposer
  \/ n = V3.future_scores \/ n = V3.relevance_summary.

(** [+:+] does not unfold under [simpl]: expose its two equations. *)
Ltac sapp :=
  repeat match goal with
    | |- context [String ?x ?a +:+ ?b] =>
        change (String x a +:+ b) with (String x (a +:+ b))
    | |- context [EmptyString +:+ ?b] => change (EmptyString +:+ b) with b
    | H : context [String ?x ?a +:+ ?b] |- _ =>
        change (String x a +:+ b) with (String x (a +:+ b)) in H
    | H : context [EmptyString +:+ ?b] |- _ => change (EmptyString +:+ b) with b in H
    end;
  simpl in *.

(** The case analysis of one turn of the bracket-matching loop. *)
Ltac scan_cases c depth q e :=
  let q0 := fresh "q0" in
  destruct e;
  [| destruct (Ascii.eqb c "\" && bool_decide (is_Some q));
     [| destruct q as [q0|];
        [ destruct (Ascii.eqb c q0)
        | destruct (Parser.is_quote c);
          [| destruct (Ascii.eqb c "[");
             [| destruct (Ascii.eqb c "]") eqn:?;
                [ destruct (depth - 1 =? 0) |]]]]]].

End Spec.

(** ** Concrete inputs *)

Module Examples.
Import V3.

(** A JSON string literal without escapes. *)
Definition quoted (s : string) : string :=
  String Parser.DQUOTE (s +:+ String Parser.DQUOTE "").

(** Three answers of the generation service. *)
Definition blank_title_text : string := "[" +:+ quoted " " +:+ "]".
Definition plain_title_text : string := "[" +:+ quoted "Software Engineer" +:+ "]".
Definition idx_only_text : string := "[{" +:+ quoted "idx" +:+ ": 0}]".

(** A runtime that parses these three texts as [json.loads] does and
    rejects every other text; the examples print no value. *)
Definition example_runtime : Py.Runtime :=
  {| Py.json_loads := fun s =>
       if String.eqb s blank_title_text then Some (Py.VList [Py.VStr " "])
       else if String.eqb s plain_title_text
       then Some (Py.VList [Py.VStr "Software Engineer"])
       else if String.eqb s idx_only_text
       then Some (Py.VList [Py.VDict [("idx", Py.VInt 0)]])
       else None;
     Py.json_dumps := fun _ => "";
     Py.repr_of := fun _ => "" |}.

Definition a_listing : Listing :=
  {| title := "Data Analyst"; company := "Acme"; location := "Austin, TX";
     description := "SQL and dashboards"; salary := "";
     url := "https://example.org/jobs/1"; source := "linkedin";
     posted_at := None; posted_display := None |}.

(** The scraper finds nothing. *)
Definition empty_scrape : string -> Z -> list Listing := fun _ _ => [].

(** The agent calls the tool without arguments. *)
Definition bare_call : agent_reply := FunctionCall (Some "scrape_linkedin") None.

(** The agent asks for a title made of one space. *)
Definition blank_call : agent_reply :=
  FunctionCall (Some "scrape_linkedin") (Some [("job_title", Py.VStr " ")]).


Definition start : State := initial_state "resume" "" "full_time".

(** The generation service is down and the scraper finds nothing: the
    title step and six rounds on the pages 0 to 5 of the fallback title. *)
Definition empty_round : list answer :=
  [Decided bare_call; Scraped empty_scrape; Generated ""].

Definition barren_run : list answer :=
  Generated "" :: mjoin (replicate 6 empty_round).

(** The model suggests a title made of one space and then asks twice for
    that title; the scraper finds nothing. *)
Definition blank_round : list answer :=
  [Decided blank_call; Scraped empty_scrape; Generated ""].

Definition blank_run : list answer :=
  Generated blank_title_text :: blank_round ++ blank_round.

Definition entry (t : string) (pg : Z) : Attempt :=
  {| attempt_title := t; attempt_page := pg; jobs_returned := 0;
     qualifying_added := None |}.

(** After the fallback title and six empty pages: every pair is tried, no
    job qualifies and no round was counted. *)
Definition exhausted : State :=
  set_last_tried_title "Software Engineer"
    (set_last_tried_page 5
       (set_phase1_tried_pairs
          (entry "Software Engineer" <$> [0; 1; 2; 3; 4; 5])
          (set_suggested_titles ["Software Engineer"] start))).

(** No title was suggested and the same pair was scraped twice. *)
Definition repeated : State :=
  set_last_tried_title "Software Engineer"
    (set_last_tried_page 0
       (set_phase1_tried_pairs
          [entry "Software Engineer" 0; entry "Software Engineer" 0] start)).

(** One title, nothing tried yet. *)
Definition fresh : State := set_suggested_titles ["Data Analyst"] start.

(** One job waits for its score. *)
Definition scoring : State :=
  set_current_batch [new_job a_listing]
    (set_phase1_tried_pairs [entry "Data Analyst" 0] fresh).

(** One job qualified. *)
Definition enriching : State :=
  set_qualifying_jobs [set_score (Some 90) (new_job a_listing)] fresh.

End Examples.


(** ** The texts put into the prompts *)

Module Prompt.
Import PyStr.

Definition V3_MAX_RESUME_CHARS : Z := 50000.

(** The two caps are integers in the repository, so the branch for [None]
    is never taken. *)
Definition _resume_for_prompt (resume : string) : string :=
  if negb (nonempty resume) then ""
  else if V3_MAX_RESUME_CHARS <? len resume
       then slice_to resume V3_MAX_RESUME_CHARS
       else resume.



End Prompt.

(** ** The mapping of the results ([api.py]) *)

Module Api.
Import PyStr V3.

(** A [ProjectSuggestion] of the frontend.  The entries the code copies
    from the parsed JSON are values of any type. *)
Record Project : Type := MkProject {
  p_id : string;
  p_title : Py.value;
  p_difficulty : string;
  p_estimatedTime : Py.value;
  p_scoreBoost : Z;
  p_brief : Py.value;
  p_explanation : Py.value;
  p_techStack : list Py.value;
  p_steps : list Py.value;
}.

(** The texts that stand for no project. *)
Definition NO_PROJECTS : list string :=
  ["[]"; "No project suggestions available."; "No project suggestions generated."].

Definition DIFFICULTIES : list string := ["Beginner"; "Intermediate"; "Advanced"].

(** [str(z)] for an integer. *)
Definition str_int (z : Z) : string :=
  if z <? 0 then "-" +:+ of_nat (Z.to_nat (- z)) else of_nat (Z.to_nat z).

(** A [techStack] or [steps] entry before it is cut: a string is split at
    [sep] into its stripped pieces that are not empty, a list is taken as it
    is; [None] stands for the exception that slicing any other value
    raises. *)
Definition as_list (sep : string) (v : Py.value) : option (list Py.value) :=
  match v with
  | Py.VStr s =>
      Some (Py.VStr <$> filter (fun t => nonempty t = true) (strip <$> split sep s))
  | Py.VList l => Some l
  | _ => None
  end.

(** [difficulty] when it is one of the three levels, else [Intermediate]. *)
Definition difficulty_of (proj : Py.dict) : string :=
  match Py.get_default proj "difficulty" (Py.VStr "Intermediate") with
  | Py.VStr s => if mem s DIFFICULTIES then s else "Intermediate"
  | _ => "Intermediate"
  end.

(** The loop over the parsed items, at index [i]; [None] when an
    exception leaves it. *)
Fixpoint project_items (job : Job) (idx boost : Z) (i : nat) (items : list Py.value)
  : option (list Project) :=
  match items with
  | [] => Some []
  | Py.VDict proj :: rest =>
      tech ← as_list ","
               (Py.get_or proj "techStack" (Py.get_or proj "tech_stack" (Py.VList [])));
      steps ← as_list nl (Py.get_or proj "steps" (Py.VList []));
      let p :=
        {| p_id := "p" +:+ str_int idx +:+ "_" +:+ of_nat i;
           p_title :=
             Py.get_or proj "title"
               (Py.get_or proj "name" (Py.VStr ("Project " +:+ of_nat (S i))));
           p_difficulty := difficulty_of proj;
           p_estimatedTime :=
             Py.get_or proj "estimatedTime"
               (Py.get_or proj "estimated_time" (Py.VStr "1-2 weeks"));
           p_scoreBoost := boost;
           p_brief :=
             Py.get_or proj "brief"
               (Py.get_or proj "description" (Py.get_or proj "goal" (Py.VStr "")));
           p_explanation :=
             Py.get_or proj "explanation"
               (Py.get_or proj "why"
                  (Py.VStr ("This project helps raise your match score for "
                            +:+ title (listing job) +:+ ".")));
           p_techStack := take 8 tech;
           p_steps := take 6 steps |} in
      ps ← project_items job idx boost (S i) rest;
      Some (p :: ps)
  | _ :: rest => project_items job idx boost (S i) rest
  end.

(** The single project returned when the text holds no usable array. *)
Definition fallback_project (projects_text : string) (job : Job) (idx score_boost : Z)
  : Project :=
  {| p_id := "p" +:+ str_int idx +:+ "_0";
     p_title := Py.VStr ("Portfolio Projects for " +:+ title (listing job));
     p_difficulty := "Intermediate";
     p_estimatedTime := Py.VStr "1-2 weeks each";
     p_scoreBoost := score_boost;
     p_brief := Py.VStr (slice_to projects_text 500);
     p_explanation :=
       Py.VStr ("Implementing these projects is estimated to raise your match score from "
                +:+ str_int (default 50 (score job)) +:+ " to "
                +:+ str_int (default 60 (future_score job)) +:+ ".");
     p_techStack := [];
     p_steps := [] |}.

(** The text between the first fence and the next one. *)
Definition unfenced (text : string) : string :=
  if startswith Parser.FENCE text then
    let text := default "" (split Parser.FENCE text !! 1%nat) in
    if startswith "json" text then slice_from text 4 else text
  else text.

Definition _parse_projects `{Py.Runtime} (projects_text : string) (job : Job) (idx : Z)
  : list Project :=
  if negb (nonempty projects_text) || mem projects_text NO_PROJECTS then []
  else
    let score_boost := Z.max 1 (default 5 (improvement_potential job)) in
    let per_project_boost :=
      if 3 <? score_boost then Z.max 1 (score_boost / 3) else score_boost in
    let text := unfenced (strip projects_text) in
    let start := find "[" text in
    let end_ := rfind "]" text + 1 in
    let result :=
      if negb (start =? -1) && (start <? end_) then
        match Py.json_loads (slice text start end_) with
        | Some (Py.VList items) =>
            default [] (project_items job idx per_project_boost 0 items)
        | _ => []
        end
      else [] in
    if is_nil result
    then [fallback_project projects_text job idx score_boost]
    else result.

(** What every project of the frontend satisfies. *)
Definition well_formed (job : Job) (p : Project) : Prop :=
  p_difficulty p ∈ DIFFICULTIES
  /\ 1 <= p_scoreBoost p <= Z.max 1 (default 5 (improvement_potential job))
  /\ (length (p_techStack p) <= 8)%nat
  /\ (length (p_steps p) <= 6)%nat.

End Api.

(** ** Definitions used to state the invariants of a run *)

Module Ledger.
Import PyStr V3.

(** The URLs of a list of jobs. *)
Definition urls (jobs : list Job) : list string :=
  (fun j => url (listing j)) <$> jobs.

(** The sum of [jobs_returned] over the attempt log. *)
Definition total_returned (log : list Attempt) : Z :=
  foldr (fun e acc => jobs_returned e + acc) 0 log.

(** The sum of [qualifying_added] over the attempt log; an entry without
    the key counts for nothing. *)
Definition total_added (log : list Attempt) : Z :=
  foldr (fun e acc => default 0 (qualifying_added e) + acc) 0 log.

Arguments total_returned : simpl never.
Arguments total_added : simpl never.

(** The title the tool node searches for: the stripped title of the call,
    or the first suggested title ([Software Engineer] when none is
    suggested) when that is empty or not among the suggested ones. *)
Definition searched_title (st : State) (tool : ToolCall) : string :=
  let t := strip (job_title tool) in
  if negb (nonempty t)
     || (negb (is_nil (suggested_titles st)) && negb (mem t (suggested_titles st)))
  then match suggested_titles st with t0 :: _ => t0 | [] => "Software Engineer" end
  else t.

(** The entry the tool node has just appended: it describes the batch that
    waits for its scores and carries no [qualifying_added] yet. *)
Definition pending_entry (st : State) : Prop :=
  exists log e,
    phase1_tried_pairs st = log ++ [e]
    /\ attempt_title e = last_tried_title st
    /\ attempt_page e = last_tried_page st
    /\ jobs_returned e = Z.of_nat (length (current_batch st))
    /\ qualifying_added e = None.

(** A call of the scraper waits to be executed. *)
Definition pending_call (st : State) : Prop :=
  exists tool, phase1_last_tool_call st = Some tool /\ name tool = "scrape_linkedin".

(** What the discovery loop keeps in step: the pending call, the pending
    entry, and the two sums. *)
Definition ledger (c : node * State) : Prop :=
  (c.1 = phase1_tools -> pending_call c.2)
  /\ (c.1 = score_batch -> pending_entry c.2)
  /\ Z.of_nat (length (seen_urls c.2)) = total_returned (phase1_tried_pairs c.2)
  /\ Z.of_nat (length (qualifying_jobs c.2)) = total_added (phase1_tried_pairs c.2).

(** What the discovery loop keeps of the URLs: no URL is seen twice, and
    the jobs that qualified or wait for their score have distinct URLs, not
    empty, all of them seen. *)
Definition catalogue (st : State) : Prop :=
  NoDup (seen_urls st)
  /\ NoDup (urls (qualifying_jobs st ++ current_batch st))
  /\ (forall u, u ∈ urls (qualifying_jobs st ++ current_batch st) ->
                u ∈ seen_urls st /\ nonempty u = true).

(** The round counter is within its bound, and below it where a search is
    under way. *)
Definition rounds_bounded (c : node * State) : Prop :=
  0 <= phase1_rounds c.2 <= V3_PHASE1_MAX_ROUNDS
  /\ (c.1 = phase1_tools \/ c.1 = score_batch ->
      phase1_rounds c.2 < V3_PHASE1_MAX_ROUNDS
      /\ Z.of_nat (length (qualifying_jobs c.2)) < V3_TARGET_QUALIFYING_JOBS).

(** A reply of the generation service that holds no call of the scraper:
    the request failed, the response holds no function call, or it holds a
    call of another name. *)
Definition no_scraper_call (reply : agent_reply) : Prop :=
  match reply with
  | CallFailed | NoFunctionCall => True
  | FunctionCall fc_name _ => fc_name <> Some "scrape_linkedin"
  end.

End Ledger.

Module Stage.
Import PyStr V3.

(** A job that carries a resume suggestion that is not empty. *)
Definition has_suggestions (j : Job) : Prop :=
  exists s, resume_suggestions j = Some s /\ nonempty s = true.

(** A job that carries project suggestions. *)
Definition has_projects (j : Job) : Prop := is_Some (project_suggestions j).

(** A job whose predicted score lies between 0 and 100 and whose
    improvement potential is the predicted score minus [j.get("score", 50)]. *)
Definition has_forecast (j : Job) : Prop :=
  exists fs, future_score j = Some fs /\ 0 <= fs <= 100
             /\ improvement_potential j = Some (fs - default 50 (score j)).

(** A job without the two keys of the prediction. *)
Definition unforecast (j : Job) : Prop :=
  future_score j = None /\ improvement_potential j = None.

(** What the qualifying jobs carry, by the node the run is at. *)
Definition stage (c : node * State) : Prop :=
  let jobs := qualifying_jobs c.2 in
  match c.1 with
  | project_proposer => Forall unforecast jobs /\ Forall has_suggestions jobs
  | future_scores =>
      Forall unforecast jobs /\ Forall has_suggestions jobs /\ Forall has_projects jobs
  | relevance_summary | END =>
      Forall has_suggestions jobs /\ Forall has_projects jobs /\ Forall has_forecast jobs
  | _ => Forall unforecast (jobs ++ current_batch c.2)
  end.

(** A response item on which the loop of [future_scores_node] raises when
    the list holds [n] jobs: its [idx] is no number, or it names a job and
    its [future_score] is no number. *)
Definition bad_future_item (n : nat) (item : Py.dict) : Prop :=
  exists idx,
    Py.get item "idx" = Some idx /\ idx <> Py.VNone
    /\ match Py.int idx with
       | Py.IntVal k =>
           0 <= k < Z.of_nat n
           /\ forall v, Py.int (Py.get_default item "future_score" (Py.VInt 0))
                        <> Py.IntVal v
       | _ => True
       end.

(** A job whose score lies between the threshold and 100. *)
Definition in_range (j : Job) : Prop :=
  exists sc, score j = Some sc /\ V3_SCORE_THRESHOLD <= sc <= 100.

(** A score map whose values lie between 0 and 100. *)
Definition clamped (m : gmap Z Z) : Prop :=
  forall k v, m !! k = Some v -> 0 <= v <= 100.

(** The generation service is silent for every batch. *)
Definition silent (answer : nat -> string) : Prop :=
  forall k, PyStr.nonempty (PyStr.strip (answer k)) = false.

End Stage.

(** ** A whole run *)

Module Demo.
Import V3 Examples.

(** Ten listings with ten URLs. *)
Definition listing_no (k : nat) : Listing :=
  {| title := "Data Analyst"; company := "Acme"; location := "Austin, TX";
     description := "SQL and dashboards"; salary := "";
     url := "https://example.org/jobs/" +:+ PyStr.of_nat k; source := "linkedin";
     posted_at := None; posted_display := None |}.

Definition ten_listings : string -> Z -> list Listing :=
  fun _ _ => listing_no <$> seq 0 10.

(** The scoring response that gives each of ten jobs the score 90. *)
Definition score_item (k : nat) : string :=
  "{" +:+ quoted "idx" +:+ ": " +:+ PyStr.of_nat k +:+ ", "
  +:+ quoted "score" +:+ ": 90}".

Definition ten_scores_text : string :=
  "[" +:+ PyStr.join ", " (score_item <$> seq 0 10) +:+ "]".

Definition ten_scores : Py.value :=
  Py.VList ((fun k => Py.VDict [("idx", Py.VInt (Z.of_nat k)); ("score", Py.VInt 90)])
              <$> seq 0 10).

(** A prediction that is no number. *)
Definition bad_future_text : string :=
  "[{" +:+ quoted "idx" +:+ ": 0, " +:+ quoted "future_score" +:+ ": "
  +:+ quoted "high" +:+ "}]".

Definition bad_future : Py.value :=
  Py.VList [Py.VDict [("idx", Py.VInt 0); ("future_score", Py.VStr "high")]].

(** [example_runtime], which also parses these two responses. *)
Definition demo_runtime : Py.Runtime :=
  {| Py.json_loads := fun s =>
       if String.eqb s ten_scores_text then Some ten_scores
       else if String.eqb s bad_future_text then Some bad_future
       else @Py.json_loads example_runtime s;
     Py.json_dumps := fun _ => "";
     Py.repr_of := fun _ => "" |}.

(** A whole run: one title, one search that finds ten jobs, all of which
    qualify, and a generation service that is silent from then on. *)
Definition full_run : list answer :=
  [ Generated plain_title_text; Decided bare_call; Scraped ten_listings;
    Generated ten_scores_text; Decided bare_call;
    GeneratedPerBatch (fun _ => ""); GeneratedPerBatch (fun _ => "");
    Generated ""; GeneratedPerBatch (fun _ => "") ].

(** The configuration of that run after [n] steps. *)
Definition after (n : nat) : node * State :=
  default (decide_titles, start)
    (@run demo_runtime (take n full_run) (decide_titles, start)).

Definition searching : node * State := Eval vm_compute in after 2.
Definition scoring : node * State := Eval vm_compute in after 3.
Definition modifying : node * State := Eval vm_compute in after 5.
Definition proposing : node * State := Eval vm_compute in after 6.
Definition forecasting : node * State := Eval vm_compute in after 7.
Definition finished : node * State := Eval vm_compute in after 9.

(** A service that is asked with the model the gateway must use at each
    attempt, and fails on any other. *)
Definition picky : Gateway.service :=
  fun model attempt =>
    if String.eqb model (Config.get_model_name (2 <=? attempt))
    then Gateway.flaky model attempt
    else Gateway.Raise "404 NOT_FOUND".

End Demo.


(** * Facts about the string primitives *)

Section StringFacts.
Import PyStr Spec.

Lemma app_cons_str (x : ascii) (a b : string) :
  String x a +:+ b = String x (a +:+ b).
Proof. reflexivity. Qed.

Lemma app_nil_l_str (b : string) : "" +:+ b = b.
Proof. reflexivity. Qed.


Lemma app_assoc_str (a b c : string) : (a +:+ b) +:+ c = a +:+ (b +:+ c).
Proof. induction a as [|x a IH]; sapp; [reflexivity | by rewrite IH]. Qed.

Lemma app_nil_r_str (a : string) : a +:+ "" = a.
Proof. induction a as [|x a IH]; sapp; [reflexivity | by rewrite IH]. Qed.

Lemma length_app_str (a b : string) :
  String.length (a +:+ b) = (String.length a + String.length b)%nat.
Proof. induction a as [|x a IH]; sapp; [reflexivity | by rewrite IH]. Qed.

Lemma str_drop_app (a b : string) : str_drop (String.length a) (a +:+ b) = b.
Proof. induction a as [|x a IH]; sapp; [by destruct b | exact IH]. Qed.

Lemma str_drop_app_plus (a b : string) (n : nat) :
  str_drop (String.length a + n) (a +:+ b) = str_drop n b.
Proof. induction a as [|x a IH]; sapp; [reflexivity | exact IH]. Qed.

Lemma str_drop_app_le (n : nat) (a b : string) :
  (n <= String.length a)%nat -> str_drop n (a +:+ b) = str_drop n a +:+ b.
Proof.
  revert a; induction n as [|n IH]; intros a Hn.
  - by destruct a; simpl; destruct b.
  - destruct a as [|x a]; simpl in *; [lia | apply IH; lia].
Qed.

Lemma str_take_app_le (n : nat) (a b : string) :
  (n <= String.length a)%nat -> str_take n (a +:+ b) = str_take n a.
Proof.
  revert a; induction n as [|n IH]; intros a Hn.
  - by destruct a; simpl; destruct b.
  - destruct a as [|x a]; simpl in *; [lia | by rewrite IH by lia].
Qed.

Lemma length_str_drop (n : nat) (s : string) :
  String.length (str_drop n s) = (String.length s - n)%nat.
Proof.
  revert s; induction n as [|n IH]; intros s.
  - destruct s; simpl; lia.
  - destruct s as [|x s]; simpl; [reflexivity | apply IH].
Qed.

Lemma all_chars_app (P : ascii -> bool) (a b : string) :
  all_chars P (a +:+ b) = all_chars P a && all_chars P b.
Proof. induction a as [|x a IH]; sapp; [reflexivity | by rewrite IH, andb_assoc]. Qed.

Lemma all_chars_weaken (P Q : ascii -> bool) (s : string) :
  (forall c, P c = true -> Q c = true) ->
  all_chars P s = true -> all_chars Q s = true.
Proof.
  intros HPQ; induction s as [|x s IH]; simpl; [done |].
  rewrite !andb_true_iff. intros [? ?]. auto.
Qed.

(** ** [strip] *)

Lemma lstrip_split (s : string) :
  exists ws, all_chars isspace ws = true /\ s = ws +:+ lstrip s.
Proof.
  induction s as [|x s (ws & Hws & Hs)]; simpl.
  - by exists "".
  - destruct (isspace x) eqn:Hx.
    + exists (String x ws). sapp. rewrite Hx, Hws. split; [done | by f_equal].
    + by exists "".
Qed.

Lemma rstrip_split (s : string) :
  exists ws, all_chars isspace ws = true /\ s = rstrip s +:+ ws.
Proof.
  induction s as [|x s (ws & Hws & Hs)]; simpl.
  - by exists "".
  - destruct (isspace x) eqn:Hx; simpl.
    + destruct (rstrip s) as [|y r] eqn:Hr; simpl.
      * exists (String x ws). sapp. subst s. by rewrite Hx, Hws.
      * exists ws. split; [done |]. sapp. by rewrite <- Hs.
    + exists ws. split; [done |]. sapp. by rewrite <- Hs.
Qed.

Lemma strip_split (s : string) :
  exists ws1 ws2, all_chars isspace ws1 = true /\ all_chars isspace ws2 = true
                  /\ s = ws1 +:+ (strip s +:+ ws2).
Proof.
  destruct (lstrip_split s) as (ws1 & H1 & E1).
  destruct (rstrip_split (lstrip s)) as (ws2 & H2 & E2).
  exists ws1, ws2. unfold strip. split; [done |]. split; [done |].
  by rewrite <- E2.
Qed.

Lemma rstrip_app_fixed (s r : string) :
  rstrip r = r -> nonempty r = true -> rstrip (s +:+ r) = s +:+ r.
Proof.
  intros Hr Hne. induction s as [|x s IH]; [done |].
  sapp. rewrite IH. destruct (s +:+ r) eqn:E.
  - destruct s; sapp; [subst r; discriminate | discriminate].
  - simpl. by rewrite andb_false_r.
Qed.

(** ** [find] and [rfind] of one character *)

Lemma startswith_char (c : ascii) (s : string) :
  startswith (String c "") s
  = match s with String a _ => Ascii.eqb c a | "" => false end.
Proof.
  destruct s as [|a s]; simpl; [reflexivity |].
  destruct (ascii_dec c a) as [->|Hne].
  - rewrite Ascii.eqb_refl. by destruct s.
  - symmetry. by apply Ascii.eqb_neq.
Qed.

Lemma find_at_char (c : ascii) (s : string) (i : Z) :
  find_at (String c "") s i = index_or_minus1 i (index_char c s).
Proof.
  revert i; induction s as [|a s IH]; intros i.
  - reflexivity.
  - cbn [find_at index_char]. rewrite startswith_char.
    destruct (Ascii.eqb c a); simpl; [lia |].
    rewrite IH. destruct (index_char c s); simpl; lia.
Qed.

Lemma rfind_at_char (c : ascii) (s : string) (i : Z) :
  0 <= i -> rfind_at (String c "") s i = index_or_minus1 i (rindex_char c s).
Proof.
  revert i; induction s as [|a s IH]; intros i Hi.
  - reflexivity.
  - cbn [rfind_at rindex_char]. rewrite startswith_char, IH by lia.
    destruct (rindex_char c s) as [n|]; simpl.
    + destruct (i + 1 + Z.of_nat n =? -1) eqn:E; lia.
    + destruct (Ascii.eqb c a); simpl; lia.
Qed.

Lemma index_char_none (c : ascii) (s : string) :
  all_chars (fun a => negb (Ascii.eqb c a)) s = true -> index_char c s = None.
Proof.
  induction s as [|a s IH]; simpl; [done |].
  rewrite andb_true_iff. intros [Ha Hs].
  destruct (Ascii.eqb c a); [done |]. by rewrite IH.
Qed.

Lemma rindex_char_none (c : ascii) (s : string) :
  all_chars (fun a => negb (Ascii.eqb c a)) s = true -> rindex_char c s = None.
Proof.
  induction s as [|a s IH]; simpl; [done |].
  rewrite andb_true_iff. intros [Ha Hs].
  rewrite IH by done. by destruct (Ascii.eqb c a).
Qed.

Lemma index_char_app (c : ascii) (a b : string) :
  index_char c (a +:+ b)
  = match index_char c a with
    | Some n => Some n
    | None => (fun n => (String.length a + n)%nat) <$> index_char c b
    end.
Proof.
  induction a as [|x a IH]; sapp.
  - by destruct (index_char c b).
  - destruct (Ascii.eqb c x); [done |]. rewrite IH.
    destruct (index_char c a); simpl; [done |]. by destruct (index_char c b).
Qed.

Lemma rindex_char_app (c : ascii) (a b : string) :
  rindex_char c (a +:+ b)
  = match rindex_char c b with
    | Some n => Some (String.length a + n)%nat
    | None => rindex_char c a
    end.
Proof.
  induction a as [|x a IH]; sapp.
  - by destruct (rindex_char c b).
  - rewrite IH. destruct (rindex_char c b); [done |]. done.
Qed.

Lemma index_char_lt (c : ascii) (s : string) (n : nat) :
  index_char c s = Some n -> (n < String.length s)%nat.
Proof.
  revert n; induction s as [|a s IH]; intros n; simpl; [done |].
  destruct (Ascii.eqb c a).
  - intros [= <-]. lia.
  - destruct (index_char c s) as [m|]; simpl; [|done].
    intros [= <-]. specialize (IH m eq_refl). lia.
Qed.

Lemma rindex_char_lt (c : ascii) (s : string) (n : nat) :
  rindex_char c s = Some n -> (n < String.length s)%nat.
Proof.
  revert n; induction s as [|a s IH]; intros n; simpl; [done |].
  destruct (rindex_char c s) as [m|].
  - intros [= <-]. specialize (IH m eq_refl). lia.
  - destruct (Ascii.eqb c a); [|done]. intros [= <-]. lia.
Qed.


(** ** The bracket scanner *)


Lemma match_bracket_offset (s : string) (i depth : Z) (q : option ascii) (e : bool) :
  Parser.match_bracket s i depth q e
  = match bracket_offset s depth q e with
    | Some n => i + Z.of_nat n + 1
    | None => -1
    end.
Proof.
  revert i depth q e; induction s as [|c s IH]; intros i depth q e; [reflexivity |].
  cbn [Parser.match_bracket bracket_offset].
  scan_cases c depth q e; try (simpl; lia); rewrite IH;
    destruct (bracket_offset s _ _ _); simpl; lia.
Qed.


Lemma bracket_offset_no_close (s : string) (depth : Z) (q : option ascii) (e : bool) :
  all_chars (not_char "]") s = true -> bracket_offset s depth q e = None.
Proof.
  revert depth q e; induction s as [|c s IH]; intros depth q e; [reflexivity |].
  cbn [all_chars bracket_offset]. unfold not_char at 1.
  rewrite andb_true_iff, negb_true_iff. intros [Hc Hs].
  scan_cases c depth q e; try congruence; by rewrite IH.
Qed.

Lemma bracket_offset_app (a b : string) (depth : Z) (q : option ascii) (e : bool) :
  all_chars (not_char "]") b = true ->
  bracket_offset (a +:+ b) depth q e = bracket_offset a depth q e.
Proof.
  intros Hb. revert depth q e; induction a as [|c a IH]; intros depth q e.
  - rewrite app_nil_l_str. by apply bracket_offset_no_close.
  - rewrite app_cons_str. cbn [bracket_offset].
    scan_cases c depth q e; try reflexivity; by rewrite IH.
Qed.

Lemma bracket_offset_lt (s : string) (depth : Z) (q : option ascii) (e : bool) (n : nat) :
  bracket_offset s depth q e = Some n -> (n < String.length s)%nat.
Proof.
  revert depth q e n; induction s as [|c s IH]; intros depth q e n; [done |].
  cbn [bracket_offset String.length].
  scan_cases c depth q e; intros Hn;
    first [ apply fmap_Some in Hn as (m & Hm & ->); apply IH in Hm; lia
          | simplify_eq; lia ].
Qed.


Lemma span_end_le (t : string) (n : nat) :
  (n < String.length t)%nat -> (span_end t n <= String.length t)%nat.
Proof.
  intros Hn. unfold span_end.
  destruct (bracket_offset _ _ _ _) as [m|] eqn:E.
  - apply bracket_offset_lt in E. rewrite length_str_drop in E. lia.
  - destruct (rindex_char "]" t) as [k|] eqn:Ek; [|lia].
    apply rindex_char_lt in Ek. lia.
Qed.

Lemma bracket_span_nat (t : string) : Parser.bracket_span t = span_nat t.
Proof.
  unfold Parser.bracket_span, span_nat, find, rfind.
  rewrite find_at_char, rfind_at_char by lia.
  destruct (index_char "[" t) as [n|] eqn:En; simpl; [|reflexivity].
  pose proof (index_char_lt _ _ _ En) as Hn.
  pose proof (span_end_le t n Hn) as Hle.
  assert (Hfrom : slice_from t (Z.of_nat n) = str_drop n t).
  { unfold slice_from, clamp_index, len.
    destruct (Z.of_nat n <? 0) eqn:E; [lia |]. f_equal. lia. }
  rewrite !Z.add_0_l.
  destruct (Z.of_nat n =? -1) eqn:E1; [lia |].
  rewrite Hfrom, match_bracket_offset.
  unfold span_end in *.
  set (e := match bracket_offset (str_drop n t) 0 None false with
            | Some m => (n + m + 1)%nat
            | None => match rindex_char "]" t with Some k => (k + 1)%nat | None => 0%nat end
            end) in *.
  assert (He : (if (match bracket_offset (str_drop n t) 0 None false with
                    | Some m => Z.of_nat n + Z.of_nat m + 1
                    | None => -1
                    end <=? Z.of_nat n)
                then index_or_minus1 0 (rindex_char "]" t) + 1
                else match bracket_offset (str_drop n t) 0 None false with
                     | Some m => Z.of_nat n + Z.of_nat m + 1
                     | None => -1
                     end) = Z.of_nat e).
  { subst e. destruct (bracket_offset _ _ _ _) as [m|].
    - destruct (_ <=? _) eqn:E; lia.
    - destruct (_ <=? _) eqn:E; [|lia].
      destruct (rindex_char "]" t); simpl; lia. }
  rewrite He.
  destruct (e <=? n)%nat eqn:E2.
  - apply Nat.leb_le in E2. destruct (Z.of_nat e <=? Z.of_nat n) eqn:E3; [done | lia].
  - apply Nat.leb_gt in E2. destruct (Z.of_nat e <=? Z.of_nat n) eqn:E3; [lia |].
    f_equal. unfold slice, clamp_index, len.
    destruct (Z.of_nat n <? 0) eqn:E4; [lia |].
    destruct (Z.of_nat e <? 0) eqn:E5; [lia |].
    f_equal; [lia | f_equal; lia].
Qed.


Lemma no_brackets_open (s : string) :
  all_chars no_brackets s = true ->
  all_chars (fun a => negb (Ascii.eqb "[" a)) s = true.
Proof.
  apply all_chars_weaken. intros c. unfold no_brackets.
  rewrite andb_true_iff, (Ascii.eqb_sym "[" c). tauto.
Qed.

Lemma no_brackets_close (s : string) :
  all_chars no_brackets s = true ->
  all_chars (fun a => negb (Ascii.eqb "]" a)) s = true.
Proof.
  apply all_chars_weaken. intros c. unfold no_brackets.
  rewrite andb_true_iff, (Ascii.eqb_sym "]" c). tauto.
Qed.

Lemma no_brackets_not_close (s : string) :
  all_chars no_brackets s = true -> all_chars (not_char "]") s = true.
Proof.
  apply all_chars_weaken. intros c. unfold no_brackets, not_char.
  rewrite andb_true_iff. tauto.
Qed.

(** Text without brackets around [t] does not change the span. *)
Lemma span_nat_padded (pre t post : string) :
  all_chars no_brackets pre = true ->
  all_chars no_brackets post = true ->
  span_nat (pre +:+ (t +:+ post)) = span_nat t.
Proof.
  intros Hpre Hpost. unfold span_nat.
  rewrite !index_char_app.
  rewrite (index_char_none _ pre (no_brackets_open _ Hpre)).
  rewrite (index_char_none _ post (no_brackets_open _ Hpost)).
  destruct (index_char "[" t) as [n|] eqn:En; simpl; [|reflexivity].
  pose proof (index_char_lt _ _ _ En) as Hn.
  pose proof (span_end_le t n Hn) as Hle.
  assert (Hdrop : str_drop (String.length pre + n) (pre +:+ (t +:+ post))
                  = str_drop n t +:+ post).
  { rewrite str_drop_app_plus. apply str_drop_app_le. lia. }
  assert (Hend : span_end (pre +:+ (t +:+ post)) (String.length pre + n)
                 = if (span_end t n =? 0)%nat then 0%nat
                   else (String.length pre + span_end t n)%nat).
  { unfold span_end. rewrite Hdrop.
    rewrite (bracket_offset_app _ post) by by apply no_brackets_not_close.
    destruct (bracket_offset (str_drop n t) 0 None false) as [m|].
    - destruct (n + m + 1 =? 0)%nat eqn:E; [apply Nat.eqb_eq in E |]; lia.
    - rewrite !rindex_char_app.
      rewrite (rindex_char_none _ post (no_brackets_close _ Hpost)).
      rewrite (rindex_char_none _ pre (no_brackets_close _ Hpre)).
      destruct (rindex_char "]" t) as [k|]; simpl; [|reflexivity].
      destruct (k + 1 =? 0)%nat eqn:E; [apply Nat.eqb_eq in E |]; lia. }
  rewrite Hend, Hdrop.
  destruct (span_end t n =? 0)%nat eqn:E0.
  - apply Nat.eqb_eq in E0. rewrite E0. simpl.
    destruct (String.length pre + n)%nat; reflexivity.
  - apply Nat.eqb_neq in E0.
    destruct (span_end t n <=? n)%nat eqn:E1.
    + apply Nat.leb_le in E1.
      destruct (_ <=? _)%nat eqn:E2; [done | apply Nat.leb_gt in E2; lia].
    + apply Nat.leb_gt in E1.
      destruct (_ <=? _)%nat eqn:E2; [apply Nat.leb_le in E2; lia |].
      f_equal.
      replace (String.length pre + span_end t n - (String.length pre + n))%nat
        with (span_end t n - n)%nat by lia.
      apply str_take_app_le. rewrite length_str_drop. lia.
Qed.

End StringFacts.

(** * The JSON array extractor and code fences *)

Section FenceFacts.
Import PyStr Spec Parser.
Context `{Py.Runtime}.

Lemma isspace_no_brackets (c : ascii) : isspace c = true -> no_brackets c = true.
Proof. destruct c as [[] [] [] [] [] [] [] []]; vm_compute; congruence. Qed.

Lemma slice_from_app (a b : string) : slice_from (a +:+ b) (len a) = b.
Proof.
  unfold slice_from, clamp_index, len. rewrite length_app_str.
  destruct (Z.of_nat (String.length a) <? 0) eqn:E; [apply Z.ltb_lt in E; lia |].
  replace (Z.to_nat _) with (String.length a) by lia.
  apply str_drop_app.
Qed.

Lemma strip_fenced (t : string) : strip (fenced t) = fenced t.
Proof.
  unfold strip.
  assert (Hl : lstrip (fenced t) = fenced t) by reflexivity.
  rewrite Hl. unfold fenced.
  rewrite <- !app_assoc_str. apply rstrip_app_fixed; reflexivity.
Qed.

Lemma strip_fence_fenced (t : string) :
  strip_fence (fenced t) = nl +:+ (t +:+ (nl +:+ FENCE)).
Proof.
  unfold strip_fence. rewrite strip_fenced.
  assert (H1 : startswith FENCE (fenced t) = true) by reflexivity.
  assert (H2 : after_first FENCE (fenced t)
               = Some ("json" +:+ (nl +:+ (t +:+ (nl +:+ FENCE))))) by reflexivity.
  rewrite H1, H2.
  assert (H3 : startswith "json" ("json" +:+ (nl +:+ (t +:+ (nl +:+ FENCE)))) = true)
    by reflexivity.
  rewrite H3. apply (slice_from_app "json").
Qed.

Lemma strip_fence_plain (t : string) :
  startswith FENCE (strip t) = false -> strip_fence t = strip t.
Proof. intros Hf. unfold strip_fence. by rewrite Hf. Qed.

(** The span handed to [json.loads] is the same with and without the
    fence, for every text that does not itself open with a fence. *)
Lemma bracket_span_fenced (t : string) :
  startswith FENCE (strip t) = false ->
  bracket_span (strip_fence (fenced t)) = bracket_span (strip_fence t).
Proof.
  intros Hf. rewrite strip_fence_fenced, (strip_fence_plain t Hf).
  destruct (strip_split t) as (ws1 & ws2 & H1 & H2 & Ht).
  rewrite Ht at 1.
  replace (nl +:+ ((ws1 +:+ (strip t +:+ ws2)) +:+ (nl +:+ FENCE)))
    with ((nl +:+ ws1) +:+ (strip t +:+ (ws2 +:+ (nl +:+ FENCE))))
    by (by rewrite !app_assoc_str).
  rewrite !bracket_span_nat. apply span_nat_padded.
  - rewrite all_chars_app. apply andb_true_iff. split; [reflexivity |].
    revert H1. apply all_chars_weaken, isspace_no_brackets.
  - rewrite all_chars_app. apply andb_true_iff. split; [|reflexivity].
    revert H2. apply all_chars_weaken, isspace_no_brackets.
Qed.

Lemma startswith_bracket_not_fence (s : string) :
  startswith "[" s = true -> startswith FENCE s = false.
Proof.
  rewrite startswith_char. destruct s as [|a s]; [done |].
  intros Ha. apply Ascii.eqb_eq in Ha. subst a. reflexivity.
Qed.

(** C7: a text that is a raw JSON array (its first character after
    whitespace is the opening bracket) and the same text inside a json code
    fence give the same result. *)
Theorem extract_json_array_fence_invariant (t : string) :
  startswith "[" (strip t) = true ->
  _extract_json_array (fenced t) = _extract_json_array t.
Proof.
  intros Ht. unfold _extract_json_array.
  by rewrite bracket_span_fenced by by apply startswith_bracket_not_fence.
Qed.

End FenceFacts.

Lemma extract_json_array_fence_invariant_witness :
  @Parser._extract_json_array Examples.example_runtime
    (Parser.fenced Examples.plain_title_text)
  = @Parser._extract_json_array Examples.example_runtime Examples.plain_title_text.
Proof.
  apply (@extract_json_array_fence_invariant Examples.example_runtime).
  reflexivity.
Defined.


(** * The gateway *)

Section GatewayFacts.
Import Gateway.
Variable svc : service.
Variable max_attempts : Z.

Lemma attempts_all_raise (todo : nat) (attempt : Z) :
  (forall j, attempt <= j < attempt + Z.of_nat todo -> raises svc j) ->
  (attempts svc max_attempts todo attempt).1 = "".
Proof.
  revert attempt; induction todo as [|todo IH]; intros attempt Hall; [reflexivity |].
  cbn [attempts]. destruct (Hall attempt) as [e He]; [lia |]. rewrite He. simpl.
  apply IH. intros j Hj. apply Hall. lia.
Qed.

Lemma attempts_first_answer (todo : nat) (attempt k : Z) (t : option string) :
  attempt <= k < attempt + Z.of_nat todo ->
  (forall j, attempt <= j < k -> raises svc j) ->
  svc (Config.get_model_name (2 <=? k)) k = Text t ->
  (attempts svc max_attempts todo attempt).1 = text_or_empty t.
Proof.
  revert attempt; induction todo as [|todo IH]; intros attempt Hk Hbefore Hans; [lia |].
  cbn [attempts]. destruct (Z.eq_dec attempt k) as [->|Hne].
  - by rewrite Hans.
  - destruct (Hbefore attempt) as [e He]; [lia |]. rewrite He. simpl.
    apply IH; [lia | | done]. intros j Hj. apply Hbefore. lia.
Qed.

(** C5, as the code has it: the gateway always returns a string.  When
    the first [k] calls raise, whatever the error, it goes on: it returns
    the empty string if the budget ends there, and the text of call [k] if
    that call answers. *)
Theorem rate_limited_gemini_soft_failure (k : Z) :
  0 <= k ->
  (forall j, 0 <= j < k -> raises svc j) ->
  (max_attempts <= k -> (_rate_limited_gemini svc max_attempts).1 = "")
  /\ (k < max_attempts ->
      forall t, svc (Config.get_model_name (2 <=? k)) k = Text t ->
                (_rate_limited_gemini svc max_attempts).1 = text_or_empty t).
Proof.
  intros Hk Hbefore. unfold _rate_limited_gemini. split.
  - intros Hmax. apply attempts_all_raise. intros j Hj. apply Hbefore. lia.
  - intros Hlt t Ht. apply attempts_first_answer with (k := k); [lia | | done].
    intros j Hj. apply Hbefore. lia.
Qed.

End GatewayFacts.

(** The first call fails with an error that is not a rate-limit error, and the
  gateway still returns the text of the second call. *)
Lemma gateway_retries_after_fatal_error :
  Gateway.flaky (Config.get_model_name false) 0 = Gateway.Raise "500 INTERNAL"
  /\ PyStr.contains "429" "500 INTERNAL" = false
  /\ (Gateway._rate_limited_gemini Gateway.flaky 3).1 = "[]"
  /\ (Gateway._rate_limited_gemini Gateway.flaky 3).1 <> "".
Proof. repeat split; try reflexivity. vm_compute. discriminate. Qed.

Lemma rate_limited_gemini_soft_failure_witness :
  (Gateway._rate_limited_gemini Gateway.flaky 3).1 = "[]"
  /\ (Gateway._rate_limited_gemini Gateway.down 3).1 = "".
Proof.
  split.
  - refine (proj2 (rate_limited_gemini_soft_failure Gateway.flaky 3 1 _ _) _ (Some "[]") _).
    + lia.
    + intros j Hj. assert (j = 0) as -> by lia. eexists. reflexivity.
    + lia.
    + reflexivity.
  - refine (proj1 (rate_limited_gemini_soft_failure Gateway.down 3 3 _ _) _).
    + lia.
    + intros j Hj. eexists. reflexivity.
    + lia.
Defined.

(** * The batch splitter *)

Section SplitFacts.
Import PyStr Parser.

Lemma set_item_Some {A} (l : list A) (i : Z) (v : A) :
  0 <= i < Z.of_nat (length l) ->
  exists l', Py.set_item l i v = Some l' /\ length l' = length l.
Proof.
  intros Hi. unfold Py.set_item.
  destruct (i <? 0) eqn:E; [lia |].
  destruct ((0 <=? i) && (i <? Z.of_nat (length l))) eqn:E2.
  - eexists. split; [reflexivity |]. apply length_insert.
  - apply andb_false_iff in E2 as [E2|E2]; lia.
Qed.

Lemma try_markers_from_length (text tu : string) (markers : list string)
  (i : Z) (parts : list string) :
  0 <= i -> i + Z.of_nat (length markers) <= Z.of_nat (length parts) ->
  exists parts', try_markers_from text tu markers i parts = Some parts'
                 /\ length parts' = length parts.
Proof.
  revert i parts; induction markers as [|marker rest IH]; intros i parts Hi Hlen.
  - by exists parts.
  - cbn [try_markers_from]. cbn [length] in Hlen.
    destruct (find (upper marker) tu =? -1); [apply IH; lia |].
    destruct (20 <? len _); [|apply IH; lia].
    destruct (set_item_Some parts i (strip (slice text (find (upper marker) tu + len marker)
      match rest with
      | [] => len text
      | next :: _ => if find (upper next) tu =? -1 then len text else find (upper next) tu
      end))) as (parts' & -> & Hl); [lia |].
    simpl. destruct (IH (i + 1) parts') as (parts'' & -> & Hl'); [lia | lia |].
    exists parts''. split; [done | congruence].
Qed.

Lemma lenient_length (text tu : string) (count : nat) (indices : list nat)
  (parts : list string) :
  Forall (fun i => (i < length parts)%nat) indices ->
  exists parts', lenient text tu count indices parts = Some parts'
                 /\ length parts' = length parts.
Proof.
  revert parts; induction indices as [|i rest IH]; intros parts Hall.
  - by exists parts.
  - apply Forall_cons in Hall as [Hi Hrest]. cbn [lenient].
    destruct (first_pattern tu (lenient_patterns (S i))) as [[pat start]|]; [|by apply IH].
    destruct (20 <? len _); [|by apply IH].
    match goal with
    | |- context [Py.set_item parts (Z.of_nat i) ?c] =>
        destruct (set_item_Some parts (Z.of_nat i) c) as (parts' & -> & Hl); [lia |]
    end.
    simpl. destruct (IH parts') as (parts'' & -> & Hl').
    { rewrite Hl. exact Hrest. }
    exists parts''. split; [done | congruence].
Qed.

Lemma assign_chunks_length (chunks : list string) (indices : list nat)
  (parts : list string) :
  Forall (fun i => (i < length parts)%nat /\ (i < length chunks)%nat) indices ->
  exists parts', assign_chunks chunks indices parts = Some parts'
                 /\ length parts' = length parts.
Proof.
  revert parts; induction indices as [|i rest IH]; intros parts Hall.
  - by exists parts.
  - apply Forall_cons in Hall as [[Hi Hc] Hrest]. cbn [assign_chunks].
    destruct (lookup_lt_is_Some_2 chunks i Hc) as [chunk ->]. simpl.
    destruct (20 <? len chunk); [|by apply IH].
    destruct (set_item_Some parts (Z.of_nat i) chunk) as (parts' & -> & Hl); [lia |].
    simpl. destruct (IH parts') as (parts'' & -> & Hl').
    { rewrite Hl. exact Hrest. }
    exists parts''. split; [done | congruence].
Qed.

Lemma fallback_length (text : string) (count : Z) (parts : list string) :
  1 <= count -> Z.of_nat (length parts) = count ->
  exists parts', fallback text count parts = Some parts'
                 /\ length parts' = length parts.
Proof.
  intros Hc Hlen. unfold fallback.
  destruct (negb (nonempty (strip text))); [by exists parts |].
  destruct (count =? 1); [apply set_item_Some; lia |].
  destruct (paragraphs (strip text)) as [|c0 chunks'] eqn:Ech; [apply set_item_Some; lia |].
  rewrite <- Ech. set (chunks := paragraphs (strip text)) in *.
  destruct (assign_chunks_length chunks
              (seq 0 (Z.to_nat (Z.min count (Z.of_nat (length chunks))))) parts)
    as (parts' & -> & Hl).
  { apply Forall_forall. intros i Hi. apply elem_of_seq in Hi. lia. }
  simpl. destruct (count <? Z.of_nat (length chunks)); [|by exists parts'].
  match goal with
  | |- context [Py.set_item parts' (count - 1) ?c] =>
      destruct (set_item_Some parts' (count - 1) c) as (parts'' & -> & Hl'); [lia |]
  end.
  exists parts''. split; [done | congruence].
Qed.

Lemma length_numbered (prefix : string) (count : Z) :
  length (numbered prefix count) = Z.to_nat count.
Proof. unfold numbered. by rewrite length_fmap, length_seq. Qed.

(** C6: for every text and every count of at least one, the splitter
    returns (no assignment is out of range) a list of exactly that many
    strings. *)
Theorem split_batch_suggestions_length (text : string) (count : Z) :
  1 <= count ->
  exists parts, _split_batch_suggestions text count = Some parts
                /\ Z.of_nat (length parts) = count.
Proof.
  intros Hc. unfold _split_batch_suggestions, try_markers.
  set (blank := replicate (Z.to_nat count) "").
  assert (Hb : length blank = Z.to_nat count) by apply length_replicate.
  destruct (try_markers_from_length text (upper text) (numbered "## JOB " count) 0 blank)
    as (p1 & -> & H1); [lia | rewrite length_numbered; lia |].
  simpl. destruct (any_part p1); [exists p1; split; [done | lia] |].
  destruct (try_markers_from_length text (upper text) (numbered "### JOB " count) 0 blank)
    as (p2 & -> & H2); [lia | rewrite length_numbered; lia |].
  simpl. destruct (any_part p2); [exists p2; split; [done | lia] |].
  destruct (lenient_length text (upper text) (Z.to_nat count)
              (seq 0 (Z.to_nat count)) blank) as (p3 & -> & H3).
  { apply Forall_forall. intros i Hi. apply elem_of_seq in Hi. lia. }
  simpl. destruct (any_part p3); [exists p3; split; [done | lia] |].
  destruct (fallback_length text count p3) as (p4 & -> & H4); [lia | lia |].
  exists p4. split; [done | lia].
Qed.

End SplitFacts.

Lemma split_batch_suggestions_length_witness :
  exists parts, Parser._split_batch_suggestions "" 3 = Some parts
                /\ Z.of_nat (length parts) = 3.
Proof. apply split_batch_suggestions_length. lia. Defined.

(** Without the bound on the count the assignment can be out of range. *)
Example split_batch_suggestions_zero :
  Parser._split_batch_suggestions "x" 0 = None.
Proof. reflexivity. Qed.


(** * The nodes of the discovery loop *)

Section ToolNodeFacts.
Import V3.

Lemma tool_node_quiet (st : State) (scrape : string -> Z -> list Listing) :
  (phase1_last_tool_call st = None
   \/ exists tool, phase1_last_tool_call st = Some tool
                   /\ name tool <> "scrape_linkedin") ->
  phase1_tool_node st scrape = set_current_batch [] (set_phase1_last_tool_call None st).
Proof.
  intros Hcall. unfold phase1_tool_node.
  destruct Hcall as [Hnone | (tool & Hsome & Hname)].
  - rewrite Hnone. by destruct st.
  - rewrite Hsome. apply String.eqb_neq in Hname. rewrite Hname. by destruct st.
Qed.

(** C10: without a call to [scrape_linkedin] the tool node does not
    search: whatever the scraper would answer, the state it returns is the
    old state with an empty batch and no pending call; the attempt log and
    the seen URLs are the old ones. *)
Theorem phase1_tool_node_without_call (st : State)
  (scrape : string -> Z -> list Listing) :
  (phase1_last_tool_call st = None
   \/ exists tool, phase1_last_tool_call st = Some tool
                   /\ name tool <> "scrape_linkedin") ->
  phase1_tool_node st scrape = set_current_batch [] (set_phase1_last_tool_call None st)
  /\ current_batch (phase1_tool_node st scrape) = []
  /\ phase1_last_tool_call (phase1_tool_node st scrape) = None
  /\ phase1_tried_pairs (phase1_tool_node st scrape) = phase1_tried_pairs st
  /\ seen_urls (phase1_tool_node st scrape) = seen_urls st.
Proof.
  intros Hcall. rewrite (tool_node_quiet st scrape Hcall). by destruct st.
Qed.

End ToolNodeFacts.

Lemma phase1_tool_node_without_call_witness :
  V3.phase1_tool_node Examples.start Examples.empty_scrape
  = V3.set_current_batch [] (V3.set_phase1_last_tool_call None Examples.start).
Proof.
  apply (phase1_tool_node_without_call Examples.start Examples.empty_scrape).
  left. reflexivity.
Defined.

(** * The relevance summary *)

Section SummaryFacts.
Import V3.

(** C9, as the code has it: an item with a valid index and neither a
    [working] nor a [not_working] field assigns the empty string to the
    summary of its job. *)
Theorem summary_of_item_without_fields (item : Py.dict) (idx : Py.value) (k : Z)
  (batch : list Job) :
  Py.get item "working" = None ->
  Py.get item "not_working" = None ->
  Py.get item "idx" = Some idx ->
  idx <> Py.VNone ->
  Py.int idx = Py.IntVal k ->
  0 <= k < Z.of_nat (length batch) ->
  summary_items [item] batch
  = Some (alter (set_brief_relevance_summary (Some "")) (Z.to_nat k) batch).
Proof.
  intros Hw Hn Hidx Hnone Hint Hk. cbn [summary_items].
  unfold stripped_field, Py.get_or. rewrite Hw, Hn. simpl. rewrite Hidx.
  destruct idx; try done; rewrite Hint;
    (destruct ((0 <=? k) && (k <? Z.of_nat (length batch))) eqn:E;
     [reflexivity | apply andb_false_iff in E as [E|E]; lia]).
Qed.

End SummaryFacts.

(** A job without a summary, answered by an item that has an index and no
  other field, ends with the empty string as its summary. *)
Lemma relevance_summary_sets_empty_string :
  Spec.brief_relevance_summary_of_first (Some Examples.enriching) = Some None
  /\ Spec.brief_relevance_summary_of_first
       (@V3.relevance_summary_node Examples.example_runtime Examples.enriching
          (fun _ => Examples.idx_only_text)) = Some (Some "").
Proof. split; vm_compute; reflexivity. Qed.

Lemma summary_of_item_without_fields_witness :
  V3.summary_items [[("idx", Py.VInt 0)]] [V3.new_job Examples.a_listing]
  = Some [V3.set_brief_relevance_summary (Some "") (V3.new_job Examples.a_listing)].
Proof.
  apply (summary_of_item_without_fields [("idx", Py.VInt 0)] (Py.VInt 0) 0
           [V3.new_job Examples.a_listing]);
    [reflexivity | reflexivity | reflexivity | discriminate | reflexivity | simpl; lia].
Defined.

(** * Stripped strings *)

Section CleanFacts.
Import PyStr Spec.

Lemma starts_clean_lstrip (s : string) : starts_clean (lstrip s) = true.
Proof.
  induction s as [|c s IH]; [reflexivity |]. simpl.
  destruct (isspace c) eqn:E; [exact IH | simpl; by rewrite E].
Qed.

Lemma lstrip_starts_clean (s : string) : starts_clean s = true -> lstrip s = s.
Proof.
  destruct s as [|c s]; [reflexivity |]. simpl.
  intros Hc. apply negb_true_iff in Hc. by rewrite Hc.
Qed.

Lemma starts_clean_rstrip (s : string) :
  starts_clean s = true -> starts_clean (rstrip s) = true.
Proof.
  destruct s as [|c s]; [reflexivity |]. simpl.
  intros Hc. apply negb_true_iff in Hc. rewrite Hc. simpl. by rewrite Hc.
Qed.

Lemma rstrip_idemp (s : string) : rstrip (rstrip s) = rstrip s.
Proof.
  induction s as [|c s IH]; [reflexivity |]. simpl.
  destruct (isspace c && negb (nonempty (rstrip s))) eqn:E; [reflexivity |].
  simpl. by rewrite IH, E.
Qed.

Lemma strip_idemp (s : string) : strip (strip s) = strip s.
Proof.
  unfold strip.
  rewrite (lstrip_starts_clean (rstrip (lstrip s))).
  - apply rstrip_idemp.
  - apply starts_clean_rstrip, starts_clean_lstrip.
Qed.

Lemma clean_strip (s : string) : nonempty (strip s) = true -> clean (strip s).
Proof. intros Hne. split; [apply strip_idemp | done]. Qed.

End CleanFacts.

Section CleanTitles.
Import PyStr V3 Spec.

Lemma stripped_strs_stripped `{Py.Runtime} (parsed : list Py.value) :
  Forall (fun t => strip t = t) (Parser.stripped_strs parsed).
Proof.
  unfold Parser.stripped_strs. apply Forall_fmap, Forall_forall.
  intros x _. apply strip_idemp.
Qed.

Lemma titles_of_dicts_stripped `{Py.Runtime} (arr : list Py.dict) :
  Forall (fun t => strip t = t) (titles_of_dicts arr).
Proof.
  induction arr as [|x arr IH]; [constructor |]. cbn [titles_of_dicts].
  repeat case_match; try done; constructor; auto using strip_idemp.
Qed.

Lemma take_stripped (n : nat) (l : list string) :
  Forall (fun t => strip t = t) l -> Forall (fun t => strip t = t) (take n l).
Proof. apply Forall_take. Qed.

(** The titles [decide_titles_node] returns are stripped and not empty. *)
Lemma titles_for_clean `{Py.Runtime} (jt text : string) :
  Forall clean (titles_for jt text).
Proof.
  unfold titles_for. apply Forall_take.
  match goal with
  | |- Forall clean (filter _ ?l) => assert (Hl : Forall (fun t => strip t = t) l)
  end.
  { assert (Hdef : Forall (fun t => strip t = t) (default_titles jt)).
    { unfold default_titles. case_match; repeat constructor. }
    assert (Ha : Forall (fun t => strip t = t) (Parser._extract_json_string_array text)).
    { unfold Parser._extract_json_string_array.
      repeat case_match; try constructor. apply Forall_take, stripped_strs_stripped. }
    assert (Hc : Forall (fun t => strip t = t) (titles_of_span text (max_titles jt))).
    { unfold titles_of_span.
      repeat case_match; try constructor. apply Forall_take, stripped_strs_stripped. }
    pose proof (titles_of_dicts_stripped (Parser._extract_json_array text)) as Hb.
    repeat case_match; done. }
  apply Forall_forall. intros t Ht. apply list_elem_of_filter in Ht as [Hne Ht].
  split; [|done]. by eapply Forall_forall in Hl.
Qed.

End CleanTitles.

(** * The suggested titles *)

Section TitleFacts.
Import V3.
Context `{Py.Runtime}.

(** C8, as the code has it: in internship mode the node returns at most
    three titles, each stripped and not empty; titles the first parsing
    attempt finds in the model's answer are returned as they are, whether
    or not they name an internship; when the model yields no title by any
    of the three parsing attempts, the node falls back to one title, which
    names an internship. *)
Theorem internship_fallback_title (st : State) (text : string) :
  normal_job_type st = "internship" ->
  ((length (suggested_titles (decide_titles_node st text)) <= 3)%nat
   /\ Forall Spec.clean (suggested_titles (decide_titles_node st text)))
  /\ (Parser._extract_json_string_array text <> [] ->
      suggested_titles (decide_titles_node st text)
      = take 3 (filter (fun t => PyStr.nonempty t = true)
                       (Parser._extract_json_string_array text)))
  /\ (Parser._extract_json_string_array text = [] ->
      titles_of_dicts (Parser._extract_json_array text) = [] ->
      titles_of_span text 3 = [] ->
      suggested_titles (decide_titles_node st text) = ["Software Engineer Intern"]
      /\ Forall (fun t => Spec.mentions_intern t = true)
                (suggested_titles (decide_titles_node st text))).
Proof.
  intros Hjt.
  assert (Hnode : suggested_titles (decide_titles_node st text)
                  = titles_for "internship" text).
  { unfold decide_titles_node. rewrite Hjt. by destruct st. }
  rewrite Hnode. split; [|split].
  - split; [|apply titles_for_clean].
    unfold titles_for. change (max_titles "internship") with 3%nat.
    rewrite length_take. lia.
  - intros Hne. unfold titles_for.
    change (max_titles "internship") with 3%nat.
    destruct (Parser._extract_json_string_array text) as [|t ts]; [done |].
    reflexivity.
  - intros H1 H2 H3.
    assert (Heq : titles_for "internship" text = ["Software Engineer Intern"]).
    { unfold titles_for. rewrite H1, H2.
      change (max_titles "internship") with 3%nat. simpl.
      destruct (PyStr.nonempty (PyStr.strip text)); simpl; [|reflexivity].
      destruct (PyStr.contains "[" text); [rewrite H3 |]; reflexivity. }
    rewrite Heq. split; [reflexivity |]. repeat constructor.
Qed.

End TitleFacts.

(** In internship mode a title of the model that names no internship is
  returned unchanged. *)
Lemma internship_title_unchecked :
  V3.suggested_titles
    (@V3.decide_titles_node Examples.example_runtime
       (V3.initial_state "resume" "" "internship") Examples.plain_title_text)
  = ["Software Engineer"]
  /\ Spec.mentions_intern "Software Engineer" = false.
Proof. split; vm_compute; reflexivity. Qed.

Lemma internship_fallback_title_witness :
  V3.suggested_titles
    (@V3.decide_titles_node Examples.example_runtime
       (V3.initial_state "resume" "" "internship") "")
  = ["Software Engineer Intern"].
Proof.
  refine (proj1 (proj2 (proj2 (@internship_fallback_title Examples.example_runtime
            (V3.initial_state "resume" "" "internship") "" _)) _ _ _));
    vm_compute; reflexivity.
Defined.

(** * The choice of the next search *)

Section ChoiceFacts.
Import V3.

Lemma head_app {A} (l1 l2 : list A) :
  head (l1 ++ l2) = match head l1 with Some x => Some x | None => head l2 end.
Proof. by destruct l1. Qed.

Lemma head_elem_of {A} (l : list A) (x : A) : head l = Some x -> x ∈ l.
Proof. destruct l; [done |]. intros [= ->]. apply list_elem_of_here. Qed.

Lemma first_untried_page_head (tried : gset (string * Z)) (t : string)
  (pages : list nat) :
  first_untried_page tried t pages
  = head (filter (fun pr => pr ∉ tried) ((fun pg => (t, Z.of_nat pg)) <$> pages)).
Proof.
  induction pages as [|pg pages IH]; [reflexivity |].
  cbn [first_untried_page fmap list_fmap]. rewrite filter_cons.
  destruct (decide ((t, Z.of_nat pg) ∈ tried)) as [Hin|Hout].
  - rewrite bool_decide_eq_true_2 by done.
    destruct (decide ((t, Z.of_nat pg) ∉ tried)); [done | exact IH].
  - rewrite bool_decide_eq_false_2 by done.
    destruct (decide ((t, Z.of_nat pg) ∉ tried)); [reflexivity | done].
Qed.

Lemma first_untried_head (tried : gset (string * Z)) (titles : list string)
  (max_page : nat) :
  first_untried tried titles (seq 0 (S max_page))
  = Spec.first_canonical_untried tried titles max_page.
Proof.
  unfold Spec.first_canonical_untried, Spec.canonical_pairs.
  induction titles as [|t titles IH]; [reflexivity |].
  cbn [first_untried]. rewrite bind_cons, filter_app, head_app.
  destruct (PyStr.nonempty (PyStr.strip t)).
  - rewrite first_untried_page_head.
    destruct (head (filter _ (_ <$> seq 0 (S max_page)))); [reflexivity | exact IH].
  - exact IH.
Qed.

(** [_get_next_title_page] returns the first untried pair of the canonical
    order. *)
Lemma get_next_title_page_canonical (suggested : list string)
  (tried_pairs : list Attempt) :
  _get_next_title_page suggested tried_pairs 5
  = Spec.first_canonical_untried (_tried_pairs_set tried_pairs)
      (Spec.search_titles suggested) 5.
Proof. unfold _get_next_title_page. apply first_untried_head. Qed.

Lemma first_canonical_untried_fresh (tried : gset (string * Z))
  (titles : list string) (max_page : nat) (pr : string * Z) :
  Spec.first_canonical_untried tried titles max_page = Some pr -> pr ∉ tried.
Proof.
  intros Hhead. apply head_elem_of in Hhead.
  by apply list_elem_of_filter in Hhead as [? _].
Qed.

Context `{Py.Runtime}.



End ChoiceFacts.




(** * Runs of the graph *)

Section RunFacts.
Import V3.
Context `{Py.Runtime}.

Lemma advance_step (c c' : node * State) (a : answer) :
  advance c a = Some c' -> step c c'.
Proof.
  destruct c as [n st]. unfold advance. cbn [fst snd].
  destruct n, a; try discriminate; intros Hadv;
    try (apply bind_Some in Hadv as (st' & Hnode & [= <-]));
    try (injection Hadv as <-);
    by econstructor.
Qed.

Lemma run_rtc (answers : list answer) (c c' : node * State) :
  run answers c = Some c' -> rtc step c c'.
Proof.
  revert c; induction answers as [|a answers IH]; intros c; cbn [run].
  - intros [= <-]. apply rtc_refl.
  - intros Hrun. apply bind_Some in Hrun as (c1 & Hadv & Hrest).
    eapply rtc_l; [by eapply advance_step | by apply IH].
Qed.

(** ** The loop with no pair left *)

Lemma exhausted_step (c : node * State) :
  step (phase1_agent, Examples.exhausted) c -> c = (phase1_agent, Examples.exhausted).
Proof.
  intros Hstep. inversion Hstep as [| st reply st' Hnode | | | | | |]; subst.
  unfold phase1_agent_node in Hnode.
  assert (Hcall : agent_tool_call Examples.exhausted reply = Some None)
    by (by destruct reply).
  rewrite Hcall in Hnode. injection Hnode as <-. reflexivity.
Qed.

Lemma exhausted_forever (c c' : node * State) :
  rtc step c c' -> c = (phase1_agent, Examples.exhausted) -> c' = c.
Proof.
  induction 1 as [|c c1 c2 Hstep _ IH]; [done |].
  intros ->. apply exhausted_step in Hstep. subst c1. by apply IH.
Qed.

Lemma exhausted_reachable : reachable (phase1_agent, Examples.exhausted).
Proof.
  exists "resume", "", "full_time". apply (run_rtc Examples.barren_run).
  vm_compute. reflexivity.
Qed.

(** C1, at the failing input.  The generation service is down for the
    title step and the scraper finds nothing on six pages: the run reaches
    the agent node with every pair tried, no qualifying job and no round
    counted.  From there every visit of the agent node, whatever the
    service answers, is routed back to the agent node with the same state:
    no number of visits leads to the enrichment passes. *)
Theorem discovery_loop_spins_when_exhausted :
  reachable (phase1_agent, Examples.exhausted)
  /\ (forall reply,
        phase1_agent_node Examples.exhausted reply = Some Examples.exhausted)
  /\ phase1_route Examples.exhausted = phase1_agent
  /\ (forall c, rtc step (phase1_agent, Examples.exhausted) c ->
                c = (phase1_agent, Examples.exhausted)).
Proof.
  split; [|split; [|split]].
  - exact exhausted_reachable.
  - intros reply. unfold phase1_agent_node.
    assert (Hcall : agent_tool_call Examples.exhausted reply = Some None)
      by (by destruct reply).
    by rewrite Hcall.
  - reflexivity.
  - intros c Hrun. by apply (exhausted_forever _ _ Hrun).
Qed.

End RunFacts.

Lemma repeated_reachable :
  @V3.reachable Examples.example_runtime (V3.phase1_agent, Examples.repeated).
Proof.
  exists "resume", "", "full_time".
  apply (@run_rtc Examples.example_runtime Examples.blank_run).
  vm_compute. reflexivity.
Qed.

(** C2, at the failing input.  The model suggests a title made of one
  space, so no title is suggested; it then asks twice for that title.  The
  agent lets the pair with the empty title pass, the tool node replaces the
  empty title by the default one, and the log holds the same pair twice. *)
Theorem tried_pairs_repeat_without_titles :
  @V3.reachable Examples.example_runtime (V3.phase1_agent, Examples.repeated)
  /\ Spec.logged_pairs Examples.repeated
     = [("Software Engineer", 0); ("Software Engineer", 0)].
Proof.
  split; [|reflexivity].
  exists "resume", "", "full_time". apply (run_rtc Examples.blank_run).
  vm_compute. reflexivity.
Qed.

(** * Scores *)

Section ScoreFacts.
Import V3.

Lemma collect_qualifies (score_map : gmap Z Z) (batch : list Job) (i : Z)
  (qualifying : list Job) (added : Z) :
  Forall Spec.qualifies qualifying ->
  Forall Spec.qualifies (collect score_map batch i qualifying added).1.
Proof.
  revert i qualifying added; induction batch as [|j batch IH];
    intros i qualifying added Hq; [done |].
  cbn [collect].
  destruct (V3_SCORE_THRESHOLD <=? score_at score_map i) eqn:E; [|by apply IH].
  apply IH. apply Forall_app. split; [done |].
  apply Forall_singleton. exists (score_at score_map i). split; [by destruct j | lia].
Qed.

(** The loop appends the scored items that reach the threshold, in batch
    order, and nothing else. *)
Lemma collect_appends (score_map : gmap Z Z) (batch : list Job) (i : Z)
  (qualifying : list Job) (added : Z) :
  (collect score_map batch i qualifying added).1
  = qualifying ++ filter (fun j => Spec.reaches_threshold j = true)
                         (Spec.scored score_map i batch).
Proof.
  revert i qualifying added; induction batch as [|j batch IH];
    intros i qualifying added.
  - cbn. by rewrite app_nil_r.
  - cbn [collect]. unfold Spec.scored. rewrite imap_cons, filter_cons.
    assert (Htail : imap ((fun k j0 =>
                             set_score (Some (score_at score_map (i + Z.of_nat k))) j0)
                          ∘ S) batch
                    = Spec.scored score_map (i + 1) batch).
    { unfold Spec.scored. apply imap_ext. intros k x _. simpl.
      by replace (i + Z.of_nat (S k)) with (i + 1 + Z.of_nat k) by lia. }
    rewrite Htail.
    assert (Hhead : Spec.reaches_threshold
                      (set_score (Some (score_at score_map (i + Z.of_nat 0))) j)
                    = (V3_SCORE_THRESHOLD <=? score_at score_map i)).
    { unfold Spec.reaches_threshold. replace (i + Z.of_nat 0) with i by lia.
      by destruct j. }
    rewrite Hhead.
    destruct (V3_SCORE_THRESHOLD <=? score_at score_map i) eqn:E.
    + rewrite decide_True by done. rewrite IH, <- app_assoc. simpl.
      by replace (i + Z.of_nat 0) with i by lia.
    + rewrite decide_False by done. apply IH.
Qed.

(** Jobs that carry the same scores qualify alike. *)
Lemma qualifies_same_scores (l l' : list Job) :
  score <$> l' = score <$> l -> Forall Spec.qualifies l -> Forall Spec.qualifies l'.
Proof.
  revert l'; induction l as [|j l IH]; intros [|j' l'] Heq Hall; try done.
  injection Heq as Hj Hl. apply Forall_cons in Hall as [(sc & Hsc & Hge) Hall].
  apply Forall_cons. split; [|by apply IH].
  exists sc. split; [congruence | done].
Qed.

Lemma scores_alter (f : Job -> Job) (k : nat) (l : list Job) :
  (forall j, score (f j) = score j) -> score <$> alter f k l = score <$> l.
Proof.
  intros Hf. revert k; induction l as [|j l IH]; intros [|k]; try done.
  - cbn. by rewrite Hf.
  - cbn. f_equal. apply IH.
Qed.

Lemma scores_fmap (f : Job -> Job) (l : list Job) :
  (forall j, score (f j) = score j) -> score <$> (f <$> l) = score <$> l.
Proof.
  intros Hf. rewrite <- list_fmap_compose. apply list_fmap_ext. intros ? j _. apply Hf.
Qed.

Lemma scores_imap (f : nat -> Job -> Job) (l : list Job) :
  (forall i j, score (f i j) = score j) -> score <$> imap f l = score <$> l.
Proof.
  intros Hf. apply list_eq. intros i.
  rewrite !list_lookup_fmap, list_lookup_imap.
  destruct (l !! i); simpl; [by rewrite Hf | done].
Qed.

Lemma run_batches_scores (size : nat) (f : nat -> list Job -> option (list Job))
  (fuel k : nat) (jobs jobs' : list Job) :
  (forall k b b', f k b = Some b' -> score <$> b' = score <$> b) ->
  run_batches size f fuel k jobs = Some jobs' ->
  score <$> jobs' = score <$> jobs.
Proof.
  intros Hf. revert k jobs jobs'; induction fuel as [|fuel IH]; intros k jobs jobs'.
  - intros [= <-]. reflexivity.
  - destruct jobs as [|j jobs]; [by intros [= <-] |].
    cbn [run_batches]. intros Hrun.
    apply bind_Some in Hrun as (done' & Hdone & Hrun).
    apply bind_Some in Hrun as (rest & Hrest & [= <-]).
    apply Hf in Hdone. apply IH in Hrest.
    rewrite fmap_app, Hdone, Hrest, <- fmap_app. by rewrite take_drop.
Qed.

Lemma summary_items_scores (items : list Py.dict) (batch batch' : list Job) :
  summary_items items batch = Some batch' -> score <$> batch' = score <$> batch.
Proof.
  revert batch; induction items as [|item items IH]; intros batch.
  - by intros [= <-].
  - cbn [summary_items]. intros Hrun.
    apply bind_Some in Hrun as (w & _ & Hrun).
    apply bind_Some in Hrun as (nw & _ & Hrun).
    repeat case_match; try discriminate; try (by apply IH);
      (apply IH in Hrun; rewrite Hrun; apply scores_alter; by intros []).
Qed.

Lemma future_items_scores (items : list Py.dict) (jobs jobs' : list Job) :
  future_items items jobs = Some jobs' -> score <$> jobs' = score <$> jobs.
Proof.
  revert jobs; induction items as [|item items IH]; intros jobs.
  - by intros [= <-].
  - cbn [future_items]. intros Hrun.
    repeat case_match; try discriminate; try (by apply IH);
      (apply IH in Hrun; rewrite Hrun; apply scores_alter; by intros []).
Qed.

Lemma default_future_score (j : Job) : score (default_future j) = score j.
Proof. unfold default_future. destruct j as [? ? ? ? [?|] [?|] ?]; reflexivity. Qed.

Lemma default_projects_score (j : Job) : score (default_projects j) = score j.
Proof. unfold default_projects. destruct j as [? ? ? [?|] ? ? ?]; reflexivity. Qed.

Context `{Py.Runtime}.

Lemma propose_items_scores (items : list Py.dict) (batch batch' : list Job) :
  propose_items items batch = Some batch' -> score <$> batch' = score <$> batch.
Proof.
  revert batch; induction items as [|item items IH]; intros batch.
  - by intros [= <-].
  - cbn [propose_items]. intros Hrun.
    repeat case_match; simplify_eq; try done; try (by apply IH);
      (apply IH in Hrun; rewrite Hrun; apply scores_alter; by intros []).
Qed.

(** No enrichment pass changes a score. *)
Lemma resume_modifier_scores (st st' : State) (answer : nat -> string) :
  resume_modifier_agent_node st answer = Some st' ->
  score <$> qualifying_jobs st' = score <$> qualifying_jobs st.
Proof.
  unfold resume_modifier_agent_node. intros Hnode.
  apply bind_Some in Hnode as (jobs' & Hrun & [= <-]).
  destruct st; simpl in *.
  apply run_batches_scores in Hrun; [done |].
  intros k b b'. unfold suggest_batch. case_match.
  - intros [= <-]. apply scores_fmap. by intros [].
  - intros Hb. apply bind_Some in Hb as (parts & _ & [= <-]).
    apply scores_imap. by intros ? [].
Qed.

Lemma project_proposer_scores (st st' : State) (answer : nat -> string) :
  project_proposer_node st answer = Some st' ->
  score <$> qualifying_jobs st' = score <$> qualifying_jobs st.
Proof.
  unfold project_proposer_node. intros Hnode.
  apply bind_Some in Hnode as (jobs' & Hrun & [= <-]).
  destruct st; simpl in *.
  apply run_batches_scores in Hrun.
  - rewrite Hrun. apply scores_fmap, default_projects_score.
  - intros k b b'. unfold propose_batch. case_match.
    + apply propose_items_scores.
    + by intros [= <-].
Qed.

Lemma future_scores_scores (st st' : State) (text : string) :
  future_scores_node st text = Some st' ->
  score <$> qualifying_jobs st' = score <$> qualifying_jobs st.
Proof.
  unfold future_scores_node. intros Hnode.
  apply bind_Some in Hnode as (jobs' & Hrun & [= <-]).
  assert (Hs : qualifying_jobs (set_qualifying_jobs jobs' st) = jobs')
    by (by destruct st).
  rewrite Hs. transitivity (score <$> (default_future <$> qualifying_jobs st)).
  - case_match; [by eapply future_items_scores | by injection Hrun as <-].
  - apply scores_fmap, default_future_score.
Qed.

Lemma relevance_summary_scores (st st' : State) (answer : nat -> string) :
  relevance_summary_node st answer = Some st' ->
  score <$> qualifying_jobs st' = score <$> qualifying_jobs st.
Proof.
  unfold relevance_summary_node. intros Hnode.
  apply bind_Some in Hnode as (jobs' & Hrun & [= <-]).
  destruct st; simpl in *.
  apply run_batches_scores in Hrun; [done |].
  intros k b b'. unfold summary_batch. case_match.
  - by intros [= <-].
  - apply summary_items_scores.
Qed.


Lemma enrichment_keeps_scores (c c' : node * State) :
  step c c' -> Spec.enriches c.1 ->
  score <$> qualifying_jobs c'.2 = score <$> qualifying_jobs c.2.
Proof.
  intros Hstep Hnode. unfold Spec.enriches in Hnode.
  destruct Hstep; cbn [fst snd] in *;
    try (destruct Hnode as [?|[?|[?|?]]]; discriminate).
  - by eapply resume_modifier_scores.
  - by eapply project_proposer_scores.
  - by eapply future_scores_scores.
  - by eapply relevance_summary_scores.
Qed.

Lemma step_qualifies (c c' : node * State) :
  step c c' ->
  Forall Spec.qualifies (qualifying_jobs c.2) ->
  Forall Spec.qualifies (qualifying_jobs c'.2).
Proof.
  intros Hstep Hq. destruct Hstep as
    [st text | st reply st' Hnode | st scrape | st text st' Hnode
    | st answer st' Hnode | st answer st' Hnode | st text st' Hnode
    | st answer st' Hnode]; cbn [fst snd] in *.
  - by destruct st.
  - unfold phase1_agent_node in Hnode.
    apply bind_Some in Hnode as (call & _ & [= <-]). by destruct st.
  - unfold phase1_tool_node. repeat case_match; by destruct st.
  - unfold score_batch_node in Hnode. case_match.
    + injection Hnode as <-. by destruct st.
    + apply bind_Some in Hnode as (score_map & _ & Hnode).
      destruct (collect score_map (current_batch st) 0 (qualifying_jobs st) 0)
        as [qualifying added] eqn:Ecol.
      injection Hnode as <-.
      pose proof (collect_qualifies score_map (current_batch st) 0
                    (qualifying_jobs st) 0 Hq) as Hcol.
      rewrite Ecol in Hcol. by destruct st.
  - eapply qualifies_same_scores; [by eapply resume_modifier_scores | done].
  - eapply qualifies_same_scores; [by eapply project_proposer_scores | done].
  - eapply qualifies_same_scores; [by eapply future_scores_scores | done].
  - eapply qualifies_same_scores; [by eapply relevance_summary_scores | done].
Qed.

Lemma reachable_qualifies (c : node * State) :
  reachable c -> Forall Spec.qualifies (qualifying_jobs c.2).
Proof.
  intros (r & cl & jt & Hrun).
  remember (decide_titles, initial_state r cl jt) as c0 eqn:E0.
  assert (H0 : Forall Spec.qualifies (qualifying_jobs c0.2)) by (subst c0; constructor).
  clear E0. induction Hrun as [|c0 c1 c2 Hstep _ IH]; [done |].
  apply IH. by eapply step_qualifies.
Qed.

(** What [score_batch_node] adds to the qualifying jobs: the items of the
    batch whose score, read off the score map of the response, reaches the
    threshold. *)
Lemma score_batch_appends (st st' : State) (text : string) :
  score_batch_node st text = Some st' ->
  exists score_map,
    (current_batch st <> [] ->
     (if PyStr.nonempty (PyStr.strip text)
      then score_map_of (Parser._extract_json_array text) ∅
      else Some ∅) = Some score_map)
    /\ qualifying_jobs st'
       = qualifying_jobs st
         ++ filter (fun j => Spec.reaches_threshold j = true)
                   (Spec.scored score_map 0 (current_batch st)).
Proof.
  unfold score_batch_node. intros Hnode.
  destruct (current_batch st) as [|j batch] eqn:Eb.
  - exists ∅. split; [done |]. cbn in Hnode. injection Hnode as <-.
    cbn. rewrite app_nil_r. by destruct st.
  - cbn [is_nil] in Hnode.
    apply bind_Some in Hnode as (score_map & Hmap & Hnode).
    exists score_map. split; [done |].
    pose proof (collect_appends score_map (j :: batch) 0 (qualifying_jobs st) 0)
      as Hcol.
    destruct (collect score_map (j :: batch) 0 (qualifying_jobs st) 0)
      as [qualifying added].
    injection Hnode as <-. rewrite <- Hcol. by destruct st.
Qed.

(** ** The score map *)

Lemma score_map_of_other (items : list Py.dict) (m m' : gmap Z Z) (i : Z) :
  score_map_of items m = Some m' ->
  Forall (fun s => ~ Spec.scores_index s i) items ->
  m' !! i = m !! i.
Proof.
  revert m; induction items as [|s items IH]; intros m.
  - by intros [= <-].
  - cbn [score_map_of]. intros Hmap Hall.
    apply Forall_cons in Hall as [Hs Hall].
    destruct (Py.get s "idx") as [idx|] eqn:Eidx; [|by apply IH].
    destruct (Py.int (Py.get_default s "score" (Py.VInt 0))) as [v| |] eqn:Esc;
      [| destruct idx; try discriminate; by apply IH
       | destruct idx; try discriminate; by apply IH].
    destruct (Py.int idx) as [k| |] eqn:Ek;
      [| destruct idx; try discriminate; by apply IH
       | destruct idx; try discriminate; by apply IH].
    assert (Hne : idx <> Py.VNone) by (intros ->; discriminate).
    assert (Hki : k <> i).
    { intros ->. apply Hs. by exists idx, v. }
    assert (Hrest : score_map_of items (<[k := Z.max 0 (Z.min 100 v)]> m) = Some m')
      by (by destruct idx).
    rewrite (IH _ Hrest Hall). by apply lookup_insert_ne.
Qed.

Lemma score_map_of_app (items items' : list Py.dict) (m : gmap Z Z) :
  score_map_of (items ++ items') m = score_map_of items m ≫= score_map_of items'.
Proof.
  revert m; induction items as [|s items IH]; intros m; [reflexivity |].
  cbn [app score_map_of]. repeat case_match; try done; apply IH.
Qed.

(** C4, as the code has it.  In every configuration a run can be in,
    each qualifying job carries a score of at least 85, and the enrichment
    nodes leave the scores as they are.  A batch item that no response
    item addresses with a readable index and a readable score gets 70,
    below the threshold; a response item that has a readable index and no
    score field gives its batch item the score 0.  The node appends the
    batch items whose score reaches the threshold, and no other. *)
Theorem qualifying_jobs_meet_threshold :
  (forall c, reachable c -> Forall Spec.qualifies (qualifying_jobs c.2))
  /\ (forall c c', step c c' -> Spec.enriches c.1 ->
                   score <$> qualifying_jobs c'.2 = score <$> qualifying_jobs c.2)
  /\ (forall items score_map i,
        score_map_of items ∅ = Some score_map ->
        Forall (fun s => ~ Spec.scores_index s i) items ->
        score_at score_map i = 70 /\ score_at score_map i < V3_SCORE_THRESHOLD)
  /\ (forall items s idx score_map i,
        Py.get s "score" = None ->
        Py.get s "idx" = Some idx -> idx <> Py.VNone -> Py.int idx = Py.IntVal i ->
        score_map_of (items ++ [s]) ∅ = Some score_map ->
        score_at score_map i = 0)
  /\ (forall st text st',
        score_batch_node st text = Some st' ->
        exists score_map,
          (current_batch st <> [] ->
           (if PyStr.nonempty (PyStr.strip text)
            then score_map_of (Parser._extract_json_array text) ∅
            else Some ∅) = Some score_map)
          /\ qualifying_jobs st'
             = qualifying_jobs st
               ++ filter (fun j => Spec.reaches_threshold j = true)
                         (Spec.scored score_map 0 (current_batch st))).
Proof.
  split; [exact reachable_qualifies |]. split; [exact enrichment_keeps_scores |].
  split; [|split; [|intros st text st'; apply score_batch_appends]].
  - intros items score_map i Hmap Hall. unfold score_at.
    rewrite (score_map_of_other _ _ _ _ Hmap Hall), lookup_empty. simpl.
    unfold V3_SCORE_THRESHOLD. lia.
  - intros items s idx score_map i Hsc Hidx Hne Hint Hmap.
    rewrite score_map_of_app in Hmap.
    apply bind_Some in Hmap as (m & _ & Hlast).
    cbn [score_map_of] in Hlast. unfold Py.get_default in Hlast.
    rewrite Hsc, Hidx in Hlast. cbn [Py.int] in Hlast. rewrite Hint in Hlast.
    assert (Hm : score_map = <[i := Z.max 0 (Z.min 100 0)]> m)
      by (destruct idx; congruence).
    unfold score_at. rewrite Hm, lookup_insert_eq. reflexivity.
Qed.

End ScoreFacts.

(** The response names batch item 0 and gives no score: the item is scored
  0, not 70. *)
Lemma idx_without_score_scores_zero :
  Py.get [("idx", Py.VInt 0)] "score" = None
  /\ (fun m => V3.score_at m 0)
       <$> V3.score_map_of
             (@Parser._extract_json_array Examples.example_runtime Examples.idx_only_text) ∅
     = Some 0
  /\ (fun st => (V3.qualifying_jobs st, V3.phase1_rounds st))
       <$> @V3.score_batch_node Examples.example_runtime Examples.scoring
             Examples.idx_only_text
     = Some ([], 1).
Proof. repeat split; vm_compute; reflexivity. Qed.

Lemma qualifying_jobs_meet_threshold_witness :
  Forall Spec.qualifies (V3.qualifying_jobs Examples.repeated)
  /\ V3.score_at ∅ 0 = 70.
Proof.
  split.
  - refine (proj1 (@qualifying_jobs_meet_threshold Examples.example_runtime)
              (V3.phase1_agent, Examples.repeated) _).
    exact repeated_reachable.
  - refine (proj1 (proj1 (proj2 (proj2 (@qualifying_jobs_meet_threshold
              Examples.example_runtime))) [] ∅ 0 _ _)); [reflexivity | constructor].
Defined.

(** * The exits of the discovery loop *)

Section RouteFacts.
Import V3.

(** The two exits of the routing function. *)
Lemma phase1_route_exits (st : State) :
  V3_TARGET_QUALIFYING_JOBS <= Z.of_nat (length (qualifying_jobs st))
  \/ V3_PHASE1_MAX_ROUNDS <= phase1_rounds st ->
  phase1_route st = resume_modifier_agent.
Proof.
  intros Hexit. unfold phase1_route.
  destruct (V3_TARGET_QUALIFYING_JOBS <=? _) eqn:E1; [done |].
  destruct (V3_PHASE1_MAX_ROUNDS <=? _) eqn:E2; [done |]. lia.
Qed.

(** Below both bounds a state without a pending call is routed back to the
    agent node. *)
Lemma phase1_route_loops (st : State) :
  Z.of_nat (length (qualifying_jobs st)) < V3_TARGET_QUALIFYING_JOBS ->
  phase1_rounds st < V3_PHASE1_MAX_ROUNDS ->
  phase1_last_tool_call st = None ->
  phase1_route st = phase1_agent.
Proof.
  intros Hn Hr Hcall. unfold phase1_route. rewrite Hcall.
  destruct (V3_TARGET_QUALIFYING_JOBS <=? _) eqn:E1; [lia |].
  destruct (V3_PHASE1_MAX_ROUNDS <=? _) eqn:E2; [lia | done].
Qed.

Context `{Py.Runtime}.

(** A round is counted only when the batch holds a job. *)
Lemma score_batch_rounds (st st' : State) (text : string) :
  score_batch_node st text = Some st' ->
  phase1_rounds st'
  = if is_nil (current_batch st) then phase1_rounds st else phase1_rounds st + 1.
Proof.
  unfold score_batch_node. destruct (is_nil (current_batch st)).
  - intros [= <-]. by destruct st.
  - intros Hnode. apply bind_Some in Hnode as (score_map & _ & Hnode).
    destruct (collect _ _ _ _ _). injection Hnode as <-. by destruct st.
Qed.

End RouteFacts.

(** * The attempt log when titles are suggested *)

Section LogFacts.
Import PyStr V3 Spec.

(** ** The tried set and the log *)

Lemma elem_of_tried_pairs_fold (l : list Attempt) (acc : gset (string * Z))
  (x : string * Z) :
  x ∈ foldl (fun out p =>
               let t := strip (attempt_title p) in
               if nonempty t then out ∪ {[ (t, attempt_page p) ]} else out) acc l
  <-> x ∈ acc
      \/ exists p, p ∈ l /\ nonempty (strip (attempt_title p)) = true
                   /\ x = (strip (attempt_title p), attempt_page p).
Proof.
  revert acc; induction l as [|p l IH]; intros acc; cbn [foldl].
  - split; [by left |]. intros [?|(p & Hp & _)]; [done |]. by apply elem_of_nil in Hp.
  - rewrite IH. split.
    + intros [Hacc | (q & Hq & Hne & ->)].
      * destruct (nonempty (strip (attempt_title p))) eqn:E; [|by left].
        apply elem_of_union in Hacc as [?|Hx]; [by left |].
        apply elem_of_singleton in Hx as ->. right. exists p.
        split; [apply list_elem_of_here | done].
      * right. exists q. split; [by apply list_elem_of_further | done].
    + intros [Hacc | (q & Hq & Hne & ->)].
      * left. destruct (nonempty (strip (attempt_title p))); [|done].
        apply elem_of_union. by left.
      * apply elem_of_cons in Hq as [->|Hq].
        -- left. rewrite Hne. apply elem_of_union. right. by apply elem_of_singleton.
        -- right. by exists q.
Qed.

Lemma tried_set_logged (l : list Attempt) (x : string * Z) :
  Forall clean (attempt_title <$> l) ->
  x ∈ _tried_pairs_set l <-> x ∈ (fun p => (attempt_title p, attempt_page p)) <$> l.
Proof.
  intros Hclean. unfold _tried_pairs_set. rewrite elem_of_tried_pairs_fold.
  rewrite list_elem_of_fmap. split.
  - intros [Hx | (p & Hp & Hne & ->)]; [by apply not_elem_of_empty in Hx |].
    exists p. split; [|done]. f_equal.
    eapply Forall_forall in Hclean as [Hs _];
      [exact Hs | by apply list_elem_of_fmap; exists p].
  - intros (p & -> & Hp). right. exists p. split; [done |].
    assert (Hc : clean (attempt_title p)).
    { eapply Forall_forall in Hclean; [exact Hclean | by apply list_elem_of_fmap; exists p]. }
    destruct Hc as [Hs Hne]. by rewrite Hs.
Qed.

Lemma annotate_last_pairs (l : list Attempt) (added : Z) :
  (fun p => (attempt_title p, attempt_page p)) <$> annotate_last l added
  = (fun p => (attempt_title p, attempt_page p)) <$> l.
Proof.
  induction l as [|p l IH]; [reflexivity |]. cbn [annotate_last].
  destruct l as [|q l]; [by destruct p |]. rewrite !fmap_cons. f_equal. exact IH.
Qed.

Lemma annotate_last_titles (l : list Attempt) (added : Z) :
  attempt_title <$> annotate_last l added = attempt_title <$> l.
Proof.
  induction l as [|p l IH]; [reflexivity |]. cbn [annotate_last].
  destruct l as [|q l]; [by destruct p |]. rewrite !fmap_cons. f_equal. exact IH.
Qed.

(** ** The agent's call *)

Lemma canonical_title_in (titles : list string) (max_page : nat) (pr : string * Z) :
  Forall clean titles -> pr ∈ canonical_pairs titles max_page -> pr.1 ∈ titles.
Proof.
  intros Hclean Hin. unfold canonical_pairs in Hin.
  apply list_elem_of_bind in Hin as (t & Hpr & Ht).
  assert (Hc : clean t) by (by eapply Forall_forall in Hclean).
  destruct Hc as [Hs Hne]. rewrite Hs, Hne in Hpr.
  apply list_elem_of_fmap in Hpr as (pg & -> & _). done.
Qed.

Lemma requested_pair_title_in `{Py.Runtime} (suggested : list string) (args : Py.dict)
  (asked : string * Z) :
  suggested <> [] -> requested_pair suggested args = Some asked -> asked.1 ∈ suggested.
Proof.
  intros Hne. unfold requested_pair. intros Hreq.
  apply bind_Some in Hreq as (pg & _ & [= <-]). cbn [fst].
  destruct suggested as [|t0 rest]; [done |]. cbn [is_nil negb andb].
  unfold mem. case_bool_decide as Hin; [exact Hin | apply list_elem_of_here].
Qed.

Lemma agent_call_fresh `{Py.Runtime} (st : State) (reply : agent_reply) (call : ToolCall) :
  suggested_titles st <> [] ->
  Forall clean (suggested_titles st) ->
  Forall clean (attempt_title <$> phase1_tried_pairs st) ->
  agent_tool_call st reply = Some (Some call) ->
  job_title call ∈ suggested_titles st
  /\ (job_title call, page call) ∉ logged_pairs st.
Proof.
  intros Hne Hclean Hlog. unfold agent_tool_call.
  destruct (V3_TARGET_QUALIFYING_JOBS <=? _); [done |].
  destruct (_get_next_title_page _ _ 5) as [next_pair|] eqn:Enext; [|done].
  destruct reply as [| |[fname|] fc_args]; try done.
  destruct (String.eqb fname "scrape_linkedin"); [|done].
  intros Hcall. apply bind_Some in Hcall as (asked & Hasked & [= <-]). cbn [job_title page].
  rewrite get_next_title_page_canonical in Enext.
  assert (Htitles : search_titles (suggested_titles st) = suggested_titles st).
  { unfold search_titles. by destruct (suggested_titles st). }
  rewrite Htitles in Enext.
  pose proof (first_canonical_untried_fresh _ _ _ _ Enext) as Hfresh.
  apply head_elem_of, list_elem_of_filter in Enext as [_ Hcanon].
  apply canonical_title_in in Hcanon; [|done].
  apply requested_pair_title_in in Hasked; [|done].
  unfold logged_pairs. rewrite <- tried_set_logged by done.
  case_bool_decide as Hin; [destruct next_pair | destruct asked];
    cbn [fst snd] in *; split; done.
Qed.

(** ** The tool node's entry *)

Lemma tool_node_logs_call (st : State) (scrape : string -> Z -> list Listing)
  (tool : ToolCall) :
  phase1_last_tool_call st = Some tool ->
  name tool = "scrape_linkedin" ->
  clean (job_title tool) ->
  job_title tool ∈ suggested_titles st ->
  logged_pairs (phase1_tool_node st scrape)
  = logged_pairs st ++ [(job_title tool, page tool)]
  /\ attempt_title <$> phase1_tried_pairs (phase1_tool_node st scrape)
     = (attempt_title <$> phase1_tried_pairs st) ++ [job_title tool]
  /\ suggested_titles (phase1_tool_node st scrape) = suggested_titles st
  /\ phase1_last_tool_call (phase1_tool_node st scrape) = None.
Proof.
  intros Hcall Hname [Hs Hne] Hin. unfold phase1_tool_node, logged_pairs.
  rewrite Hcall, Hname. cbn [String.eqb negb]. rewrite !Hs, !Hne.
  unfold mem. rewrite bool_decide_eq_true_2 by done.
  change (String.eqb "scrape_linkedin" "scrape_linkedin") with true.
  cbn [negb andb orb].
  destruct (dedup _ _ _) as [seen fresh_jobs].
  destruct st; cbn. rewrite !fmap_app, andb_false_r. done.
Qed.

End LogFacts.

Section LogInvariant.
Import V3 Spec.
Context `{Py.Runtime}.
Variable titles : list string.
Hypothesis titles_nonempty : titles <> [].
Hypothesis titles_clean : Forall clean titles.

Lemma route_not_decide_titles (st : State) : phase1_route st <> decide_titles.
Proof. unfold phase1_route. repeat case_match; discriminate. Qed.

(** A node that leaves the titles, the log and the pending call alone keeps
    the invariant. *)
Lemma log_invariant_same (n n' : node) (st st' : State) :
  n' <> decide_titles ->
  suggested_titles st' = suggested_titles st ->
  phase1_tried_pairs st' = phase1_tried_pairs st ->
  phase1_last_tool_call st' = phase1_last_tool_call st ->
  log_invariant titles (n, st) -> log_invariant titles (n', st').
Proof.
  intros Hn Hs Hp Hc (_ & Ht & Hnd & Hcl & Hcall). unfold log_invariant, logged_pairs in *.
  cbn [fst snd] in *. rewrite Hs, Hp, Hc. done.
Qed.

Lemma log_invariant_step (c c' : node * State) :
  step c c' -> log_invariant titles c -> log_invariant titles c'.
Proof.
  intros Hstep Hinv. destruct Hstep as
    [st text | st reply st' Hnode | st scrape | st text st' Hnode
    | st answer st' Hnode | st answer st' Hnode | st text st' Hnode
    | st answer st' Hnode].
  - by destruct Hinv as [Hn _].
  - unfold phase1_agent_node in Hnode.
    apply bind_Some in Hnode as (call & Hcall & [= <-]).
    destruct Hinv as (_ & Ht & Hnd & Hcl & _). cbn [fst snd] in *.
    unfold log_invariant, logged_pairs. cbn [fst snd].
    split; [apply route_not_decide_titles |].
    split; [by destruct st |]. split; [by destruct st |]. split; [by destruct st |].
    intros tool Htool _.
    assert (call = Some tool) as -> by (by destruct st).
    apply agent_call_fresh in Hcall; [| by rewrite Ht | by rewrite Ht | done].
    rewrite Ht in Hcall. unfold logged_pairs in Hcall. by destruct st.
  - destruct Hinv as (_ & Ht & Hnd & Hcl & Hcall). cbn [fst snd] in *.
    destruct (phase1_last_tool_call st) as [tool|] eqn:Etool.
    + destruct (decide (name tool = "scrape_linkedin")) as [Hname|Hname].
      * destruct (Hcall tool eq_refl Hname) as [Hin Hfresh].
        assert (Hclean : clean (job_title tool)) by (by eapply Forall_forall in titles_clean).
        destruct (tool_node_logs_call st scrape tool Etool Hname Hclean)
          as (Hlog & Htitles & Hsug & Hnone); [by rewrite Ht |].
        unfold log_invariant. cbn [fst snd].
        split; [done |]. split; [by rewrite Hsug |].
        split.
        { rewrite Hlog. apply NoDup_app. split; [done |].
          split; [|apply NoDup_singleton].
          intros x Hx Hx'. apply list_elem_of_singleton in Hx' as ->. done. }
        split.
        { rewrite Htitles. apply Forall_app. split; [done |]. by apply Forall_singleton. }
        intros tool' Htool'. by rewrite Hnone in Htool'.
      * rewrite tool_node_quiet by (right; by exists tool).
        unfold log_invariant, logged_pairs in *. cbn [fst snd].
        split; [done |]. split; [by destruct st |]. split; [by destruct st |].
        split; [by destruct st |]. intros tool' Htool'. by destruct st.
    + rewrite tool_node_quiet by (by left).
      unfold log_invariant, logged_pairs in *. cbn [fst snd].
      split; [done |]. split; [by destruct st |]. split; [by destruct st |].
      split; [by destruct st |]. intros tool' Htool'. by destruct st.
  - destruct Hinv as (_ & Ht & Hnd & Hcl & Hcall). cbn [fst snd] in *.
    unfold score_batch_node in Hnode. unfold log_invariant, logged_pairs in *.
    cbn [fst snd]. case_match.
    + injection Hnode as <-. split; [done |]. by destruct st.
    + apply bind_Some in Hnode as (score_map & _ & Hnode).
      destruct (collect _ _ _ _ _) as [qualifying added].
      injection Hnode as <-. split; [done |].
      pose proof (annotate_last_pairs (phase1_tried_pairs st) added) as Hp.
      pose proof (annotate_last_titles (phase1_tried_pairs st) added) as Hti.
      destruct st; cbn in *. rewrite Hp, Hti. done.
  - unfold resume_modifier_agent_node in Hnode.
    apply bind_Some in Hnode as (jobs' & _ & [= <-]).
    eapply log_invariant_same; [done | | | | exact Hinv]; by destruct st.
  - unfold project_proposer_node in Hnode.
    apply bind_Some in Hnode as (jobs' & _ & [= <-]).
    eapply log_invariant_same; [done | | | | exact Hinv]; by destruct st.
  - unfold future_scores_node in Hnode.
    apply bind_Some in Hnode as (jobs' & _ & [= <-]).
    eapply log_invariant_same; [done | | | | exact Hinv]; by destruct st.
  - unfold relevance_summary_node in Hnode.
    apply bind_Some in Hnode as (jobs' & _ & [= <-]).
    eapply log_invariant_same; [done | | | | exact Hinv]; by destruct st.
Qed.

Lemma log_invariant_rtc (c c' : node * State) :
  rtc step c c' -> log_invariant titles c -> log_invariant titles c'.
Proof. induction 1; eauto using log_invariant_step. Qed.

End LogInvariant.

Section LogUnique.
Import V3 Spec.
Context `{Py.Runtime}.

(** After the title step the suggested titles stay as they are. *)
Lemma suggested_titles_kept (c c' : node * State) :
  step c c' -> c.1 <> decide_titles ->
  c'.1 <> decide_titles /\ suggested_titles c'.2 = suggested_titles c.2.
Proof.
  intros Hs Hn0. destruct Hs as
    [st text' | st reply st' Hn | st scrape | st text' st' Hn
    | st answer st' Hn | st answer st' Hn | st text' st' Hn
    | st answer st' Hn]; cbn [fst snd] in *; try done.
  - unfold phase1_agent_node in Hn. apply bind_Some in Hn as (call & _ & [= <-]).
    split; [apply route_not_decide_titles | by destruct st].
  - split; [done |]. unfold phase1_tool_node. repeat case_match; by destruct st.
  - split; [done |]. unfold score_batch_node in Hn. case_match.
    + injection Hn as <-. by destruct st.
    + apply bind_Some in Hn as (score_map & _ & Hn).
      destruct (collect _ _ _ _ _). injection Hn as <-. by destruct st.
  - split; [done |]. unfold resume_modifier_agent_node in Hn.
    apply bind_Some in Hn as (jobs' & _ & [= <-]). by destruct st.
  - split; [done |]. unfold project_proposer_node in Hn.
    apply bind_Some in Hn as (jobs' & _ & [= <-]). by destruct st.
  - split; [done |]. unfold future_scores_node in Hn.
    apply bind_Some in Hn as (jobs' & _ & [= <-]). by destruct st.
  - split; [done |]. unfold relevance_summary_node in Hn.
    apply bind_Some in Hn as (jobs' & _ & [= <-]). by destruct st.
Qed.

Lemma suggested_titles_kept_rtc (c c' : node * State) :
  rtc step c c' -> c.1 <> decide_titles ->
  suggested_titles c'.2 = suggested_titles c.2.
Proof.
  induction 1 as [|c c1 c2 Hs _ IH]; [done |]. intros Hn.
  destruct (suggested_titles_kept _ _ Hs Hn) as [Hn1 Heq]. rewrite <- Heq. by apply IH.
Qed.

(** X25 ([phase1_agent_node], [phase1_tool_node]).  Once the title step
    has run and suggested at least one title, no pair is logged twice. *)
Theorem tried_pairs_unique_with_titles (c : node * State) :
  reachable c ->
  c.1 <> decide_titles ->
  suggested_titles c.2 <> [] ->
  NoDup (logged_pairs c.2).
Proof.
  intros (r & cl & jt & Hrun) Hnode Hne.
  apply rtc_inv in Hrun as [<- | (c1 & Hstep & Hrun)]; [done |].
  inversion Hstep as [st text | | | | | | |]; subst.
  set (st1 := decide_titles_node (initial_state r cl jt) text) in *.
  assert (Hinv1 : log_invariant (suggested_titles st1) (phase1_agent, st1)).
  { unfold log_invariant, logged_pairs. cbn [fst snd].
    split; [done |]. split; [done |]. split; [apply NoDup_nil_2 |].
    split; [constructor |]. intros tool Htool. discriminate. }
  assert (Hsome : suggested_titles st1 <> []).
  { rewrite (suggested_titles_kept_rtc _ _ Hrun) in Hne; done. }
  assert (Hclean : Forall clean (suggested_titles st1)).
  { subst st1. unfold decide_titles_node.
    assert (Heq : suggested_titles
                    (set_suggested_titles
                       (titles_for (normal_job_type (initial_state r cl jt)) text)
                       (initial_state r cl jt))
                  = titles_for (normal_job_type (initial_state r cl jt)) text)
      by reflexivity.
    rewrite Heq. apply titles_for_clean. }
  pose proof (log_invariant_rtc _ Hsome Hclean _ _ Hrun Hinv1) as (_ & _ & Hnd & _).
  exact Hnd.
Qed.

End LogUnique.

(** The log of the barren run holds six distinct pairs. *)
Lemma tried_pairs_unique_with_titles_example :
  NoDup (Spec.logged_pairs Examples.exhausted).
Proof.
  refine (@tried_pairs_unique_with_titles Examples.example_runtime
            (V3.phase1_agent, Examples.exhausted) _ _ _).
  - exact (@exhausted_reachable Examples.example_runtime).
  - discriminate.
  - discriminate.
Defined.

(** * Facts about the rest of the workflow *)

Section ProjectionFacts.
Import V3.
Context {A : Type} (p : Job -> A).

Lemma proj_alter (g : Job -> Job) (k : nat) (l : list Job) :
  (forall j, p (g j) = p j) -> p <$> alter g k l = p <$> l.
Proof.
  intros Hg. revert k; induction l as [|j l IH]; intros [|k]; try done.
  - cbn. by rewrite Hg.
  - cbn. f_equal. apply IH.
Qed.

Lemma proj_fmap (g : Job -> Job) (l : list Job) :
  (forall j, p (g j) = p j) -> p <$> (g <$> l) = p <$> l.
Proof.
  intros Hg. rewrite <- list_fmap_compose. apply list_fmap_ext. intros ? j _. apply Hg.
Qed.

Lemma proj_imap (g : nat -> Job -> Job) (l : list Job) :
  (forall i j, p (g i j) = p j) -> p <$> imap g l = p <$> l.
Proof.
  intros Hg. apply list_eq. intros i.
  rewrite !list_lookup_fmap, list_lookup_imap.
  destruct (l !! i); simpl; [by rewrite Hg | done].
Qed.

Lemma run_batches_proj (size : nat) (f : nat -> list Job -> option (list Job))
  (fuel k : nat) (jobs jobs' : list Job) :
  (forall k b b', f k b = Some b' -> p <$> b' = p <$> b) ->
  run_batches size f fuel k jobs = Some jobs' ->
  p <$> jobs' = p <$> jobs.
Proof.
  intros Hf. revert k jobs jobs'; induction fuel as [|fuel IH]; intros k jobs jobs'.
  - intros [= <-]. reflexivity.
  - destruct jobs as [|j jobs]; [by intros [= <-] |].
    cbn [run_batches]. intros Hrun.
    apply bind_Some in Hrun as (done' & Hdone & Hrun).
    apply bind_Some in Hrun as (rest & Hrest & [= <-]).
    apply Hf in Hdone. apply IH in Hrest.
    rewrite fmap_app, Hdone, Hrest, <- fmap_app. by rewrite take_drop.
Qed.

Lemma summary_items_proj (items : list Py.dict) (batch batch' : list Job) :
  (forall v j, p (set_brief_relevance_summary v j) = p j) ->
  summary_items items batch = Some batch' -> p <$> batch' = p <$> batch.
Proof.
  intros Hp. revert batch; induction items as [|item items IH]; intros batch.
  - by intros [= <-].
  - cbn [summary_items]. intros Hrun.
    apply bind_Some in Hrun as (w & _ & Hrun).
    apply bind_Some in Hrun as (nw & _ & Hrun).
    repeat case_match; try discriminate; try (by apply IH);
      (apply IH in Hrun; rewrite Hrun; by apply proj_alter).
Qed.

Lemma future_items_proj (items : list Py.dict) (jobs jobs' : list Job) :
  (forall v j, p (set_future v j) = p j) ->
  future_items items jobs = Some jobs' -> p <$> jobs' = p <$> jobs.
Proof.
  intros Hp. revert jobs; induction items as [|item items IH]; intros jobs.
  - by intros [= <-].
  - cbn [future_items]. intros Hrun.
    repeat case_match; try discriminate; try (by apply IH);
      (apply IH in Hrun; rewrite Hrun; by apply proj_alter).
Qed.

Context `{Py.Runtime}.

Lemma propose_items_proj (items : list Py.dict) (batch batch' : list Job) :
  (forall v j, p (set_project_suggestions v j) = p j) ->
  propose_items items batch = Some batch' -> p <$> batch' = p <$> batch.
Proof.
  intros Hp. revert batch; induction items as [|item items IH]; intros batch.
  - by intros [= <-].
  - cbn [propose_items]. intros Hrun.
    repeat case_match; simplify_eq; try done; try (by apply IH);
      (apply IH in Hrun; rewrite Hrun; by apply proj_alter).
Qed.

Lemma resume_modifier_proj (st st' : State) (answer : nat -> string) :
  (forall v j, p (set_resume_suggestions v j) = p j) ->
  resume_modifier_agent_node st answer = Some st' ->
  p <$> qualifying_jobs st' = p <$> qualifying_jobs st.
Proof.
  intros Hp. unfold resume_modifier_agent_node. intros Hnode.
  apply bind_Some in Hnode as (jobs' & Hrun & [= <-]).
  destruct st; simpl in *.
  apply run_batches_proj in Hrun; [done |].
  intros k b b'. unfold suggest_batch. case_match.
  - intros [= <-]. by apply proj_fmap.
  - intros Hb. apply bind_Some in Hb as (parts & _ & [= <-]).
    by apply proj_imap.
Qed.

Lemma default_projects_proj (j : Job) :
  (forall v j, p (set_project_suggestions v j) = p j) -> p (default_projects j) = p j.
Proof. intros Hp. unfold default_projects. by case_match. Qed.

Lemma project_proposer_proj (st st' : State) (answer : nat -> string) :
  (forall v j, p (set_project_suggestions v j) = p j) ->
  project_proposer_node st answer = Some st' ->
  p <$> qualifying_jobs st' = p <$> qualifying_jobs st.
Proof.
  intros Hp. unfold project_proposer_node. intros Hnode.
  apply bind_Some in Hnode as (jobs' & Hrun & [= <-]).
  destruct st; simpl in *.
  apply run_batches_proj in Hrun.
  - rewrite Hrun. apply proj_fmap. intros j. by apply default_projects_proj.
  - intros k b b'. unfold propose_batch. case_match.
    + by apply propose_items_proj.
    + by intros [= <-].
Qed.

Lemma relevance_summary_proj (st st' : State) (answer : nat -> string) :
  (forall v j, p (set_brief_relevance_summary v j) = p j) ->
  relevance_summary_node st answer = Some st' ->
  p <$> qualifying_jobs st' = p <$> qualifying_jobs st.
Proof.
  intros Hp. unfold relevance_summary_node. intros Hnode.
  apply bind_Some in Hnode as (jobs' & Hrun & [= <-]).
  destruct st; simpl in *.
  apply run_batches_proj in Hrun; [done |].
  intros k b b'. unfold summary_batch. case_match.
  - by intros [= <-].
  - by apply summary_items_proj.
Qed.

Lemma future_scores_proj (st st' : State) (text : string) :
  (forall v j, p (set_future_score v j) = p j) ->
  (forall v j, p (set_improvement_potential v j) = p j) ->
  future_scores_node st text = Some st' ->
  p <$> qualifying_jobs st' = p <$> qualifying_jobs st.
Proof.
  intros Hf Hi. unfold future_scores_node. intros Hnode.
  apply bind_Some in Hnode as (jobs' & Hrun & [= <-]).
  assert (Hs : qualifying_jobs (set_qualifying_jobs jobs' st) = jobs')
    by (by destruct st).
  rewrite Hs. transitivity (p <$> (default_future <$> qualifying_jobs st)).
  - case_match; [|by injection Hrun as <-].
    eapply future_items_proj; [|done]. intros v j. unfold set_future.
    by rewrite Hi, Hf.
  - apply proj_fmap. intros j. unfold default_future.
    repeat case_match; by rewrite ?Hi, ?Hf.
Qed.

End ProjectionFacts.

Section ReachFacts.
Import V3 Spec.
Context `{Py.Runtime}.

(** Induction over the configurations of a run. *)
Lemma reachable_invariant (P : node * State -> Prop) :
  (forall r cl jt, P (decide_titles, initial_state r cl jt)) ->
  (forall c c', reachable c -> step c c' -> P c -> P c') ->
  forall c, reachable c -> P c.
Proof.
  intros H0 Hstep c (r & cl & jt & Hrun).
  revert c Hrun. apply (rtc_ind_r (fun c => P c)); [apply H0 |].
  intros c1 c2 Hrun Hs IH.
  apply (Hstep c1 c2); [by exists r, cl, jt | done | done].
Qed.

(** ** What one visit of a discovery node does *)

Lemma agent_node_effect (st st' : State) (reply : agent_reply) :
  phase1_agent_node st reply = Some st' ->
  exists call,
    st' = set_phase1_last_tool_call call st
    /\ (forall tool, call = Some tool -> name tool = "scrape_linkedin").
Proof.
  unfold phase1_agent_node. intros Hnode.
  apply bind_Some in Hnode as (call & Hcall & [= <-]).
  exists call. split; [done |]. intros tool ->.
  unfold agent_tool_call in Hcall.
  repeat case_match; simplify_eq; try done.
  apply bind_Some in Hcall as (asked & _ & [= <-]). done.
Qed.

Lemma dedup_effect (batch : list Job) (seen : list string) (fresh : list Job) :
  exists new,
    dedup batch seen fresh = (seen ++ Ledger.urls new, fresh ++ new)
    /\ sublist new batch
    /\ NoDup (Ledger.urls new)
    /\ (forall u, u ∈ Ledger.urls new -> (u ∉ seen) /\ PyStr.nonempty u = true).
Proof.
  revert seen fresh; induction batch as [|j batch IH]; intros seen fresh.
  - exists []. cbn. rewrite !app_nil_r.
    split; [done |]. split; [done |]. split; [apply NoDup_nil_2 |].
    intros u Hu. by apply elem_of_nil in Hu.
  - cbn [dedup].
    destruct (PyStr.nonempty (url (listing j)) && negb (PyStr.mem (url (listing j)) seen))
      eqn:E.
    + apply andb_true_iff in E as [Hne Hnew]. apply negb_true_iff in Hnew.
      unfold PyStr.mem in Hnew. apply bool_decide_eq_false in Hnew.
      destruct (IH (seen ++ [url (listing j)]) (fresh ++ [j]))
        as (new & Heq & Hsub & Hnd & Hout).
      exists (j :: new). rewrite Heq. unfold Ledger.urls in *. rewrite fmap_cons.
      split; [by rewrite <- !app_assoc |].
      split; [by apply sublist_skip |].
      split.
      * apply NoDup_cons. split; [|done]. intros Hin.
        destruct (Hout _ Hin) as [Hnot _]. apply Hnot, elem_of_app. right.
        apply list_elem_of_singleton. done.
      * intros u Hu. apply elem_of_cons in Hu as [->|Hu]; [done |].
        destruct (Hout _ Hu) as [Hnot Hne']. split; [|done].
        intros Hin. apply Hnot, elem_of_app. by left.
    + destruct (IH seen fresh) as (new & Heq & Hsub & Hnd & Hout).
      exists new. rewrite Heq. split; [done |]. split; [by apply sublist_cons |]. done.
Qed.

Lemma tool_node_effect (st : State) (scrape : string -> Z -> list Listing)
  (tool : ToolCall) :
  phase1_last_tool_call st = Some tool ->
  name tool = "scrape_linkedin" ->
  let searched := Ledger.searched_title st tool in
  exists new,
    phase1_tool_node st scrape
    = set_current_batch new
        (set_seen_urls (seen_urls st ++ Ledger.urls new)
           (set_phase1_last_tool_call None
              (set_last_tried_title searched
                 (set_last_tried_page (page tool)
                    (set_phase1_tried_pairs
                       (phase1_tried_pairs st
                        ++ [{| attempt_title := searched; attempt_page := page tool;
                               jobs_returned := Z.of_nat (length new);
                               qualifying_added := None |}]) st)))))
    /\ sublist new (new_job <$> scrape searched (page tool))
    /\ NoDup (Ledger.urls new)
    /\ (forall u, u ∈ Ledger.urls new -> (u ∉ seen_urls st) /\ PyStr.nonempty u = true).
Proof.
  intros Hcall Hname searched. unfold phase1_tool_node. rewrite Hcall, Hname.
  change (negb (String.eqb "scrape_linkedin" "scrape_linkedin")) with false.
  cbv iota.
  destruct (dedup_effect (new_job <$> scrape searched (page tool)) (seen_urls st) [])
    as (new & Heq & Hsub & Hnd & Hout).
  exists new. fold (Ledger.searched_title st tool). fold searched.
  rewrite Heq. rewrite app_nil_l. done.
Qed.

(** X1 ([phase1_tool_node]).  With a call of the scraper pending, the tool
    node searches for the title of the call, or for the first suggested
    title when that is empty or not suggested.  Of the listings found it
    keeps, in order, some whose URLs are not empty, were not seen before and
    differ from one another; it appends their URLs to the seen ones and one
    entry to the attempt log, with the title searched, the page of the call
    and the number of the jobs kept, and it clears the call. *)
Theorem tool_node_appends_attempt (st : State)
  (scrape : string -> Z -> list Listing) (tool : ToolCall) :
  phase1_last_tool_call st = Some tool ->
  name tool = "scrape_linkedin" ->
  let searched := Ledger.searched_title st tool in
  let st' := phase1_tool_node st scrape in
  let fresh := current_batch st' in
  sublist fresh (new_job <$> scrape searched (page tool))
  /\ NoDup (Ledger.urls fresh)
  /\ Forall (fun j => (url (listing j) ∉ seen_urls st)
                      /\ PyStr.nonempty (url (listing j)) = true) fresh
  /\ seen_urls st' = seen_urls st ++ Ledger.urls fresh
  /\ phase1_tried_pairs st'
     = phase1_tried_pairs st
       ++ [{| attempt_title := searched; attempt_page := page tool;
              jobs_returned := Z.of_nat (length fresh); qualifying_added := None |}]
  /\ phase1_last_tool_call st' = None
  /\ last_tried_title st' = searched /\ last_tried_page st' = page tool
  /\ qualifying_jobs st' = qualifying_jobs st.
Proof.
  intros Hcall Hname searched st' fresh.
  destruct (tool_node_effect st scrape tool Hcall Hname)
    as (new & Heq & Hsub & Hnd & Hout).
  assert (Hfresh : fresh = new) by (subst fresh st'; rewrite Heq; by destruct st).
  subst st'. rewrite Hfresh, Heq. fold searched.
  split; [done |]. split; [done |]. split.
  { apply Forall_forall. intros j Hj. apply Hout. unfold Ledger.urls.
    apply list_elem_of_fmap. by exists j. }
  by destruct st.
Qed.

Lemma collect_added (score_map : gmap Z Z) (batch : list Job) (i : Z)
  (qualifying : list Job) (added : Z) :
  (collect score_map batch i qualifying added).2
  = added + Z.of_nat (length (filter (fun j => reaches_threshold j = true)
                                     (scored score_map i batch))).
Proof.
  revert i qualifying added; induction batch as [|j batch IH];
    intros i qualifying added.
  - cbn. lia.
  - cbn [collect]. unfold scored. rewrite imap_cons, filter_cons.
    assert (Htail : imap ((fun k j0 =>
                             set_score (Some (score_at score_map (i + Z.of_nat k))) j0)
                          ∘ S) batch
                    = scored score_map (i + 1) batch).
    { unfold scored. apply imap_ext. intros k x _. simpl.
      by replace (i + Z.of_nat (S k)) with (i + 1 + Z.of_nat k) by lia. }
    rewrite Htail.
    assert (Hhead : reaches_threshold
                      (set_score (Some (score_at score_map (i + Z.of_nat 0))) j)
                    = (V3_SCORE_THRESHOLD <=? score_at score_map i)).
    { unfold reaches_threshold. replace (i + Z.of_nat 0) with i by lia.
      by destruct j. }
    rewrite Hhead.
    destruct (V3_SCORE_THRESHOLD <=? score_at score_map i) eqn:E.
    + rewrite decide_True by done. rewrite IH. cbn [length]. lia.
    + rewrite decide_False by done. apply IH.
Qed.

Lemma score_batch_effect (st st' : State) (text : string) :
  score_batch_node st text = Some st' ->
  (current_batch st = []
   /\ st' = set_current_batch []
              (set_last_scrape_result_count 0
                 (set_last_qualifying_added_count 0
                    (set_phase1_tried_pairs (phase1_tried_pairs st) st))))
  \/ (current_batch st <> []
      /\ exists score_map,
           let new := filter (fun j => reaches_threshold j = true)
                             (scored score_map 0 (current_batch st)) in
           (if PyStr.nonempty (PyStr.strip text)
            then score_map_of (Parser._extract_json_array text) ∅
            else Some ∅) = Some score_map
           /\ st' = set_qualifying_jobs (qualifying_jobs st ++ new)
                   (set_current_batch []
                      (set_last_scrape_result_count
                         (Z.of_nat (length (current_batch st)))
                         (set_last_qualifying_added_count (Z.of_nat (length new))
                            (set_phase1_rounds (phase1_rounds st + 1)
                               (set_phase1_tried_pairs
                                  (annotate_last (phase1_tried_pairs st)
                                     (Z.of_nat (length new))) st)))))).
Proof.
  unfold score_batch_node. intros Hnode.
  destruct (current_batch st) as [|j batch] eqn:Eb.
  - left. split; [done |]. cbn in Hnode. by injection Hnode as <-.
  - right. split; [done |]. cbn [is_nil] in Hnode.
    apply bind_Some in Hnode as (score_map & Hmap & Hnode).
    exists score_map. split; [exact Hmap |].
    pose proof (collect_appends score_map (j :: batch) 0 (qualifying_jobs st) 0) as H1.
    pose proof (collect_added score_map (j :: batch) 0 (qualifying_jobs st) 0) as H2.
    destruct (collect score_map (j :: batch) 0 (qualifying_jobs st) 0)
      as [qualifying added].
    cbn [fst snd] in H1, H2. rewrite Z.add_0_l in H2. subst qualifying added.
    by injection Hnode as <-.
Qed.

(** What a node of the enrichment passes returns: new qualifying jobs, as
    many as before, and a phase for the log. *)
Lemma enrichment_effect (c c' : node * State) :
  step c c' -> enriches c.1 ->
  exists jobs' phase,
    c'.2 = set_qualifying_jobs jobs' (set_log_phase phase c.2)
    /\ listing <$> jobs' = listing <$> qualifying_jobs c.2
    /\ c'.1 <> phase1_tools /\ c'.1 <> score_batch.
Proof.
  intros Hstep Hnode. unfold enriches in Hnode.
  destruct Hstep as
    [st text | st reply st' Hn | st scrape | st text st' Hn
    | st answer st' Hn | st answer st' Hn | st text st' Hn
    | st answer st' Hn]; cbn [fst snd] in *;
    try (destruct Hnode as [?|[?|[?|?]]]; discriminate).
  - pose proof (resume_modifier_proj listing st st' answer
                  ltac:(by intros ? []) Hn) as Hl.
    unfold resume_modifier_agent_node in Hn.
    apply bind_Some in Hn as (jobs' & _ & [= <-]).
    exists jobs', 1. split; [done |]. split; [|done]. by destruct st.
  - pose proof (project_proposer_proj listing st st' answer
                  ltac:(by intros ? []) Hn) as Hl.
    unfold project_proposer_node in Hn.
    apply bind_Some in Hn as (jobs' & _ & [= <-]).
    exists jobs', 2. split; [done |]. split; [|done]. by destruct st.
  - pose proof (future_scores_proj listing st st' text
                  ltac:(by intros ? []) ltac:(by intros ? []) Hn) as Hl.
    unfold future_scores_node in Hn.
    apply bind_Some in Hn as (jobs' & _ & [= <-]).
    exists jobs', (_log_phase st). split; [by destruct st |]. split; [|done].
    by destruct st.
  - pose proof (relevance_summary_proj listing st st' answer
                  ltac:(by intros ? []) Hn) as Hl.
    unfold relevance_summary_node in Hn.
    apply bind_Some in Hn as (jobs' & _ & [= <-]).
    exists jobs', (_log_phase st). split; [by destruct st |]. split; [|done].
    by destruct st.
Qed.

Lemma enriches_dec (n : node) : enriches n \/ ~ enriches n.
Proof.
  unfold enriches. destruct n;
    first [ left; tauto | right; intros [?|[?|[?|?]]]; discriminate ].
Qed.

(** ** The ledger of the discovery loop *)

Lemma total_returned_app (log : list Attempt) (e : Attempt) :
  Ledger.total_returned (log ++ [e]) = Ledger.total_returned log + jobs_returned e.
Proof.
  unfold Ledger.total_returned.
  induction log as [|x log IH]; cbn; [lia |]. rewrite IH. lia.
Qed.

Lemma total_added_app (log : list Attempt) (e : Attempt) :
  Ledger.total_added (log ++ [e])
  = Ledger.total_added log + default 0 (qualifying_added e).
Proof.
  unfold Ledger.total_added.
  induction log as [|x log IH]; cbn; [lia |]. rewrite IH. lia.
Qed.

Lemma annotate_last_app (log : list Attempt) (e : Attempt) (added : Z) :
  annotate_last (log ++ [e]) added = log ++ [set_qualifying_added (Some added) e].
Proof.
  induction log as [|x log IH]; [reflexivity |].
  cbn [app annotate_last]. rewrite IH.
  destruct (log ++ [e]) eqn:E; [by destruct log | done].
Qed.

Lemma ledger_step (c c' : node * State) :
  step c c' -> Ledger.ledger c -> Ledger.ledger c'.
Proof.
  intros Hstep (Hcall & Hentry & Hseen & Hqual).
  destruct (enriches_dec c.1) as [Hen|Hen].
  { destruct (enrichment_effect _ _ Hstep Hen) as (jobs' & ph & Heq & Hl & Hn1 & Hn2).
    apply (f_equal length) in Hl. rewrite !length_fmap in Hl.
    unfold Ledger.ledger. rewrite Heq.
    split; [done |]. split; [done |].
    split; [by destruct c as [n []] |].
    destruct c as [n []]; cbn in *. by rewrite Hl. }
  destruct Hstep as
    [st text | st reply st' Hn | st scrape | st text st' Hn
    | st answer st' Hn | st answer st' Hn | st text st' Hn
    | st answer st' Hn]; cbn [fst snd] in *;
    try (exfalso; apply Hen; unfold enriches; tauto).
  - split; [done |]. split; [done |]. by destruct st.
  - apply agent_node_effect in Hn as (call & -> & Hname).
    split.
    { intros Hroute. unfold phase1_route in Hroute.
      repeat case_match; try discriminate.
      destruct st; cbn in *; simplify_eq. eexists. split; [done |]. by apply Hname. }
    split.
    { intros Hroute. unfold phase1_route in Hroute.
      repeat case_match; discriminate. }
    by destruct st.
  - destruct (Hcall eq_refl) as (tool & Htool & Hname).
    destruct (tool_node_effect st scrape tool Htool Hname)
      as (new & -> & _ & _ & _).
    split; [done |]. split.
    { intros _. eexists _, _. split; [by destruct st |]. by destruct st. }
    split.
    + destruct st; cbn in *. rewrite total_returned_app, length_app. cbn.
      unfold Ledger.urls. rewrite length_fmap. lia.
    + destruct st; cbn in *. rewrite total_added_app. cbn. lia.
  - destruct (Hentry eq_refl) as (log & e & Hlog & _ & _ & Hret & Hadd).
    apply score_batch_effect in Hn as [[Hb ->] | [Hb (score_map & _ & ->)]].
    + split; [done |]. split; [done |]. by destruct st.
    + split; [done |]. split; [done |]. split.
      * destruct st; cbn in *. subst. rewrite annotate_last_app.
        rewrite !total_returned_app in *. by destruct e.
      * destruct st; cbn in *. subst. rewrite annotate_last_app.
        rewrite !total_added_app in *. rewrite length_app. destruct e; cbn in *.
        subst. cbn in Hqual. lia.
Qed.

End ReachFacts.

Section StageFacts.
Import PyStr V3 Spec Stage.

Lemma Forall_proj {A} (p : Job -> A) (P : Job -> Prop) (l l' : list Job) :
  (forall j j', p j' = p j -> P j -> P j') ->
  p <$> l' = p <$> l -> Forall P l -> Forall P l'.
Proof.
  intros HP. revert l'; induction l as [|j l IH]; intros [|j' l'] Heq Hall; try done.
  injection Heq as Hj Hl. apply Forall_cons in Hall as [Hj0 Hall].
  apply Forall_cons. split; [by eapply HP | by apply IH].
Qed.

Lemma run_batches_Forall_keeps (P : Job -> Prop) (size : nat)
  (f : nat -> list Job -> option (list Job)) (fuel k : nat) (jobs jobs' : list Job) :
  (forall k b b', f k b = Some b' -> Forall P b -> Forall P b') ->
  Forall P jobs ->
  run_batches size f fuel k jobs = Some jobs' ->
  Forall P jobs'.
Proof.
  intros Hf. revert k jobs jobs'; induction fuel as [|fuel IH]; intros k jobs jobs' Hall.
  - by intros [= <-].
  - destruct jobs as [|j jobs]; [by intros [= <-] |].
    cbn [run_batches]. intros Hrun.
    apply bind_Some in Hrun as (done' & Hdone & Hrun).
    apply bind_Some in Hrun as (rest & Hrest & [= <-]).
    apply Forall_app. split.
    + eapply Hf; [exact Hdone |]. by apply Forall_take.
    + eapply IH; [|exact Hrest]. by apply Forall_drop.
Qed.

Lemma run_batches_Forall_makes (P : Job -> Prop) (size : nat)
  (f : nat -> list Job -> option (list Job)) (fuel k : nat) (jobs jobs' : list Job) :
  (0 < size)%nat -> (length jobs <= fuel)%nat ->
  (forall k b b', f k b = Some b' -> Forall P b') ->
  run_batches size f fuel k jobs = Some jobs' ->
  Forall P jobs'.
Proof.
  intros Hsize Hfuel Hf.
  revert k jobs jobs' Hfuel; induction fuel as [|fuel IH]; intros k jobs jobs' Hfuel.
  - destruct jobs; [|cbn in Hfuel; lia]. by intros [= <-].
  - destruct jobs as [|j jobs]; [by intros [= <-] |].
    cbn [run_batches]. intros Hrun.
    apply bind_Some in Hrun as (done' & Hdone & Hrun).
    apply bind_Some in Hrun as (rest & Hrest & [= <-]).
    apply Forall_app. split; [by eapply Hf |].
    eapply IH; [|exact Hrest]. rewrite length_drop. cbn [length] in *. lia.
Qed.

(** With enough fuel every batch function that answers lets the loop
    answer. *)
Lemma run_batches_Some (size : nat) (f : nat -> list Job -> option (list Job))
  (fuel k : nat) (jobs : list Job) :
  (forall k b, b <> [] -> is_Some (f k b)) ->
  (0 < size)%nat ->
  is_Some (run_batches size f fuel k jobs).
Proof.
  intros Hf Hsize. revert k jobs; induction fuel as [|fuel IH]; intros k jobs.
  - by destruct jobs.
  - destruct jobs as [|j jobs]; [done |]. cbn [run_batches].
    destruct (Hf k (take size (j :: jobs))) as [done' ->].
    { destruct size; [lia | done]. }
    destruct (IH (S k) (drop size (j :: jobs))) as [rest ->]. done.
Qed.

Lemma suggestion_at_nonempty (parts : list string) (i : nat) :
  nonempty (suggestion_at parts i) = true.
Proof. unfold suggestion_at. by case_match. Qed.

Lemma suggest_batch_makes (text : string) (batch batch' : list Job) :
  suggest_batch text batch = Some batch' -> Forall has_suggestions batch'.
Proof.
  unfold suggest_batch. case_match.
  - intros [= <-]. apply Forall_fmap, Forall_forall. intros j _.
    exists NO_SUGGESTIONS. by destruct j.
  - intros Hb. apply bind_Some in Hb as (parts & _ & [= <-]).
    apply Forall_forall. intros j Hj.
    apply elem_of_lookup_imap_1 in Hj as (i & x & -> & _).
    exists (suggestion_at parts i). split; [by destruct x | apply suggestion_at_nonempty].
Qed.

Lemma split_batch_suggestions_Some (text : string) (count : Z) :
  1 <= count -> is_Some (Parser._split_batch_suggestions text count).
Proof.
  intros Hc. unfold Parser._split_batch_suggestions, Parser.try_markers.
  set (blank := replicate (Z.to_nat count) "").
  assert (Hb : length blank = Z.to_nat count) by apply length_replicate.
  destruct (try_markers_from_length text (upper text)
              (Parser.numbered "## JOB " count) 0 blank)
    as (p1 & -> & H1); [lia | rewrite length_numbered; lia |].
  simpl. destruct (Parser.any_part p1); [done |].
  destruct (try_markers_from_length text (upper text)
              (Parser.numbered "### JOB " count) 0 blank)
    as (p2 & -> & H2); [lia | rewrite length_numbered; lia |].
  simpl. destruct (Parser.any_part p2); [done |].
  destruct (lenient_length text (upper text) (Z.to_nat count)
              (seq 0 (Z.to_nat count)) blank) as (p3 & -> & H3).
  { apply Forall_forall. intros i Hi. apply elem_of_seq in Hi. lia. }
  simpl. destruct (Parser.any_part p3); [done |].
  destruct (fallback_length text count p3) as (p4 & -> & H4); [lia | lia |]. done.
Qed.

Lemma suggest_batch_Some (text : string) (batch : list Job) :
  batch <> [] -> is_Some (suggest_batch text batch).
Proof.
  intros Hne. unfold suggest_batch. case_match; [done |].
  destruct (split_batch_suggestions_Some text (Z.of_nat (length batch))) as [parts ->].
  { destruct batch; [done | cbn; lia]. }
  done.
Qed.

Lemma resume_modifier_Some (st : State) (answer : nat -> string) :
  is_Some (resume_modifier_agent_node st answer).
Proof.
  destruct (run_batches_Some BATCH_SIZE (fun k => suggest_batch (answer k))
              (length (qualifying_jobs st)) 0 (qualifying_jobs st))
    as [jobs' Hrun].
  { intros k b Hb. by apply suggest_batch_Some. }
  { unfold BATCH_SIZE. lia. }
  unfold resume_modifier_agent_node. by rewrite Hrun.
Qed.

Lemma resume_modifier_makes (st st' : State) (answer : nat -> string) :
  resume_modifier_agent_node st answer = Some st' ->
  Forall has_suggestions (qualifying_jobs st').
Proof.
  unfold resume_modifier_agent_node. intros Hnode.
  apply bind_Some in Hnode as (jobs' & Hrun & [= <-]).
  assert (Hq : qualifying_jobs (set_qualifying_jobs jobs' (set_log_phase 1 st)) = jobs')
    by (by destruct st).
  rewrite Hq.
  eapply (run_batches_Forall_makes has_suggestions); [| | |exact Hrun];
    [unfold BATCH_SIZE; lia | done |].
  intros k b b'. apply suggest_batch_makes.
Qed.

Context `{Py.Runtime}.

Lemma propose_items_keeps (items : list Py.dict) (batch batch' : list Job) :
  propose_items items batch = Some batch' ->
  Forall has_projects batch -> Forall has_projects batch'.
Proof.
  revert batch; induction items as [|item items IH]; intros batch.
  - by intros [= <-].
  - cbn [propose_items]. intros Hrun Hall.
    repeat case_match; simplify_eq; try done; try (by eapply IH);
      (eapply IH; [eassumption |]; apply Forall_alter; [done |];
       intros x _ _; destruct x; by eexists).
Qed.

Lemma project_proposer_makes (st st' : State) (answer : nat -> string) :
  project_proposer_node st answer = Some st' ->
  Forall has_projects (qualifying_jobs st').
Proof.
  unfold project_proposer_node. intros Hnode.
  apply bind_Some in Hnode as (jobs' & Hrun & [= <-]).
  assert (Hq : qualifying_jobs (set_qualifying_jobs jobs' (set_log_phase 2 st)) = jobs')
    by (by destruct st).
  rewrite Hq.
  eapply (run_batches_Forall_keeps has_projects); [| |exact Hrun].
  - intros k b b'. unfold propose_batch. case_match.
    + apply propose_items_keeps.
    + by intros [= <-].
  - apply Forall_fmap, Forall_forall. intros j _. unfold default_projects, has_projects.
    cbn [compose]. destruct (project_suggestions j) eqn:E; [by rewrite E |].
    destruct j; by eexists.
Qed.

Lemma default_future_makes (j : Job) :
  unforecast j -> -10 <= default 50 (score j) -> has_forecast (default_future j).
Proof.
  intros [Hf Hi] Hsc. unfold default_future. rewrite Hf.
  destruct j as [l sc rs ps fs ip br]; cbn in *. subst.
  exists (Z.min 100 (default 50 sc + 10)). cbn. split; [done |]. split; [lia | done].
Qed.

Lemma set_future_makes (v : Z) (j : Job) : has_forecast (set_future v j).
Proof.
  exists (Z.max 0 (Z.min 100 v)). destruct j; cbn. split; [done |]. split; [lia | done].
Qed.

Lemma future_items_keeps (items : list Py.dict) (jobs jobs' : list Job) :
  future_items items jobs = Some jobs' ->
  Forall has_forecast jobs -> Forall has_forecast jobs'.
Proof.
  revert jobs; induction items as [|item items IH]; intros jobs.
  - by intros [= <-].
  - cbn [future_items]. intros Hrun Hall.
    repeat case_match; try discriminate; try (by eapply IH);
      (eapply IH; [exact Hrun |]; apply Forall_alter; [done |];
       intros x _ _; apply set_future_makes).
Qed.

Lemma future_scores_makes (st st' : State) (text : string) :
  Forall (fun j => unforecast j /\ -10 <= default 50 (score j)) (qualifying_jobs st) ->
  future_scores_node st text = Some st' ->
  Forall has_forecast (qualifying_jobs st').
Proof.
  intros Hall. unfold future_scores_node. intros Hnode.
  apply bind_Some in Hnode as (jobs' & Hrun & [= <-]).
  assert (Hq : qualifying_jobs (set_qualifying_jobs jobs' st) = jobs')
    by (by destruct st).
  rewrite Hq.
  assert (Hdef : Forall has_forecast (default_future <$> qualifying_jobs st)).
  { apply Forall_fmap. eapply Forall_impl; [exact Hall |].
    intros j [Hu Hs]. by apply default_future_makes. }
  case_match; [by eapply future_items_keeps | by injection Hrun as <-].
Qed.

(** ** The stages of a run *)

Lemma unforecast_proj (j j' : Job) :
  (future_score j', improvement_potential j') = (future_score j, improvement_potential j) ->
  unforecast j -> unforecast j'.
Proof. intros [= Hf Hi] [? ?]. split; congruence. Qed.

Lemma has_suggestions_proj (j j' : Job) :
  resume_suggestions j' = resume_suggestions j -> has_suggestions j -> has_suggestions j'.
Proof. intros Heq (s & Hs & Hne). exists s. split; congruence. Qed.

Lemma has_projects_proj (j j' : Job) :
  project_suggestions j' = project_suggestions j -> has_projects j -> has_projects j'.
Proof. unfold has_projects. by intros ->. Qed.

Lemma has_forecast_proj (j j' : Job) :
  (score j', future_score j', improvement_potential j')
  = (score j, future_score j, improvement_potential j) ->
  has_forecast j -> has_forecast j'.
Proof.
  intros [= Hs Hf Hi] (fs & Hfs & Hr & Hip). exists fs.
  split; [congruence |]. split; [done |]. congruence.
Qed.

Lemma new_job_unforecast (l : Listing) : unforecast (new_job l).
Proof. done. Qed.

Lemma tool_node_batch (st : State) (scrape : string -> Z -> list Listing) :
  qualifying_jobs (phase1_tool_node st scrape) = qualifying_jobs st
  /\ exists found, sublist (current_batch (phase1_tool_node st scrape))
                           (new_job <$> found).
Proof.
  destruct (phase1_last_tool_call st) as [tool|] eqn:Etool.
  - destruct (decide (name tool = "scrape_linkedin")) as [Hname|Hname].
    + destruct (tool_node_effect st scrape tool Etool Hname)
        as (new & -> & Hsub & _ & _).
      split; [by destruct st |]. eexists. by destruct st.
    + rewrite tool_node_quiet by (right; by exists tool).
      split; [by destruct st |]. exists []. by destruct st.
  - rewrite tool_node_quiet by (by left).
    split; [by destruct st |]. exists []. by destruct st.
Qed.

Lemma scored_unforecast (score_map : gmap Z Z) (i : Z) (batch : list Job) :
  Forall unforecast batch ->
  Forall unforecast (filter (fun j => reaches_threshold j = true)
                            (scored score_map i batch)).
Proof.
  intros Hall. apply Forall_forall. intros j Hj.
  apply list_elem_of_filter in Hj as [_ Hj]. unfold scored in Hj.
  apply elem_of_lookup_imap_1 in Hj as (k & x & -> & Hx).
  assert (Hu : unforecast x).
  { eapply Forall_forall in Hall; [exact Hall |]. by eapply list_elem_of_lookup_2. }
  by destruct x.
Qed.

Lemma phase1_route_cases (st : State) :
  phase1_route st = resume_modifier_agent
  \/ phase1_route st = phase1_tools \/ phase1_route st = phase1_agent.
Proof. unfold phase1_route. repeat case_match; tauto. Qed.

Lemma stage_step (c c' : node * State) :
  reachable c -> step c c' -> stage c -> stage c'.
Proof.
  intros Hreach Hstep Hst.
  pose proof (reachable_qualifies c Hreach) as Hq.
  destruct Hstep as
    [st text | st reply st' Hn | st scrape | st text st' Hn
    | st answer st' Hn | st answer st' Hn | st text st' Hn
    | st answer st' Hn]; unfold stage in *; cbn [fst snd] in *.
  - by destruct st.
  - apply agent_node_effect in Hn as (call & -> & _).
    destruct (phase1_route_cases (set_phase1_last_tool_call call st)) as [-> | [-> | ->]];
      by destruct st.
  - destruct (tool_node_batch st scrape) as [-> (found & Hsub)].
    apply Forall_app in Hst as [Hqj _]. apply Forall_app. split; [done |].
    apply Forall_forall. intros j Hj.
    apply (elem_of_sublist _ _ _ Hj) in Hsub.
    apply list_elem_of_fmap in Hsub as (l & -> & _). apply new_job_unforecast.
  - apply Forall_app in Hst as [Hqj Hb].
    apply score_batch_effect in Hn as [[_ ->] | [_ (score_map & _ & ->)]].
    + rewrite app_nil_r. by destruct st.
    + assert (Hgoal : Forall unforecast
                        (qualifying_jobs st
                         ++ filter (fun j => reaches_threshold j = true)
                                   (scored score_map 0 (current_batch st)))).
      { apply Forall_app. split; [done | by apply scored_unforecast]. }
      destruct st; cbn in *. by rewrite app_nil_r.
  - apply Forall_app in Hst as [Hqj _]. split.
    + eapply (Forall_proj (fun j => (future_score j, improvement_potential j)));
        [apply unforecast_proj | | exact Hqj].
      eapply resume_modifier_proj; [|exact Hn]. by intros ? [].
    + by eapply resume_modifier_makes.
  - destruct Hst as [Hu Hs]. split; [|split].
    + eapply (Forall_proj (fun j => (future_score j, improvement_potential j)));
        [apply unforecast_proj | | exact Hu].
      eapply project_proposer_proj; [|exact Hn]. by intros ? [].
    + eapply (Forall_proj resume_suggestions); [apply has_suggestions_proj | | exact Hs].
      eapply project_proposer_proj; [|exact Hn]. by intros ? [].
    + by eapply project_proposer_makes.
  - destruct Hst as (Hu & Hs & Hp). split; [|split].
    + eapply (Forall_proj resume_suggestions); [apply has_suggestions_proj | | exact Hs].
      eapply future_scores_proj; [| |exact Hn]; by intros ? [].
    + eapply (Forall_proj project_suggestions); [apply has_projects_proj | | exact Hp].
      eapply future_scores_proj; [| |exact Hn]; by intros ? [].
    + eapply future_scores_makes; [|exact Hn].
      apply Forall_forall. intros j Hj. split.
      * by eapply Forall_forall in Hu.
      * eapply Forall_forall in Hq; [|exact Hj].
        destruct Hq as (sc & -> & Hsc). cbn. unfold V3_SCORE_THRESHOLD in Hsc. lia.
  - destruct Hst as (Hs & Hp & Hf). split; [|split].
    + eapply (Forall_proj resume_suggestions); [apply has_suggestions_proj | | exact Hs].
      eapply relevance_summary_proj; [|exact Hn]. by intros ? [].
    + eapply (Forall_proj project_suggestions); [apply has_projects_proj | | exact Hp].
      eapply relevance_summary_proj; [|exact Hn]. by intros ? [].
    + eapply (Forall_proj (fun j => (score j, future_score j, improvement_potential j)));
        [apply has_forecast_proj | | exact Hf].
      eapply relevance_summary_proj; [|exact Hn]. by intros ? [].
Qed.

Lemma reachable_stage (c : node * State) : reachable c -> stage c.
Proof.
  apply reachable_invariant.
  - intros r cl jt. unfold stage. cbn. constructor.
  - apply stage_step.
Qed.

End StageFacts.

Section CatalogueFacts.
Import V3 Spec Ledger.
Context `{Py.Runtime}.

Lemma urls_app (l1 l2 : list Job) :
  Ledger.urls (l1 ++ l2) = Ledger.urls l1 ++ Ledger.urls l2.
Proof. unfold Ledger.urls. apply fmap_app. Qed.

Lemma urls_listing (l l' : list Job) :
  listing <$> l' = listing <$> l -> Ledger.urls l' = Ledger.urls l.
Proof.
  intros Heq. unfold Ledger.urls.
  rewrite !(list_fmap_compose listing url). by rewrite Heq.
Qed.

Lemma urls_scored (score_map : gmap Z Z) (i : Z) (batch : list Job) :
  Ledger.urls (scored score_map i batch) = Ledger.urls batch.
Proof.
  apply urls_listing. unfold scored. apply proj_imap. by intros ? [].
Qed.

Lemma catalogue_step (c c' : node * State) :
  step c c' -> catalogue c.2 -> catalogue c'.2.
Proof.
  intros Hstep (Hseen & Hnd & Hin).
  destruct (enriches_dec c.1) as [Hen|Hen].
  { destruct (enrichment_effect _ _ Hstep Hen) as (jobs' & ph & Heq & Hl & _).
    apply urls_listing in Hl. unfold catalogue. rewrite Heq.
    destruct c as [n st]; cbn [fst snd] in *.
    rewrite urls_app in Hnd, Hin.
    assert (Hs : seen_urls (set_qualifying_jobs jobs' (set_log_phase ph st))
                 = seen_urls st) by (by destruct st).
    assert (Hq : qualifying_jobs (set_qualifying_jobs jobs' (set_log_phase ph st))
                 = jobs') by (by destruct st).
    assert (Hb : current_batch (set_qualifying_jobs jobs' (set_log_phase ph st))
                 = current_batch st) by (by destruct st).
    rewrite Hs, Hq, Hb, urls_app, Hl. done. }
  destruct Hstep as
    [st text | st reply st' Hn | st scrape | st text st' Hn
    | st answer st' Hn | st answer st' Hn | st text st' Hn
    | st answer st' Hn]; cbn [fst snd] in *;
    try (exfalso; apply Hen; unfold enriches; tauto).
  - by destruct st.
  - apply agent_node_effect in Hn as (call & -> & _). by destruct st.
  - rewrite urls_app in Hnd, Hin. apply NoDup_app in Hnd as (Hndq & _ & _).
    assert (Hinq : forall u, u ∈ Ledger.urls (qualifying_jobs st) ->
                             u ∈ seen_urls st /\ PyStr.nonempty u = true).
    { intros u Hu. apply Hin, elem_of_app. by left. }
    destruct (phase1_last_tool_call st) as [tool|] eqn:Etool;
      [destruct (decide (name tool = "scrape_linkedin")) as [Hname|Hname] | ].
    + destruct (tool_node_effect st scrape tool Etool Hname)
        as (new & -> & _ & Hndn & Hout).
      unfold catalogue.
      assert (Hs : forall a b c d e f,
                 seen_urls (set_current_batch a (set_seen_urls b
                   (set_phase1_last_tool_call c (set_last_tried_title d
                     (set_last_tried_page e (set_phase1_tried_pairs f st)))))) = b)
        by (by destruct st).
      assert (Hq : forall a b c d e f,
                 qualifying_jobs (set_current_batch a (set_seen_urls b
                   (set_phase1_last_tool_call c (set_last_tried_title d
                     (set_last_tried_page e (set_phase1_tried_pairs f st))))))
                 = qualifying_jobs st)
        by (by destruct st).
      assert (Hb : forall a b c d e f,
                 current_batch (set_current_batch a (set_seen_urls b
                   (set_phase1_last_tool_call c (set_last_tried_title d
                     (set_last_tried_page e (set_phase1_tried_pairs f st)))))) = a)
        by (by destruct st).
      rewrite Hs, Hq, Hb, urls_app. split; [|split].
      * apply NoDup_app. split; [done |]. split; [|done].
        intros u Hu Hu'. by destruct (Hout u Hu').
      * apply NoDup_app. split; [done |]. split; [|done].
        intros u Hu Hu'. destruct (Hout u Hu') as [Hnot _].
        by destruct (Hinq u Hu).
      * intros u Hu. apply elem_of_app in Hu as [Hu|Hu].
        -- destruct (Hinq u Hu). split; [|done]. apply elem_of_app. by left.
        -- destruct (Hout u Hu). split; [|done]. apply elem_of_app. by right.
    + rewrite tool_node_quiet by (right; by exists tool).
      unfold catalogue.
      assert (Hs : seen_urls (set_current_batch [] (set_phase1_last_tool_call None st))
                   = seen_urls st) by (by destruct st).
      assert (Hq : qualifying_jobs (set_current_batch [] (set_phase1_last_tool_call None st))
                   = qualifying_jobs st) by (by destruct st).
      assert (Hb : current_batch (set_current_batch [] (set_phase1_last_tool_call None st))
                   = []) by (by destruct st).
      rewrite Hs, Hq, Hb, app_nil_r. done.
    + rewrite tool_node_quiet by (by left).
      unfold catalogue.
      assert (Hs : seen_urls (set_current_batch [] (set_phase1_last_tool_call None st))
                   = seen_urls st) by (by destruct st).
      assert (Hq : qualifying_jobs (set_current_batch [] (set_phase1_last_tool_call None st))
                   = qualifying_jobs st) by (by destruct st).
      assert (Hb : current_batch (set_current_batch [] (set_phase1_last_tool_call None st))
                   = []) by (by destruct st).
      rewrite Hs, Hq, Hb, app_nil_r. done.
  - apply score_batch_effect in Hn as [[Hb ->] | [Hb (score_map & _ & ->)]].
    + unfold catalogue. rewrite Hb, app_nil_r in Hnd, Hin.
      destruct st; cbn in *. rewrite app_nil_r. done.
    + set (new := filter (fun j => reaches_threshold j = true)
                         (scored score_map 0 (current_batch st))).
      assert (Hsub : sublist (Ledger.urls (qualifying_jobs st ++ new))
                             (Ledger.urls (qualifying_jobs st ++ current_batch st))).
      { rewrite !urls_app. apply sublist_app; [done |].
        rewrite <- (urls_scored score_map 0 (current_batch st)).
        unfold Ledger.urls. apply fmap_sublist, sublist_filter. }
      unfold catalogue.
      assert (Hgoal : NoDup (seen_urls st)
                      /\ NoDup (Ledger.urls ((qualifying_jobs st ++ new) ++ []))
                      /\ (forall u, u ∈ Ledger.urls ((qualifying_jobs st ++ new) ++ []) ->
                                    u ∈ seen_urls st /\ PyStr.nonempty u = true)).
      { rewrite app_nil_r. split; [done |]. split.
        - by eapply sublist_NoDup.
        - intros u Hu. apply Hin. by eapply elem_of_sublist. }
      by destruct st.
Qed.

Lemma reachable_catalogue (c : node * State) : reachable c -> catalogue c.2.
Proof.
  apply (reachable_invariant (fun c => catalogue c.2)).
  - intros r cl jt. unfold catalogue. cbn. split; [apply NoDup_nil_2 |].
    split; [apply NoDup_nil_2 |]. intros u Hu. by apply elem_of_nil in Hu.
  - intros c0 c1 _. apply catalogue_step.
Qed.

Lemma rounds_step (c c' : node * State) :
  step c c' -> rounds_bounded c -> rounds_bounded c'.
Proof.
  intros Hstep (Hr & Hbusy).
  destruct (enriches_dec c.1) as [Hen|Hen].
  { destruct (enrichment_effect _ _ Hstep Hen) as (jobs' & ph & Heq & _ & Hn1 & Hn2).
    unfold rounds_bounded. rewrite Heq. split; [by destruct c as [n []] |].
    intros [?|?]; done. }
  destruct Hstep as
    [st text | st reply st' Hn | st scrape | st text st' Hn
    | st answer st' Hn | st answer st' Hn | st text st' Hn
    | st answer st' Hn]; unfold rounds_bounded in *; cbn [fst snd] in *;
    try (exfalso; apply Hen; unfold enriches; tauto).
  - split; [by destruct st |]. intros [?|?]; discriminate.
  - apply agent_node_effect in Hn as (call & -> & _).
    split; [by destruct st |].
    intros Hroute. unfold phase1_route in Hroute.
    destruct (V3_TARGET_QUALIFYING_JOBS <=? _) eqn:E1; [by destruct Hroute |].
    destruct (V3_PHASE1_MAX_ROUNDS <=? _) eqn:E2; [by destruct Hroute |].
    destruct st; cbn in *. lia.
  - destruct (Hbusy (or_introl eq_refl)) as [Hlt Hq].
    assert (Hrounds : phase1_rounds (phase1_tool_node st scrape) = phase1_rounds st).
    { unfold phase1_tool_node. repeat case_match; by destruct st. }
    destruct (tool_node_batch st scrape) as [Hqj _].
    rewrite Hrounds, Hqj. split; [done |]. done.
  - destruct (Hbusy (or_intror eq_refl)) as [Hlt Hq].
    apply score_batch_effect in Hn as [[Hb ->] | [Hb (score_map & _ & ->)]].
    + split; [by destruct st |]. intros [?|?]; discriminate.
    + split; [destruct st; cbn in *; lia |]. intros [?|?]; discriminate.
Qed.

Lemma reachable_rounds (c : node * State) : reachable c -> rounds_bounded c.
Proof.
  apply reachable_invariant.
  - intros r cl jt. unfold rounds_bounded, V3_PHASE1_MAX_ROUNDS. cbn.
    split; [lia |]. intros [?|?]; discriminate.
  - intros c0 c1 _. apply rounds_step.
Qed.

Lemma reachable_ledger (c : node * State) : reachable c -> Ledger.ledger c.
Proof.
  apply reachable_invariant.
  - intros r cl jt. unfold Ledger.ledger. cbn. done.
  - intros c0 c1 _. apply ledger_step.
Qed.

End CatalogueFacts.

Lemma demo_searching_reachable : @V3.reachable Demo.demo_runtime Demo.searching.
Proof.
  exists "resume", "", "full_time".
  apply (@run_rtc Demo.demo_runtime (take 2 Demo.full_run)). vm_compute. reflexivity.
Qed.

Lemma demo_scoring_reachable : @V3.reachable Demo.demo_runtime Demo.scoring.
Proof.
  exists "resume", "", "full_time".
  apply (@run_rtc Demo.demo_runtime (take 3 Demo.full_run)). vm_compute. reflexivity.
Qed.

Lemma demo_modifying_reachable : @V3.reachable Demo.demo_runtime Demo.modifying.
Proof.
  exists "resume", "", "full_time".
  apply (@run_rtc Demo.demo_runtime (take 5 Demo.full_run)). vm_compute. reflexivity.
Qed.

Lemma demo_forecasting_reachable : @V3.reachable Demo.demo_runtime Demo.forecasting.
Proof.
  exists "resume", "", "full_time".
  apply (@run_rtc Demo.demo_runtime (take 7 Demo.full_run)). vm_compute. reflexivity.
Qed.

Lemma demo_modifying_step : @V3.step Demo.demo_runtime Demo.modifying Demo.proposing.
Proof.
  apply (@advance_step Demo.demo_runtime _ _ (V3.GeneratedPerBatch (fun _ => ""))).
  vm_compute. reflexivity.
Qed.

Lemma demo_finished_reachable : @V3.reachable Demo.demo_runtime Demo.finished.
Proof.
  exists "resume", "", "full_time".
  apply (@run_rtc Demo.demo_runtime Demo.full_run). vm_compute. reflexivity.
Qed.


Section DiscoveryInvariants.
Import V3 Spec.
Context `{Py.Runtime}.

(** X2 ([phase1_tool_node], [score_batch_node]).  In every configuration of
    a run the list of seen URLs holds no URL twice, and the qualifying jobs
    have distinct URLs, none of them empty, all of them seen: no listing
    qualifies twice. *)
Theorem qualifying_urls_distinct (c : node * State) :
  reachable c ->
  NoDup (seen_urls c.2)
  /\ NoDup (Ledger.urls (qualifying_jobs c.2))
  /\ Forall (fun j => url (listing j) ∈ seen_urls c.2
                      /\ PyStr.nonempty (url (listing j)) = true)
            (qualifying_jobs c.2).
Proof.
  intros Hreach. destruct (reachable_catalogue c Hreach) as (Hseen & Hnd & Hin).
  rewrite urls_app in Hnd, Hin. apply NoDup_app in Hnd as (Hq & _ & _).
  split; [done |]. split; [done |].
  apply Forall_forall. intros j Hj. apply Hin, elem_of_app. left.
  unfold Ledger.urls. apply list_elem_of_fmap. by exists j.
Qed.

(** X3 ([phase1_route], [score_batch_node]).  The round counter never
    leaves the range from 0 to [V3_PHASE1_MAX_ROUNDS]: at most fifteen
    batches are scored in a run. *)
Theorem phase1_rounds_bounded (c : node * State) :
  reachable c -> 0 <= phase1_rounds c.2 <= V3_PHASE1_MAX_ROUNDS.
Proof. intros Hreach. by destruct (reachable_rounds c Hreach). Qed.

(** X4 ([phase1_route], [phase1_agent_node]).  Whenever a run is at the
    tool node, a call of [scrape_linkedin] is pending, fewer than ten jobs
    qualify and fewer than fifteen rounds are counted: in a run the tool
    node always searches. *)
Theorem scraper_call_pending (c : node * State) :
  reachable c -> c.1 = phase1_tools ->
  Ledger.pending_call c.2
  /\ Z.of_nat (length (qualifying_jobs c.2)) < V3_TARGET_QUALIFYING_JOBS
  /\ phase1_rounds c.2 < V3_PHASE1_MAX_ROUNDS.
Proof.
  intros Hreach Hnode.
  destruct (reachable_ledger c Hreach) as (Hcall & _).
  destruct (reachable_rounds c Hreach) as (_ & Hbusy).
  destruct (Hbusy (or_introl Hnode)). split; [by apply Hcall | done].
Qed.

(** X5 ([phase1_tool_node], [score_batch_node]).  Whenever a run is at the
    scoring node, the last entry of the attempt log is the one of the
    search that produced the batch: its title and page are the last tried
    ones, its [jobs_returned] is the size of the batch, and it has no
    [qualifying_added] yet.  So the count the scoring node writes into the
    last entry goes to the right search. *)
Theorem attempt_entry_describes_batch (c : node * State) :
  reachable c -> c.1 = score_batch -> Ledger.pending_entry c.2.
Proof.
  intros Hreach Hnode. destruct (reachable_ledger c Hreach) as (_ & Hentry & _).
  by apply Hentry.
Qed.

(** X6 ([phase1_tool_node], [score_batch_node]).  The attempt log accounts
    for the run: the seen URLs are as many as the jobs the entries report
    as returned, and the qualifying jobs are as many as the entries report
    as added. *)
Theorem attempt_log_accounts (c : node * State) :
  reachable c ->
  Z.of_nat (length (seen_urls c.2)) = Ledger.total_returned (phase1_tried_pairs c.2)
  /\ Z.of_nat (length (qualifying_jobs c.2))
     = Ledger.total_added (phase1_tried_pairs c.2).
Proof.
  intros Hreach. by destruct (reachable_ledger c Hreach) as (_ & _ & ? & ?).
Qed.

End DiscoveryInvariants.

Lemma tool_node_appends_attempt_witness :
  NoDup (Ledger.urls (V3.current_batch
                        (V3.phase1_tool_node Demo.searching.2 Demo.ten_listings))).
Proof.
  apply (proj1 (proj2 (tool_node_appends_attempt Demo.searching.2 Demo.ten_listings
                         {| V3.name := "scrape_linkedin";
                            V3.job_title := "Software Engineer"; V3.page := 0 |}
                         eq_refl eq_refl))).
Defined.

Lemma qualifying_urls_distinct_witness :
  NoDup (Ledger.urls (V3.qualifying_jobs Demo.finished.2)).
Proof.
  exact (proj1 (proj2 (@qualifying_urls_distinct Demo.demo_runtime Demo.finished
                         demo_finished_reachable))).
Defined.

Lemma phase1_rounds_bounded_witness :
  0 <= V3.phase1_rounds Demo.finished.2 <= V3.V3_PHASE1_MAX_ROUNDS.
Proof.
  exact (@phase1_rounds_bounded Demo.demo_runtime Demo.finished demo_finished_reachable).
Defined.

Lemma scraper_call_pending_witness : Ledger.pending_call Demo.searching.2.
Proof.
  exact (proj1 (@scraper_call_pending Demo.demo_runtime Demo.searching
                  demo_searching_reachable eq_refl)).
Defined.

Lemma attempt_entry_describes_batch_witness : Ledger.pending_entry Demo.scoring.2.
Proof.
  exact (@attempt_entry_describes_batch Demo.demo_runtime Demo.scoring
           demo_scoring_reachable eq_refl).
Defined.

Lemma attempt_log_accounts_witness :
  Z.of_nat (length (V3.seen_urls Demo.finished.2)) = 10
  /\ Z.of_nat (length (V3.qualifying_jobs Demo.finished.2)) = 10.
Proof.
  exact (@attempt_log_accounts Demo.demo_runtime Demo.finished demo_finished_reachable).
Defined.

Section EnrichmentFacts.
Import V3 Spec Stage.

Lemma run_batches_id (size : nat) (f : nat -> list Job -> option (list Job))
  (fuel k : nat) (jobs : list Job) :
  (forall k b, f k b = Some b) -> run_batches size f fuel k jobs = Some jobs.
Proof.
  intros Hf. revert k jobs; induction fuel as [|fuel IH]; intros k jobs; [done |].
  destruct jobs as [|j jobs]; [done |]. cbn [run_batches].
  rewrite Hf, IH. cbn. by rewrite take_drop.
Qed.

Lemma run_batches_fmap (g : Job -> Job) (size : nat)
  (f : nat -> list Job -> option (list Job)) (fuel k : nat) (jobs : list Job) :
  (0 < size)%nat -> (length jobs <= fuel)%nat ->
  (forall k b, f k b = Some (g <$> b)) ->
  run_batches size f fuel k jobs = Some (g <$> jobs).
Proof.
  intros Hsize Hfuel Hf. revert k jobs Hfuel; induction fuel as [|fuel IH];
    intros k jobs Hfuel.
  - destruct jobs; [done | cbn in Hfuel; lia].
  - destruct jobs as [|j jobs]; [done |]. cbn [run_batches].
    rewrite Hf, IH by (rewrite length_drop; cbn [length] in *; lia).
    cbn. by rewrite <- fmap_app, take_drop.
Qed.

Lemma score_map_of_clamped (items : list Py.dict) (m m' : gmap Z Z) :
  clamped m -> score_map_of items m = Some m' -> clamped m'.
Proof.
  revert m; induction items as [|s items IH]; intros m Hm.
  - by intros [= <-].
  - cbn [score_map_of]. intros Hmap.
    repeat case_match; try discriminate; try (by eapply IH);
      (eapply IH; [|exact Hmap]; intros k' v' Hk;
       apply lookup_insert_Some in Hk as [[_ <-]|[_ Hk]]; [lia | by eapply Hm]).
Qed.

Lemma score_at_clamped (m : gmap Z Z) (i : Z) : clamped m -> 0 <= score_at m i <= 100.
Proof.
  intros Hm. unfold score_at. destruct (m !! i) as [v|] eqn:E; cbn; [by eapply Hm | lia].
Qed.

Lemma in_range_proj (j j' : Job) : score j' = score j -> in_range j -> in_range j'.
Proof. intros Heq (sc & Hs & Hr). exists sc. split; congruence. Qed.

Lemma scored_in_range (score_map : gmap Z Z) (i : Z) (batch : list Job) :
  clamped score_map ->
  Forall in_range (filter (fun j => reaches_threshold j = true)
                          (scored score_map i batch)).
Proof.
  intros Hm. apply Forall_forall. intros j Hj.
  apply list_elem_of_filter in Hj as [Hreach Hj]. unfold scored in Hj.
  apply elem_of_lookup_imap_1 in Hj as (k & x & -> & Hx).
  exists (score_at score_map (i + Z.of_nat k)).
  split; [by destruct x |].
  pose proof (score_at_clamped score_map (i + Z.of_nat k) Hm).
  unfold reaches_threshold in Hreach. destruct x; cbn in Hreach. lia.
Qed.

Context `{Py.Runtime}.

Lemma in_range_step (c c' : node * State) :
  step c c' ->
  Forall in_range (qualifying_jobs c.2) -> Forall in_range (qualifying_jobs c'.2).
Proof.
  intros Hstep Hall.
  destruct (enriches_dec c.1) as [Hen|Hen].
  { eapply (Forall_proj score); [apply in_range_proj | | exact Hall].
    by apply enrichment_keeps_scores. }
  destruct Hstep as
    [st text | st reply st' Hn | st scrape | st text st' Hn
    | st answer st' Hn | st answer st' Hn | st text st' Hn
    | st answer st' Hn]; cbn [fst snd] in *;
    try (exfalso; apply Hen; unfold enriches; tauto).
  - by destruct st.
  - apply agent_node_effect in Hn as (call & -> & _). by destruct st.
  - by destruct (tool_node_batch st scrape) as [-> _].
  - apply score_batch_effect in Hn as [[_ ->] | [_ (score_map & Hmap & ->)]].
    + by destruct st.
    + assert (Hm : clamped score_map).
      { destruct (PyStr.nonempty _).
        - eapply score_map_of_clamped; [|exact Hmap]. intros k v Hk.
          by rewrite lookup_empty in Hk.
        - injection Hmap as <-. intros k v Hk. by rewrite lookup_empty in Hk. }
      assert (Hgoal : Forall in_range
                        (qualifying_jobs st
                         ++ filter (fun j => reaches_threshold j = true)
                                   (scored score_map 0 (current_batch st)))).
      { apply Forall_app. split; [done | by apply scored_in_range]. }
      by destruct st.
Qed.

Lemma reachable_in_range (c : node * State) :
  reachable c -> Forall in_range (qualifying_jobs c.2).
Proof.
  apply (reachable_invariant (fun c => Forall in_range (qualifying_jobs c.2))).
  - intros r cl jt. constructor.
  - intros c0 c1 _. apply in_range_step.
Qed.

(** X7 ([score_batch_node]).  In every configuration of a run the score of
    each qualifying job lies between the threshold and 100: what the model
    answers is cut to the range from 0 to 100 before it is compared. *)
Theorem qualifying_scores_in_range (c : node * State) :
  reachable c -> Forall in_range (qualifying_jobs c.2).
Proof. apply reachable_in_range. Qed.

(** X8 ([resume_modifier_agent_node] and the passes after it).  A pass of
    the enrichment returns the qualifying jobs with the same listings in
    the same order, and leaves the seen URLs, the attempt log, the round
    counter and the suggested titles as they are; no search follows it. *)
Theorem enrichment_keeps_listings (c c' : node * State) :
  step c c' -> enriches c.1 ->
  listing <$> qualifying_jobs c'.2 = listing <$> qualifying_jobs c.2
  /\ seen_urls c'.2 = seen_urls c.2
  /\ phase1_tried_pairs c'.2 = phase1_tried_pairs c.2
  /\ phase1_rounds c'.2 = phase1_rounds c.2
  /\ suggested_titles c'.2 = suggested_titles c.2
  /\ (enriches c'.1 \/ c'.1 = END).
Proof.
  intros Hstep Hen.
  destruct (enrichment_effect _ _ Hstep Hen) as (jobs' & ph & Heq & Hl & _).
  rewrite Heq.
  assert (Hq : qualifying_jobs (set_qualifying_jobs jobs' (set_log_phase ph c.2)) = jobs')
    by (by destruct c as [n []]).
  rewrite Hq. split; [done |].
  split; [by destruct c as [n []] |]. split; [by destruct c as [n []] |].
  split; [by destruct c as [n []] |]. split; [by destruct c as [n []] |].
  unfold enriches in *.
  destruct Hstep; cbn [fst] in *;
    first [ destruct Hen as [?|[?|[?|?]]]; discriminate | tauto ].
Qed.

(** X9 ([resume_modifier_agent_node]).  The resume modifier answers for
    every state and every answer of the generation service: no batch is
    empty, so no assignment of the splitter is out of range.  It returns the
    qualifying jobs with their listings, each with a resume suggestion that
    is not empty; when the service is silent that suggestion is the
    fallback text. *)
Theorem resume_modifier_never_raises (st : State) (answer : nat -> string) :
  exists st',
    resume_modifier_agent_node st answer = Some st'
    /\ listing <$> qualifying_jobs st' = listing <$> qualifying_jobs st
    /\ Forall has_suggestions (qualifying_jobs st')
    /\ (silent answer ->
        qualifying_jobs st'
        = set_resume_suggestions (Some NO_SUGGESTIONS) <$> qualifying_jobs st).
Proof.
  destruct (resume_modifier_Some st answer) as [st' Hnode].
  exists st'. split; [done |]. split; [|split].
  - eapply resume_modifier_proj; [|exact Hnode]. by intros ? [].
  - by eapply resume_modifier_makes.
  - intros Hsilent. unfold resume_modifier_agent_node in Hnode.
    rewrite (run_batches_fmap (set_resume_suggestions (Some NO_SUGGESTIONS))) in Hnode.
    + injection Hnode as <-. by destruct st.
    + unfold BATCH_SIZE. lia.
    + done.
    + intros k b. unfold suggest_batch. by rewrite Hsilent.
Qed.

(** X10 ([project_proposer_node]).  When the project proposer returns, the
    qualifying jobs have their listings and resume suggestions as before
    and each carries project suggestions.  When the generation service is
    silent the node returns, and a job that had none carries the fallback
    text. *)
Theorem project_proposer_sets_projects (st : State) (answer : nat -> string) :
  (forall st',
     project_proposer_node st answer = Some st' ->
     listing <$> qualifying_jobs st' = listing <$> qualifying_jobs st
     /\ resume_suggestions <$> qualifying_jobs st'
        = resume_suggestions <$> qualifying_jobs st
     /\ Forall has_projects (qualifying_jobs st'))
  /\ (silent answer ->
      project_proposer_node st answer
      = Some (set_qualifying_jobs (default_projects <$> qualifying_jobs st)
                (set_log_phase 2 st))).
Proof.
  split.
  - intros st' Hnode. split; [|split].
    + eapply project_proposer_proj; [|exact Hnode]. by intros ? [].
    + eapply project_proposer_proj; [|exact Hnode]. by intros ? [].
    + by eapply project_proposer_makes.
  - intros Hsilent. unfold project_proposer_node.
    rewrite run_batches_id; [done |].
    intros k b. unfold propose_batch. by rewrite Hsilent.
Qed.

(** X11 ([future_scores_node]).  When the jobs carry no prediction yet and
    their scores are not below -10, every job the node returns has a
    predicted score between 0 and 100 and an improvement potential that is
    the predicted score minus the score; listings and scores are as
    before. *)
Theorem future_scores_sets_forecast (st st' : State) (text : string) :
  Forall (fun j => unforecast j /\ -10 <= default 50 (score j)) (qualifying_jobs st) ->
  future_scores_node st text = Some st' ->
  listing <$> qualifying_jobs st' = listing <$> qualifying_jobs st
  /\ score <$> qualifying_jobs st' = score <$> qualifying_jobs st
  /\ Forall has_forecast (qualifying_jobs st').
Proof.
  intros Hall Hnode. split; [|split].
  - eapply future_scores_proj; [| |exact Hnode]; by intros ? [].
  - eapply future_scores_proj; [| |exact Hnode]; by intros ? [].
  - by eapply future_scores_makes.
Qed.

Lemma length_future_items (items : list Py.dict) (jobs jobs' : list Job) :
  future_items items jobs = Some jobs' -> length jobs' = length jobs.
Proof.
  intros Hrun. apply (future_items_proj (fun _ => tt)) in Hrun; [|done].
  apply (f_equal length) in Hrun. by rewrite !length_fmap in Hrun.
Qed.

Lemma future_items_raises (n : nat) (items : list Py.dict) (jobs : list Job) :
  length jobs = n -> Exists (bad_future_item n) items -> future_items items jobs = None.
Proof.
  intros Hlen Hbad. revert jobs Hlen.
  induction Hbad as [item rest Hitem | item rest Hrest IH]; intros jobs Hlen.
  - destruct Hitem as (idx & Hidx & Hnone & Hcase). cbn [future_items].
    rewrite Hidx. destruct (Py.int idx) as [k| |] eqn:Ek.
    + destruct Hcase as [Hk Hfs].
      assert (Hin : (0 <=? k) && (k <? Z.of_nat (length jobs)) = true).
      { apply andb_true_iff. split; [apply Z.leb_le | apply Z.ltb_lt]; lia. }
      rewrite Hin.
      destruct (Py.int (Py.get_default item "future_score" (Py.VInt 0))) as [v| |] eqn:Ev;
        [by destruct (Hfs v) | by destruct idx | by destruct idx].
    + by destruct idx.
    + by destruct idx.
  - cbn [future_items].
    repeat case_match; try done; apply IH; by rewrite ?length_alter.
Qed.

(** X12 ([future_scores_node]).  The node catches no exception of its loop:
    when the response holds an item whose [idx] is no number, or names a
    job and comes with a [future_score] that is no number, the node
    raises, whatever the other items are. *)
Theorem future_scores_raises_on_bad_item (st : State) (text : string) :
  PyStr.nonempty (PyStr.strip text) = true ->
  Exists (bad_future_item (length (qualifying_jobs st))) (Parser._extract_json_array text) ->
  future_scores_node st text = None.
Proof.
  intros Hne Hbad. unfold future_scores_node. rewrite Hne.
  rewrite (future_items_raises (length (qualifying_jobs st))); [done | | done].
  by rewrite length_fmap.
Qed.

(** X13 ([build_v3_workflow]).  When a run ends, every job of the result
    has a score between the threshold and 100, a resume suggestion that is
    not empty, project suggestions, a predicted score between 0 and 100,
    and an improvement potential that is the predicted score minus the
    score. *)
Theorem finished_jobs_enriched (c : node * State) :
  reachable c -> c.1 = END ->
  Forall (fun j => in_range j /\ has_suggestions j /\ has_projects j /\ has_forecast j)
         (qualifying_jobs c.2).
Proof.
  intros Hreach Hend.
  pose proof (reachable_stage c Hreach) as Hstage.
  pose proof (reachable_in_range c Hreach) as Hrange.
  unfold stage in Hstage. rewrite Hend in Hstage. destruct Hstage as (Hs & Hp & Hf).
  apply Forall_forall. intros j Hj.
  repeat split; by eapply Forall_forall.
Qed.

End EnrichmentFacts.

Lemma qualifying_scores_in_range_witness :
  Forall Stage.in_range (V3.qualifying_jobs Demo.finished.2).
Proof.
  exact (@qualifying_scores_in_range Demo.demo_runtime Demo.finished
           demo_finished_reachable).
Defined.

Lemma enrichment_keeps_listings_witness :
  V3.listing <$> V3.qualifying_jobs Demo.proposing.2
  = V3.listing <$> V3.qualifying_jobs Demo.modifying.2.
Proof.
  refine (proj1 (@enrichment_keeps_listings Demo.demo_runtime Demo.modifying
                   Demo.proposing demo_modifying_step _)).
  left. reflexivity.
Defined.

Lemma resume_modifier_never_raises_witness :
  exists st',
    V3.resume_modifier_agent_node Demo.modifying.2 (fun _ => "") = Some st'
    /\ V3.qualifying_jobs st'
       = V3.set_resume_suggestions (Some V3.NO_SUGGESTIONS)
           <$> V3.qualifying_jobs Demo.modifying.2.
Proof.
  destruct (resume_modifier_never_raises Demo.modifying.2 (fun _ => ""))
    as (st' & Hnode & _ & _ & Hsilent).
  exists st'. split; [exact Hnode |]. apply Hsilent. intros k. reflexivity.
Defined.

Lemma project_proposer_sets_projects_witness :
  @V3.project_proposer_node Demo.demo_runtime Demo.proposing.2 (fun _ => "")
  = Some (V3.set_qualifying_jobs
            (V3.default_projects <$> V3.qualifying_jobs Demo.proposing.2)
            (V3.set_log_phase 2 Demo.proposing.2)).
Proof.
  apply (proj2 (@project_proposer_sets_projects Demo.demo_runtime Demo.proposing.2
                  (fun _ => ""))).
  intros k. reflexivity.
Defined.

Lemma future_scores_sets_forecast_witness :
  Forall Stage.has_forecast (V3.qualifying_jobs Demo.finished.2).
Proof.
  refine (proj2 (proj2 (@future_scores_sets_forecast Demo.demo_runtime
                          Demo.forecasting.2 Demo.finished.2 "" _ _))).
  - repeat (constructor; [split; [split; reflexivity | cbn; lia] |]). constructor.
  - vm_compute. reflexivity.
Defined.

Lemma future_scores_raises_on_bad_item_witness :
  @V3.future_scores_node Demo.demo_runtime Demo.forecasting.2 Demo.bad_future_text = None.
Proof.
  apply (@future_scores_raises_on_bad_item Demo.demo_runtime).
  - reflexivity.
  - assert (E : @Parser._extract_json_array Demo.demo_runtime Demo.bad_future_text
                = [[("idx", Py.VInt 0); ("future_score", Py.VStr "high")]])
      by (vm_compute; reflexivity).
    rewrite E. apply Exists_cons_hd. exists (Py.VInt 0).
    split; [reflexivity |]. split; [discriminate |]. cbn.
    split; [lia |]. intros v. discriminate.
Defined.

Lemma finished_jobs_enriched_witness :
  Forall (fun j => Stage.in_range j /\ Stage.has_suggestions j
                   /\ Stage.has_projects j /\ Stage.has_forecast j)
         (V3.qualifying_jobs Demo.finished.2).
Proof.
  exact (@finished_jobs_enriched Demo.demo_runtime Demo.finished
           demo_finished_reachable eq_refl).
Defined.

Section PromptFacts.
Import PyStr Spec Prompt.

Lemma str_take_drop (n : nat) (s : string) : str_take n s +:+ str_drop n s = s.
Proof.
  revert s; induction n as [|n IH]; intros [|c s]; try reflexivity.
  cbn [str_take str_drop]. rewrite app_cons_str. by rewrite IH.
Qed.

Lemma length_str_take (n : nat) (s : string) :
  String.length (str_take n s) = Nat.min n (String.length s).
Proof.
  revert s; induction n as [|n IH]; intros [|c s]; try reflexivity.
  cbn [str_take String.length]. by rewrite IH.
Qed.

Lemma slice_to_cap (s : string) (cap : Z) :
  0 <= cap ->
  len (slice_to s cap) <= cap
  /\ exists rest, s = slice_to s cap +:+ rest.
Proof.
  intros Hcap. unfold slice_to, clamp_index, len.
  destruct (cap <? 0) eqn:E; [lia |]. split.
  - rewrite length_str_take. lia.
  - eexists. symmetry. apply str_take_drop.
Qed.


(** X14 ([_resume_for_prompt]).  The resume put into a prompt is a prefix
    of the resume of at most 50,000 characters, and the resume itself when
    it is no longer than that. *)
Theorem resume_for_prompt_bounded (resume : string) :
  len (_resume_for_prompt resume) <= V3_MAX_RESUME_CHARS
  /\ (exists rest, resume = _resume_for_prompt resume +:+ rest)
  /\ (len resume <= V3_MAX_RESUME_CHARS -> _resume_for_prompt resume = resume).
Proof.
  unfold _resume_for_prompt.
  destruct resume as [|c r]; [by repeat split; try (by exists "") |].
  cbn [nonempty negb].
  destruct (V3_MAX_RESUME_CHARS <? len (String c r)) eqn:E.
  - destruct (slice_to_cap (String c r) V3_MAX_RESUME_CHARS) as [Hlen Hpre]; [done |].
    split; [done |]. split; [done |]. lia.
  - split; [lia |]. split; [|done]. exists "". by rewrite app_nil_r_str.
Qed.


End PromptFacts.

Section GatewayBounds.
Import Gateway.

Lemma attempts_same (svc svc' : service) (max_attempts : Z) (todo : nat) (attempt : Z) :
  0 <= attempt ->
  (forall k, attempt <= k ->
             svc (Config.get_model_name (2 <=? k)) k
             = svc' (Config.get_model_name (2 <=? k)) k) ->
  attempts svc max_attempts todo attempt = attempts svc' max_attempts todo attempt.
Proof.
  revert attempt; induction todo as [|todo IH]; intros attempt Ha Hsame; [done |].
  cbn [attempts]. rewrite <- Hsame by lia.
  destruct (svc _ attempt); [done |].
  rewrite IH; [done | lia |]. intros k Hk. apply Hsame. lia.
Qed.

(** X16 ([_rate_limited_gemini], [get_model_name]).  The gateway asks the
    primary model at its first two attempts and the fallback model from
    the third on: two services that agree on these calls get the same
    result and the same pauses. *)
Theorem gateway_model_by_attempt (svc svc' : service) (max_attempts : Z) :
  (forall k, 0 <= k < 2 -> svc Config.PRIMARY_MODEL k = svc' Config.PRIMARY_MODEL k) ->
  (forall k, 2 <= k -> svc Config.FALLBACK_MODEL k = svc' Config.FALLBACK_MODEL k) ->
  _rate_limited_gemini svc max_attempts = _rate_limited_gemini svc' max_attempts.
Proof.
  intros Hp Hf. unfold _rate_limited_gemini. apply attempts_same; [lia |].
  intros k Hk. unfold Config.get_model_name.
  destruct (2 <=? k) eqn:E; [apply Hf | apply Hp]; lia.
Qed.




End GatewayBounds.

Lemma resume_for_prompt_bounded_witness :
  Prompt._resume_for_prompt "Analyst, 2019-2024" = "Analyst, 2019-2024".
Proof.
  apply (proj2 (proj2 (resume_for_prompt_bounded "Analyst, 2019-2024"))).
  vm_compute. discriminate.
Defined.


Lemma gateway_model_by_attempt_witness :
  Gateway._rate_limited_gemini Demo.picky 3
  = Gateway._rate_limited_gemini Gateway.flaky 3.
Proof.
  apply gateway_model_by_attempt.
  - intros k Hk. unfold Demo.picky, Config.get_model_name.
    destruct (2 <=? k) eqn:E; [lia | reflexivity].
  - intros k Hk. unfold Demo.picky, Config.get_model_name.
    destruct (2 <=? k) eqn:E; [reflexivity | lia].
Defined.

Section OccurrenceFacts.
Import PyStr Spec.

Lemma startswith_app (p r : string) : startswith p (p +:+ r) = true.
Proof.
  induction p as [|c p IH]; [by destruct r |]. rewrite app_cons_str.
  unfold startswith in *. cbn [String.prefix]. by destruct (ascii_dec c c).
Qed.

Lemma startswith_split (p s : string) :
  startswith p s = true -> exists r, s = p +:+ r.
Proof.
  revert s; induction p as [|c p IH]; intros s; [by exists s |].
  destruct s as [|a s]; [done |]. unfold startswith in *. cbn [String.prefix].
  destruct (ascii_dec c a) as [->|]; [|done].
  intros Hp. destruct (IH s Hp) as [r ->]. by exists r.
Qed.

Lemma startswith_app_l (p q s : string) :
  startswith (p +:+ q) s = true -> startswith p s = true.
Proof.
  intros Hs. apply startswith_split in Hs as [r ->].
  rewrite app_assoc_str. apply startswith_app.
Qed.



Lemma index_char_all (c : ascii) (s : string) :
  index_char c s = None -> all_chars (fun a => negb (Ascii.eqb c a)) s = true.
Proof.
  induction s as [|a s IH]; simpl; [done |].
  destruct (Ascii.eqb c a); [done |].
  destruct (index_char c s); [done |]. intros _. by apply IH.
Qed.

Lemma contains_char_false (c : ascii) (s : string) :
  contains (String c "") s = false <-> all_chars (fun a => negb (Ascii.eqb c a)) s = true.
Proof.
  unfold contains, find. rewrite find_at_char, negb_false_iff, Z.eqb_eq.
  split.
  - destruct (index_char c s) eqn:E; simpl; [lia |]. intros _. by apply index_char_all.
  - intros Hall. by rewrite index_char_none.
Qed.

Lemma all_chars_str_drop (P : ascii -> bool) (n : nat) (s : string) :
  all_chars P s = true -> all_chars P (str_drop n s) = true.
Proof.
  revert s; induction n as [|n IH]; intros [|c s]; try done.
  cbn [str_drop all_chars]. rewrite andb_true_iff. intros [_ Hs]. by apply IH.
Qed.

Lemma all_chars_lstrip (P : ascii -> bool) (s : string) :
  all_chars P s = true -> all_chars P (lstrip s) = true.
Proof.
  destruct (lstrip_split s) as (ws & _ & Hs). rewrite Hs at 1.
  rewrite all_chars_app, andb_true_iff. tauto.
Qed.

Lemma all_chars_rstrip (P : ascii -> bool) (s : string) :
  all_chars P s = true -> all_chars P (rstrip s) = true.
Proof.
  destruct (rstrip_split s) as (ws & _ & Hs). rewrite Hs at 1.
  rewrite all_chars_app, andb_true_iff. tauto.
Qed.

Lemma all_chars_strip (P : ascii -> bool) (s : string) :
  all_chars P s = true -> all_chars P (strip s) = true.
Proof. intros Hs. by apply all_chars_rstrip, all_chars_lstrip. Qed.

Lemma all_chars_after_first (P : ascii -> bool) (sep s r : string) :
  all_chars P s = true -> after_first sep s = Some r -> all_chars P r = true.
Proof.
  revert r; induction s as [|c s IH]; intros r Hs; cbn [after_first].
  - destruct (startswith sep ""); [|done]. intros [= <-]. by apply all_chars_str_drop.
  - destruct (startswith sep (String c s)).
    + intros [= <-]. by apply all_chars_str_drop.
    + cbn [all_chars] in Hs. apply andb_true_iff in Hs as [_ Hs]. by apply IH.
Qed.

Lemma all_chars_strip_fence (P : ascii -> bool) (text : string) :
  all_chars P text = true -> all_chars P (Parser.strip_fence text) = true.
Proof.
  intros Ht. unfold Parser.strip_fence.
  pose proof (all_chars_strip P text Ht) as Hs.
  destruct (startswith Parser.FENCE (strip text)); [|done].
  assert (Hr : all_chars P match after_first Parser.FENCE (strip text) with
                           | Some r => r
                           | None => strip text
                           end = true).
  { destruct (after_first _ _) eqn:E; [by eapply all_chars_after_first | done]. }
  destruct (startswith "json" _); [|done].
  unfold slice_from. by apply all_chars_str_drop.
Qed.

Lemma find_bracket_absent (text : string) :
  contains "[" text = false -> find "[" (Parser.strip_fence text) = -1.
Proof.
  intros Hc. apply contains_char_false in Hc.
  apply (all_chars_strip_fence _ text) in Hc. apply contains_char_false in Hc.
  unfold contains in Hc. by apply negb_false_iff, Z.eqb_eq in Hc.
Qed.

End OccurrenceFacts.

Section ChoiceSpec.
Import V3 Spec.

Lemma head_filter_None {A} (P : A -> Prop) `{forall x, Decision (P x)} (l : list A) :
  head (filter P l) = None <-> forall x, x ∈ l -> ~ P x.
Proof.
  split.
  - intros Hhead x Hx HP.
    assert (Hin : x ∈ filter P l) by (by apply list_elem_of_filter).
    destruct (filter P l); [by apply elem_of_nil in Hin | done].
  - intros Hall. destruct (filter P l) as [|y ys] eqn:E; [done |].
    assert (Hy : y ∈ filter P l) by (rewrite E; apply list_elem_of_here).
    apply list_elem_of_filter in Hy as [HP Hy]. by destruct (Hall y Hy).
Qed.

(** X18 ([_get_next_title_page], [_tried_pairs_set]).  A pair that
    [_get_next_title_page] returns is a pair of the canonical order (a
    suggested title, stripped and not empty, with a page from 0 to 5) that
    was not tried; it returns nothing exactly when every pair of the
    canonical order was tried.  A pair counts as tried when the log holds an
    entry with that page whose stripped title is the title of the pair. *)
Theorem next_title_page_exhausted (suggested : list string) (log : list Attempt) :
  (forall pr, _get_next_title_page suggested log 5 = Some pr ->
              pr ∈ canonical_pairs (search_titles suggested) 5
              /\ (pr ∉ _tried_pairs_set log))
  /\ (_get_next_title_page suggested log 5 = None <->
      forall pr, pr ∈ canonical_pairs (search_titles suggested) 5 ->
                 pr ∈ _tried_pairs_set log)
  /\ (forall pr, pr ∈ _tried_pairs_set log <->
                 exists e, e ∈ log
                           /\ PyStr.nonempty (PyStr.strip (attempt_title e)) = true
                           /\ pr = (PyStr.strip (attempt_title e), attempt_page e)).
Proof.
  rewrite get_next_title_page_canonical. unfold first_canonical_untried.
  split; [|split].
  - intros pr Hhead. apply head_elem_of, list_elem_of_filter in Hhead as [? ?]. done.
  - rewrite head_filter_None. split.
    + intros Hall pr Hpr. specialize (Hall pr Hpr).
      by destruct (decide (pr ∈ _tried_pairs_set log)).
    + intros Hall pr Hpr Hnot. by apply Hnot, Hall.
  - intros pr. unfold _tried_pairs_set. rewrite elem_of_tried_pairs_fold.
    split; [|by right]. intros [Hempty|?]; [|done].
    by apply not_elem_of_empty in Hempty.
Qed.

Context `{Py.Runtime}.

Lemma extract_without_bracket (text : string) :
  PyStr.contains "[" text = false ->
  Parser._extract_json_string_array text = [] /\ Parser._extract_json_array text = [].
Proof.
  intros Hc. apply find_bracket_absent in Hc. split.
  - unfold Parser._extract_json_string_array. by rewrite Hc.
  - unfold Parser._extract_json_array, Parser.bracket_span. by rewrite Hc.
Qed.

Lemma agent_tool_call_none (st : State) (reply : agent_reply) :
  Ledger.no_scraper_call reply -> agent_tool_call st reply = Some None.
Proof.
  intros Hreply. unfold agent_tool_call.
  destruct (V3_TARGET_QUALIFYING_JOBS <=? _); [done |].
  destruct (_get_next_title_page _ _ 5); [|done].
  destruct reply as [| |[fname|] args]; try done. cbn in Hreply.
  destruct (String.eqb fname "scrape_linkedin") eqn:E; [|done].
  apply String.eqb_eq in E. by subst.
Qed.

(** X19 ([phase1_agent_node], [phase1_route]).  When the reply of the
    generation service holds no call of the scraper and neither bound of
    the loop is reached, the run is sent back to the agent node with the
    state it had, the pending call cleared: the visit counts no round and
    tries no pair. *)
Theorem agent_retries_without_call (st : State) (reply : agent_reply) :
  Ledger.no_scraper_call reply ->
  Z.of_nat (length (qualifying_jobs st)) < V3_TARGET_QUALIFYING_JOBS ->
  phase1_rounds st < V3_PHASE1_MAX_ROUNDS ->
  phase1_agent_node st reply = Some (set_phase1_last_tool_call None st)
  /\ step (phase1_agent, st) (phase1_agent, set_phase1_last_tool_call None st).
Proof.
  intros Hreply Hn Hr.
  assert (Hnode : phase1_agent_node st reply = Some (set_phase1_last_tool_call None st)).
  { unfold phase1_agent_node. by rewrite agent_tool_call_none. }
  split; [done |].
  assert (Hroute : phase1_route (set_phase1_last_tool_call None st) = phase1_agent).
  { apply phase1_route_loops; by destruct st. }
  pose proof (step_phase1_agent st reply _ Hnode) as Hstep.
  by rewrite Hroute in Hstep.
Qed.

(** X20 ([decide_titles_node]).  For every job type and every answer of the
    generation service the node suggests at most four titles, at most three
    when the job type is [full_time] or [internship], each stripped and not
    empty, and changes nothing else of the state.  When the answer holds no
    opening bracket, as the empty answer of a failed gateway call does, it
    suggests the fallback title: [Software Engineer] for [full_time],
    [Software Engineer Intern] for every other job type. *)
Theorem decide_titles_bounds (st : State) (text : string) :
  let titles := suggested_titles (decide_titles_node st text) in
  (length titles <= max_titles (normal_job_type st))%nat
  /\ (max_titles (normal_job_type st) <= 4)%nat
  /\ (normal_job_type st = "full_time" \/ normal_job_type st = "internship" ->
      max_titles (normal_job_type st) = 3%nat)
  /\ Forall clean titles
  /\ decide_titles_node st text = set_suggested_titles titles st
  /\ (PyStr.contains "[" text = false ->
      titles = if String.eqb (normal_job_type st) "full_time"
               then ["Software Engineer"] else ["Software Engineer Intern"]).
Proof.
  assert (Hnode : suggested_titles (decide_titles_node st text)
                  = titles_for (normal_job_type st) text) by (by destruct st).
  cbv zeta. rewrite Hnode.
  split; [unfold titles_for; rewrite length_take; lia |].
  split; [unfold max_titles; repeat case_match; lia |].
  split; [by intros [-> | ->] |].
  split; [apply titles_for_clean |]. split; [done |].
  intros Hc. unfold titles_for.
  destruct (extract_without_bracket text Hc) as [Ha Hb].
  rewrite Ha, Hb, Hc. cbn [titles_of_dicts is_nil andb].
  assert (Hdef : (if PyStr.nonempty (PyStr.strip text)
                  then @nil string else @nil string) = []) by (by case_match).
  rewrite Hdef. cbn [is_nil]. unfold default_titles, max_titles.
  by repeat case_match.
Qed.

End ChoiceSpec.

Lemma next_title_page_exhausted_witness :
  ("Data Analyst", 0) ∉ V3._tried_pairs_set (V3.phase1_tried_pairs Examples.fresh).
Proof.
  apply (proj1 (next_title_page_exhausted ["Data Analyst"]
                  (V3.phase1_tried_pairs Examples.fresh)) ("Data Analyst", 0)).
  reflexivity.
Defined.

Lemma agent_retries_without_call_witness :
  @V3.step Examples.example_runtime (V3.phase1_agent, Examples.fresh)
    (V3.phase1_agent, V3.set_phase1_last_tool_call None Examples.fresh).
Proof.
  apply (proj2 (@agent_retries_without_call Examples.example_runtime Examples.fresh
                  V3.CallFailed I eq_refl eq_refl)).
Defined.

Lemma decide_titles_bounds_witness :
  V3.suggested_titles
    (@V3.decide_titles_node Examples.example_runtime
       (V3.initial_state "resume" "" "both") "")
  = ["Software Engineer Intern"].
Proof.
  apply (proj2 (proj2 (proj2 (proj2 (proj2
           (@decide_titles_bounds Examples.example_runtime
              (V3.initial_state "resume" "" "both") "")))))).
  reflexivity.
Defined.

Section ParserFacts.
Import PyStr Spec Parser.

Lemma bracket_offset_prefix (a b : string) (depth : Z) (q : option ascii) (e : bool)
  (m : nat) :
  bracket_offset a depth q e = Some m -> bracket_offset (a +:+ b) depth q e = Some m.
Proof.
  revert depth q e m; induction a as [|c a IH]; intros depth q e m; [done |].
  rewrite app_cons_str. cbn [bracket_offset].
  scan_cases c depth q e; intros Hm;
    first [ apply fmap_Some in Hm as (k & Hk & ->); by rewrite (IH _ _ _ _ Hk)
          | done ].
Qed.

Lemma str_take_app_exact (a b : string) : str_take (String.length a) (a +:+ b) = a.
Proof. induction a as [|c a IH]; [by destruct b |]. sapp. by rewrite IH. Qed.

Lemma str_take_all (s : string) : str_take (String.length s) s = s.
Proof. induction s as [|c s IH]; [done |]. cbn. by rewrite IH. Qed.

Lemma lstrip_bracket (s : string) : startswith "[" s = true -> lstrip s = s.
Proof.
  rewrite startswith_char. destruct s as [|a s]; [done |].
  intros Ha. apply Ascii.eqb_eq in Ha. by subst a.
Qed.

(** The span of a text that opens with a bracket whose match is found. *)
Lemma bracket_span_closed (s : string) (m : nat) :
  startswith "[" s = true ->
  bracket_offset s 0 None false = Some m ->
  bracket_span (strip_fence s) = Some (str_take (S m) s).
Proof.
  intros Hopen Hm.
  destruct (rstrip_split s) as (ws & Hws & Hs).
  assert (Hr : bracket_offset (rstrip s) 0 None false = Some m).
  { rewrite Hs in Hm. rewrite bracket_offset_app in Hm; [done |].
    revert Hws. apply all_chars_weaken. intros c Hc.
    apply isspace_no_brackets in Hc. unfold no_brackets in Hc. unfold not_char.
    apply andb_true_iff in Hc. tauto. }
  pose proof (bracket_offset_lt _ _ _ _ _ Hr) as Hlt.
  assert (Hstrip : strip s = rstrip s) by (unfold strip; by rewrite lstrip_bracket).
  assert (Hopen' : startswith "[" (rstrip s) = true).
  { rewrite startswith_char in *. destruct (rstrip s) as [|a r] eqn:E; [cbn in Hlt; lia |].
    rewrite Hs in Hopen. by rewrite app_cons_str in Hopen. }
  rewrite strip_fence_plain by (rewrite Hstrip; by apply startswith_bracket_not_fence).
  rewrite Hstrip, bracket_span_nat. unfold span_nat.
  assert (Hidx : index_char "[" (rstrip s) = Some 0%nat).
  { rewrite startswith_char in Hopen'. destruct (rstrip s) as [|a r]; [done |].
    cbn [index_char]. by rewrite Hopen'. }
  rewrite Hidx. unfold span_end. cbn [str_drop]. rewrite Hr.
  cbn [Nat.add Nat.leb Nat.sub].
  replace (m + 1)%nat with (S m) by lia. cbn [str_drop]. f_equal.
  rewrite Hs at 2. symmetry. apply str_take_app_le. lia.
Qed.

Context `{Py.Runtime}.

(** X21 ([_extract_json_array]).  A text that opens with a bracket and
    closes it with its last character is read the same whatever follows
    it: the text after the matching bracket, a second array included, is
    not handed to the JSON parser. *)
Theorem extract_json_array_ignores_trailing (arr rest : string) :
  startswith "[" arr = true ->
  bracket_offset arr 0 None false = Some (String.length arr - 1)%nat ->
  _extract_json_array (arr +:+ rest) = _extract_json_array arr.
Proof.
  intros Hopen Hm.
  assert (Hlen : S (String.length arr - 1) = String.length arr).
  { apply bracket_offset_lt in Hm. lia. }
  assert (Hopen' : startswith "[" (arr +:+ rest) = true).
  { rewrite startswith_char in *. destruct arr; [done |]. by rewrite app_cons_str. }
  unfold _extract_json_array.
  rewrite (bracket_span_closed (arr +:+ rest) (String.length arr - 1) Hopen')
    by by apply bracket_offset_prefix.
  rewrite (bracket_span_closed arr (String.length arr - 1) Hopen Hm).
  by rewrite Hlen, str_take_app_exact, str_take_all.
Qed.

(** X22 ([_extract_json_string_array], [_extract_json_array]).  The string
    array parser returns at most five strings, each of them stripped; in a
    text without an opening bracket neither parser finds anything, whatever
    the JSON parser would say. *)
Theorem extract_string_array_bounds (text : string) :
  (length (_extract_json_string_array text) <= 5)%nat
  /\ Forall (fun t => strip t = t) (_extract_json_string_array text)
  /\ (contains "[" text = false ->
      _extract_json_string_array text = [] /\ _extract_json_array text = []).
Proof.
  split; [|split].
  - unfold _extract_json_string_array. repeat case_match; try (cbn; lia).
    rewrite length_take. lia.
  - unfold _extract_json_string_array.
    repeat case_match; try constructor. apply Forall_take, stripped_strs_stripped.
  - apply extract_without_bracket.
Qed.

End ParserFacts.

Lemma extract_json_array_ignores_trailing_witness :
  @Parser._extract_json_array Examples.example_runtime
    (Examples.plain_title_text +:+ " or [1, 2]")
  = @Parser._extract_json_array Examples.example_runtime Examples.plain_title_text.
Proof.
  apply (@extract_json_array_ignores_trailing Examples.example_runtime
           Examples.plain_title_text " or [1, 2]"); reflexivity.
Defined.

Lemma extract_string_array_bounds_witness :
  @Parser._extract_json_string_array Examples.example_runtime "no array here" = []
  /\ @Parser._extract_json_array Examples.example_runtime "no array here" = [].
Proof.
  apply (proj2 (proj2 (@extract_string_array_bounds Examples.example_runtime
                         "no array here"))).
  reflexivity.
Defined.

Section SplitSpec.
Import PyStr Spec Parser.



End SplitSpec.




Section ApiFacts.
Import PyStr V3 Api.
Context `{Py.Runtime}.

Lemma difficulty_of_level (proj : Py.dict) : difficulty_of proj ∈ DIFFICULTIES.
Proof.
  unfold difficulty_of.
  assert (Hmid : "Intermediate" ∈ DIFFICULTIES)
    by (apply list_elem_of_further, list_elem_of_here).
  destruct (Py.get_default proj "difficulty" (Py.VStr "Intermediate")); try done.
  unfold mem. by case_bool_decide.
Qed.

Lemma project_items_well_formed (job : Job) (idx boost : Z) (i : nat)
  (items : list Py.value) (ps : list Project) :
  1 <= boost <= Z.max 1 (default 5 (improvement_potential job)) ->
  project_items job idx boost i items = Some ps ->
  Forall (well_formed job) ps.
Proof.
  intros Hboost. revert i ps; induction items as [|x items IH]; intros i ps.
  - intros [= <-]. constructor.
  - cbn [project_items].
    destruct x as [| | | | | |proj]; try (by apply IH).
    intros Hrun.
    apply bind_Some in Hrun as (tech & _ & Hrun).
    apply bind_Some in Hrun as (steps & _ & Hrun).
    apply bind_Some in Hrun as (rest & Hrest & [= <-]).
    constructor; [|by eapply IH].
    unfold well_formed. cbn.
    split; [apply difficulty_of_level |]. split; [done |].
    rewrite !length_take. lia.
Qed.

(** X24 ([_parse_projects]).  The projects shown for a job are none exactly
    when the text is empty or one of the three texts that stand for no
    project; otherwise there is at least one.  Every project has one of the
    three difficulty levels, a score boost between 1 and the improvement
    potential of the job (5 when the job has none, and never below 1), at
    most eight technologies and at most six steps. *)
Theorem parse_projects_well_formed (projects_text : string) (job : Job) (idx : Z) :
  (_parse_projects projects_text job idx = []
   <-> projects_text = "" \/ projects_text ∈ NO_PROJECTS)
  /\ Forall (well_formed job) (_parse_projects projects_text job idx).
Proof.
  unfold _parse_projects.
  destruct (negb (nonempty projects_text) || mem projects_text NO_PROJECTS) eqn:E.
  - split; [|constructor]. split; [|done]. intros _.
    apply orb_true_iff in E as [E|E].
    + left. by destruct projects_text.
    + right. unfold mem in E. by apply bool_decide_eq_true in E.
  - apply orb_false_iff in E as [E1 E2].
    set (sb := Z.max 1 (default 5 (improvement_potential job))).
    set (pb := if 3 <? sb then Z.max 1 (sb / 3) else sb).
    assert (Hpb : 1 <= pb <= sb).
    { subst pb. destruct (3 <? sb) eqn:E3; [|subst sb; lia].
      apply Z.ltb_lt in E3. split; [lia |].
      apply Z.max_lub; [lia |]. apply Z.div_le_upper_bound; lia. }
    match goal with
    | |- context [is_nil ?r] => set (result := r)
    end.
    assert (Hres : Forall (well_formed job) result).
    { subst result. repeat case_match; try constructor.
      destruct (project_items job idx pb 0 _) as [ps|] eqn:Eps; [|constructor].
      by eapply project_items_well_formed. }
    split.
    + split.
      * destruct result; [done | done].
      * intros [-> | Hin]; [done |].
        unfold mem in E2. by apply bool_decide_eq_false in E2.
    + destruct result; [|done]. cbn [is_nil]. constructor; [|constructor].
      unfold well_formed, fallback_project. cbn. fold sb.
      split; [apply list_elem_of_further, list_elem_of_here |]. lia.
Qed.

End ApiFacts.

Lemma parse_projects_well_formed_witness :
  @Api._parse_projects Examples.example_runtime "No project suggestions generated."
    (V3.new_job Examples.a_listing) 1 = [].
Proof.
  apply (proj1 (@parse_projects_well_formed Examples.example_runtime
                  "No project suggestions generated." (V3.new_job Examples.a_listing) 1)).
  right. apply list_elem_of_further, list_elem_of_further, list_elem_of_here.
Defined.
